(** * mkdocs-extra-sass-mathshim: the Sass shim and the SVG cache

    A shallow embedding of [src/mkdocs_extra_sass_mathshim/plugin.py]:
    the text-level rewrites of [_AvailableSassEntry.save_to], the
    [svg-load] inliner [_inline_svg_loads] with its cache
    [_fetch_and_cache], and the entry-point search of [_SassEntry].

    Python [str] values are sequences of Unicode code points; they are
    modelled as lists of [N].  The regular expressions of the program are
    run by a backtracking matcher with the priorities of Python's [re]
    (greedy and lazy repeats, groups, back-references, IGNORECASE). *)

From Stdlib Require Import NArith List Bool Ascii String Lia Arith.
From stdpp Require Import base option gmap.
Import ListNotations.

Local Open Scope N_scope.
Local Open Scope list_scope.

(** ** Text *)

Abbreviation char := N (only parsing).
Abbreviation str := (list N) (only parsing).

(** A literal of the source, written as a Rocq string of ASCII characters. *)
Definition py (x : String.string) : str :=
  List.map N_of_ascii (list_ascii_of_string x).

Definition dquote : char := 34.
Definition squote : char := 39.

(** [Py_UNICODE_ISSPACE]: what [str.strip] removes and what [\s] matches
    in a [str] pattern. *)
Definition is_space (c : char) : bool :=
  ((9 <=? c) && (c <=? 13)) || ((28 <=? c) && (c <=? 32))
  || (c =? 133) || (c =? 160) || (c =? 5760)
  || ((8192 <=? c) && (c <=? 8202))
  || (c =? 8232) || (c =? 8233) || (c =? 8239) || (c =? 8287) || (c =? 12288).

Fixpoint lstrip (s : str) : str :=
  match s with
  | c :: s' => if is_space c then lstrip s' else s
  | [] => []
  end.

Definition rstrip (s : str) : str := rev (lstrip (rev s)).

(** [str.strip()] *)
Definition strip (s : str) : str := rstrip (lstrip s).

Fixpoint str_eqb (a b : str) : bool :=
  match a, b with
  | [], [] => true
  | x :: a', y :: b' => (x =? y) && str_eqb a' b'
  | _, _ => false
  end.

(** [s.startswith(p)] *)
Fixpoint startswith (p s : str) : bool :=
  match p, s with
  | [], _ => true
  | x :: p', y :: s' => (x =? y) && startswith p' s'
  | _ :: _, [] => false
  end.

(** [needle in hay] *)
Fixpoint contains (needle hay : str) : bool :=
  startswith needle hay ||
  match hay with
  | [] => false
  | _ :: hay' => contains needle hay'
  end.

(** [c in s] for a single character. *)
Definition has (c : char) (s : str) : bool := existsb (N.eqb c) s.

(** Some character of [s] is not white space. *)
Definition nonblank (s : str) : bool := existsb (fun c => negb (is_space c)) s.

(** [s] is not empty and neither begins nor ends with white space, so that
    [s.strip() == s]. *)
Definition trimmed (s : str) : bool :=
  negb (is_space (List.hd 32 s)) && negb (is_space (List.last s 32)).

(** [s] is empty or begins with a character that [ok] rejects: a run of
    [ok] characters stops here. *)
Definition stops (ok : char -> bool) (s : str) : bool :=
  match s with c :: _ => negb (ok c) | [] => true end.

(** ** Regular expressions

    Every repeat in the program's patterns ranges over a one-character
    item, so a pattern is a sequence of nodes and a repeat is a loop over
    the text. *)

Inductive atom : Type :=
| Chr (c : char)                      (* a literal character *)
| Dot                                 (* [.] : anything but a newline *)
| Ws                                  (* [\s] *)
| Cls (neg : bool) (cs : list char).  (* [[...]] and [[^...]] *)

Inductive node : Type :=
| One (a : atom)
| Rep (greedy : bool) (lo : nat) (a : atom)  (* [a*], [a+], [a*?], [a+?] *)
| Open (g : nat)                             (* start of group g *)
| Close (g : nat)                            (* end of group g *)
| Ref (g : nat).                             (* [\g] *)

Definition regex := list node.

(** Lower-casing of IGNORECASE, exact on the comparisons against the ASCII
    literals of the patterns: besides A-Z, U+0130 lowers to [i] and U+212A
    to [k]. *)
Definition lower (c : char) : char :=
  if (65 <=? c) && (c <=? 90) then c + 32
  else if c =? 304 then 105
  else if c =? 8490 then 107
  else c.

(** Characters that IGNORECASE identifies although their lower-casings
    differ (the equivalence table of the pattern compiler): dotless i with
    [i], long s with [s]. *)
Definition fold_extra (c : char) : char :=
  if c =? 305 then 105 else if c =? 383 then 115 else c.

Definition chr_eq (ic : bool) (p c : char) : bool :=
  if ic then fold_extra (lower p) =? fold_extra (lower c) else p =? c.

Arguments chr_eq : simpl never.

(** [p] and [s] are the same text up to case, as IGNORECASE compares. *)
Fixpoint ci_same (p s : str) : bool :=
  match p, s with
  | [], [] => true
  | x :: p', y :: s' => chr_eq true x y && ci_same p' s'
  | _, _ => false
  end.

Definition is_quote (c : char) : bool := (c =? squote) || (c =? dquote).

Definition atom_ok (ic : bool) (a : atom) (c : char) : bool :=
  match a with
  | Chr x => chr_eq ic x c
  | Dot => negb (c =? 10)
  | Ws => is_space c
  | Cls neg cs => xorb neg (existsb (fun x => chr_eq ic x c) cs)
  end.

Section Repeat.
Context {R : Type}.
Variable ok : char -> bool.
Variable k : str -> option R.

(** Greedy repeat: take as many characters as possible, then give them
    back one at a time until the rest of the pattern matches. *)
Fixpoint rep_greedy (lo : nat) (s : str) : option R :=
  match s with
  | c :: s' =>
      if ok c then
        match rep_greedy (Nat.pred lo) s' with
        | Some r => Some r
        | None => match lo with O => k s | S _ => None end
        end
      else match lo with O => k s | S _ => None end
  | [] => match lo with O => k s | S _ => None end
  end.

(** Lazy repeat: take as few characters as possible, one more each time
    the rest of the pattern fails. *)
Fixpoint rep_lazy (lo : nat) (s : str) {struct s} : option R :=
  match lo with
  | O =>
      match k s with
      | Some r => Some r
      | None =>
          match s with
          | c :: s' => if ok c then rep_lazy O s' else None
          | [] => None
          end
      end
  | S lo' =>
      match s with
      | c :: s' => if ok c then rep_lazy lo' s' else None
      | [] => None
      end
  end.
End Repeat.

Definition caps := list (nat * str).

Fixpoint cap_get (g : nat) (cs : caps) : option str :=
  match cs with
  | (h, t) :: cs' => if Nat.eqb g h then Some t else cap_get g cs'
  | [] => None
  end.

Fixpoint strip_prefix (ic : bool) (p s : str) : option str :=
  match p, s with
  | [], _ => Some s
  | x :: p', y :: s' => if chr_eq ic x y then strip_prefix ic p' s' else None
  | _ :: _, [] => None
  end.

(** [m_nodes ic r opens cs s]: match [r] at the start of [s]; [opens]
    holds, for each group under way, the text that was left when it
    began.  The result is the groups and the text left after the match. *)
Fixpoint m_nodes (ic : bool) (r : regex) (opens cs : caps) (s : str)
  : option (caps * str) :=
  match r with
  | [] => Some (cs, s)
  | One a :: r' =>
      match s with
      | c :: s' => if atom_ok ic a c then m_nodes ic r' opens cs s' else None
      | [] => None
      end
  | Rep true lo a :: r' =>
      rep_greedy (atom_ok ic a) (fun s' => m_nodes ic r' opens cs s') lo s
  | Rep false lo a :: r' =>
      rep_lazy (atom_ok ic a) (fun s' => m_nodes ic r' opens cs s') lo s
  | Open g :: r' => m_nodes ic r' ((g, s) :: opens) cs s
  | Close g :: r' =>
      match cap_get g opens with
      | Some s0 =>
          m_nodes ic r' opens
            ((g, firstn (List.length s0 - List.length s) s0) :: cs) s
      | None => None
      end
  | Ref g :: r' =>
      match cap_get g cs with
      | Some t =>
          match strip_prefix ic t s with
          | Some s' => m_nodes ic r' opens cs s'
          | None => None
          end
      | None => None
      end
  end.

Definition re_match (ic : bool) (r : regex) (s : str) : option (caps * str) :=
  m_nodes ic r [] [] s.

(** The same match when the text [X] follows what was matched against:
    the text left grows by [X], and so do the texts noted for the groups
    under way. *)
Definition more (X : str) (res : option (caps * str)) : option (caps * str) :=
  match res with
  | Some (g, rest) => Some (g, rest ++ X)
  | None => None
  end.

Definition more_opens (X : str) (o : caps) : caps :=
  List.map (fun p => (fst p, snd p ++ X)) o.

(** [apart ic X I r]: whether and how [r] matches at the head of a text
    does not depend on [X] following the text, for groups satisfying [I]. *)
Definition apart (ic : bool) (X : str) (I : caps -> Prop) (r : regex) : Prop :=
  forall o c s, I c ->
    m_nodes ic r (more_opens X o) c (s ++ X) = more X (m_nodes ic r o c s).

(** A match object: [group(0)] and the numbered groups. *)
Record Match : Type := { m_text : str; m_groups : caps }.

Definition group (m : Match) (g : nat) : str :=
  match cap_get g (m_groups m) with Some t => t | None => [] end.

(** What [re.sub] sees of the text: characters it copies and the matches
    it replaces, from left to right, never overlapping. *)
Inductive piece : Type :=
| Lit (c : char)
| Hit (m : Match).

(** [skip] counts the characters still covered by the last match.  Every
    pattern of the program begins with a literal character, so that no
    match is empty ([re_match_consumes]); the branch for an empty match is
    there to make the function total and copies the character. *)
Fixpoint scan_from (ic : bool) (r : regex) (skip : nat) (s : str) : list piece :=
  match s with
  | [] => []
  | c :: s' =>
      match skip with
      | S n => scan_from ic r n s'
      | O =>
          match re_match ic r s with
          | Some (g, rest) =>
              match (List.length s - List.length rest)%nat with
              | S n =>
                  Hit {| m_text := firstn (S n) s; m_groups := g |}
                  :: scan_from ic r n s'
              | O => Lit c :: scan_from ic r O s'
              end
          | None => Lit c :: scan_from ic r O s'
          end
      end
  end.

Definition scan (ic : bool) (r : regex) (s : str) : list piece :=
  scan_from ic r O s.

(** A replacement template such as [r"(\1 / \2)"]. *)
Inductive tpl : Type :=
| T (s : str)
| G (g : nat).

Definition expand (t : list tpl) (m : Match) : str :=
  flat_map (fun x => match x with T s => s | G g => group m g end) t.

Definition render (t : list tpl) (p : piece) : str :=
  match p with
  | Lit c => [c]
  | Hit m => expand t m
  end.

(** [re.sub(pattern, template, s)] *)
Definition re_sub (ic : bool) (r : regex) (t : list tpl) (s : str) : str :=
  flat_map (render t) (scan ic r s).

Definition lit (x : String.string) : regex := List.map (fun c => One (Chr c)) (py x).

(** ** The shims of [save_to] (lines 236-260) *)

(** [r"math\.round\("] *)
Definition pat_round : regex := lit "math.round(".

(** [r"math\.div\(\s*([^,]+?)\s*,\s*([^)]+?)\s*\)"] *)
Definition pat_div : regex :=
  lit "math.div(" ++
  [ Rep true 0 Ws; Open 1; Rep false 1 (Cls true (py ",")); Close 1;
    Rep true 0 Ws; One (Chr 44); Rep true 0 Ws;
    Open 2; Rep false 1 (Cls true (py ")")); Close 2;
    Rep true 0 Ws; One (Chr 41) ].

(** [r"math\.unit\(\s*([^)]+?)\s*\)"] *)
Definition pat_unit : regex :=
  lit "math.unit(" ++
  [ Rep true 0 Ws; Open 1; Rep false 1 (Cls true (py ")")); Close 1;
    Rep true 0 Ws; One (Chr 41) ].

(** [r"color\.channel\s*\(\s*([^\)]+),\s*['\"]NAME['\"].*?\)"] *)
Definition pat_channel (name : String.string) : regex :=
  lit "color.channel" ++
  [ Rep true 0 Ws; One (Chr 40); Rep true 0 Ws;
    Open 1; Rep true 1 (Cls true (py ")")); Close 1;
    One (Chr 44); Rep true 0 Ws; One (Cls false [squote; dquote]) ] ++
  lit name ++
  [ One (Cls false [squote; dquote]); Rep false 0 Dot; One (Chr 41) ].

(** [r"(\1 / \2)"], [r"unit(\1)"] and [r"NAME(\1)"] *)
Definition tpl_div : list tpl := [T (py "("); G 1; T (py " / "); G 2; T (py ")")].
Definition tpl_unit : list tpl := [T (py "unit("); G 1; T (py ")")].
Definition tpl_channel (name : String.string) : list tpl :=
  [T (py name); T (py "("); G 1; T (py ")")].

Definition shim_round (s : str) : str := re_sub false pat_round [T (py "round(")] s.

Definition shim_div (s : str) : str := re_sub false pat_div tpl_div s.

Definition shim_unit (s : str) : str := re_sub false pat_unit tpl_unit s.

Definition shim_channel (name : String.string) (s : str) : str :=
  re_sub true (pat_channel name) (tpl_channel name) s.

(** The calls the shims are written for, as they stand in a source text. *)
Definition div_call (a b : str) : str :=
  py "math.div(" ++ a ++ py "," ++ b ++ py ")".

Definition unit_call (x : str) : str := py "math.unit(" ++ x ++ py ")".

Definition channel_call (expr w : str) (q : char) (NAME : str) (q' : char) : str :=
  py "color.channel(" ++ expr ++ py "," ++ w ++ q :: NAME ++ q' :: py ")".

Definition channel_names : list String.string := ["hue"; "saturation"; "lightness"]%string.

(** The text that [save_to] hands to [_inline_svg_loads]. *)
Definition save_to_shim (scss_source : str) : str :=
  let scss_source := shim_round scss_source in
  let scss_source := shim_div scss_source in
  let scss_source := shim_unit scss_source in
  let scss_source := shim_channel "hue" scss_source in
  let scss_source := shim_channel "saturation" scss_source in
  let scss_source := shim_channel "lightness" scss_source in
  scss_source.

(** ** Bytes: UTF-8, base64, SHA-256 *)

Abbreviation byte := N (only parsing).

(** [s.encode("utf-8")]; [None] stands for [UnicodeEncodeError]
    (a surrogate code point cannot be encoded). *)
Definition utf8_char (c : char) : option (list byte) :=
  if c <? 128 then Some [c]
  else if c <? 2048 then
    Some [N.lor 192 (N.shiftr c 6); N.lor 128 (N.land c 63)]
  else if c <? 65536 then
    if (55296 <=? c) && (c <=? 57343) then None
    else Some [N.lor 224 (N.shiftr c 12);
               N.lor 128 (N.land (N.shiftr c 6) 63);
               N.lor 128 (N.land c 63)]
  else if c <? 1114112 then
    Some [N.lor 240 (N.shiftr c 18);
          N.lor 128 (N.land (N.shiftr c 12) 63);
          N.lor 128 (N.land (N.shiftr c 6) 63);
          N.lor 128 (N.land c 63)]
  else None.

Fixpoint utf8_encode (s : str) : option (list byte) :=
  match s with
  | [] => Some []
  | c :: s' =>
      match utf8_char c, utf8_encode s' with
      | Some b, Some bs => Some (b ++ bs)
      | _, _ => None
      end
  end.

Definition b64_digit (n : N) : char :=
  if n <? 26 then 65 + n
  else if n <? 52 then 97 + (n - 26)
  else if n <? 62 then 48 + (n - 52)
  else if n =? 62 then 43 else 47.

(** [base64.b64encode(bs).decode("utf-8")] *)
Fixpoint b64encode (bs : list byte) : str :=
  match bs with
  | a :: b :: c :: rest =>
      b64_digit (N.shiftr a 2)
      :: b64_digit (N.lor (N.shiftl (N.land a 3) 4) (N.shiftr b 4))
      :: b64_digit (N.lor (N.shiftl (N.land b 15) 2) (N.shiftr c 6))
      :: b64_digit (N.land c 63)
      :: b64encode rest
  | [a; b] =>
      [ b64_digit (N.shiftr a 2);
        b64_digit (N.lor (N.shiftl (N.land a 3) 4) (N.shiftr b 4));
        b64_digit (N.shiftl (N.land b 15) 2); 61 ]
  | [a] =>
      [ b64_digit (N.shiftr a 2); b64_digit (N.shiftl (N.land a 3) 4); 61; 61 ]
  | [] => []
  end.

Module Sha256.
Definition w32 (x : N) : N := N.land x 4294967295.
Definition add32 (x y : N) : N := w32 (x + y).
Definition rotr (n x : N) : N :=
  w32 (N.lor (N.shiftr x n) (N.shiftl x (32 - n))).
Definition ch (x y z : N) : N :=
  N.lxor (N.land x y) (N.land (N.lxor x 4294967295) z).
Definition maj (x y z : N) : N :=
  N.lxor (N.lxor (N.land x y) (N.land x z)) (N.land y z).
Definition bsig0 x := N.lxor (N.lxor (rotr 2 x) (rotr 13 x)) (rotr 22 x).
Definition bsig1 x := N.lxor (N.lxor (rotr 6 x) (rotr 11 x)) (rotr 25 x).
Definition ssig0 x := N.lxor (N.lxor (rotr 7 x) (rotr 18 x)) (N.shiftr x 3).
Definition ssig1 x := N.lxor (N.lxor (rotr 17 x) (rotr 19 x)) (N.shiftr x 10).

(** The round constants are the first 32 bits of the fractional parts of
    the cube roots of the first 64 primes, the initial state those of the
    square roots of the first 8. *)
Definition is_prime (n : N) : bool :=
  forallb (fun d => negb (n mod N.of_nat d =? 0)) (seq 2 (N.to_nat n - 2)).

Definition primes : list N :=
  filter is_prime (List.map N.of_nat (seq 2 310)).

(** The integer cube root, one bit at a time. *)
Fixpoint cube_root (bits : nat) (n x : N) : N :=
  match bits with
  | O => x
  | S b =>
      let y := x + N.shiftl 1 (N.of_nat b) in
      cube_root b n (if y * y * y <=? n then y else x)
  end.

Definition K : list N :=
  Eval vm_compute in
    List.map (fun q => w32 (cube_root 40 (N.shiftl q 96) 0)) (firstn 64 primes).

Definition H0 : list N :=
  Eval vm_compute in
    List.map (fun q => w32 (N.sqrt (N.shiftl q 64))) (firstn 8 primes).

(** Big-endian bytes of [x], [n] of them. *)
Fixpoint be_bytes (n : nat) (x : N) : list byte :=
  match n with
  | O => []
  | S n' => N.land (N.shiftr x (8 * N.of_nat n')) 255 :: be_bytes n' x
  end.

Definition pad (msg : list byte) : list byte :=
  let l := List.length msg in
  let z := ((64 - (l + 9) mod 64) mod 64)%nat in
  msg ++ [128] ++ repeat 0 z ++ be_bytes 8 (8 * N.of_nat l).

Fixpoint words (bs : list byte) : list N :=
  match bs with
  | a :: b :: c :: d :: rest =>
      (N.shiftl a 24 + N.shiftl b 16 + N.shiftl c 8 + d) :: words rest
  | _ => []
  end.

(** The message schedule, latest word first. *)
Fixpoint schedule (n : nat) (rw : list N) : list N :=
  match n with
  | O => rw
  | S n' =>
      let w := add32 (add32 (ssig1 (nth 1 rw 0)) (nth 6 rw 0))
                     (add32 (ssig0 (nth 14 rw 0)) (nth 15 rw 0)) in
      schedule n' (w :: rw)
  end.

Definition round (st : list N) (kw : N * N) : list N :=
  match st with
  | [a; b; c; d; e; f; g; h] =>
      let t1 := add32 (add32 (add32 h (bsig1 e)) (add32 (ch e f g) (fst kw)))
                      (snd kw) in
      let t2 := add32 (bsig0 a) (maj a b c) in
      [add32 t1 t2; a; b; c; add32 d t1; e; f; g]
  | _ => st
  end.

Definition compress (h : list N) (block : list byte) : list N :=
  let w := rev (schedule 48 (rev (words block))) in
  let st := fold_left round (combine K w) h in
  List.map (fun p => add32 (fst p) (snd p)) (combine h st).

Fixpoint blocks (fuel : nat) (h : list N) (bs : list byte) : list N :=
  match fuel, bs with
  | S f, _ :: _ => blocks f (compress h (firstn 64 bs)) (skipn 64 bs)
  | _, _ => h
  end.

Definition digest (msg : list byte) : list byte :=
  let p := pad msg in
  flat_map (be_bytes 4) (blocks (List.length p) H0 p).

Definition hex_digit (n : N) : char := if n <? 10 then 48 + n else 87 + n.

(** [hashlib.sha256(msg).hexdigest()] *)
Definition hexdigest (msg : list byte) : str :=
  flat_map (fun b => [hex_digit (N.shiftr b 4); hex_digit (N.land b 15)])
           (digest msg).
End Sha256.

Arguments Sha256.hexdigest : simpl never.

(** ** Paths ([posixpath]) *)

Definition slash : char := 47.

Definition endswith_slash (a : str) : bool :=
  match rev a with c :: _ => c =? slash | [] => false end.

(** [os.path.join(a, b)] *)
Definition os_path_join (a b : str) : str :=
  if startswith [slash] b then b
  else if match a with [] => true | _ => endswith_slash a end then a ++ b
  else a ++ [slash] ++ b.

(** [os.path.basename(p)]: what follows the last slash. *)
Fixpoint os_path_basename (p : str) : str :=
  match p with
  | [] => []
  | c :: p' =>
      if existsb (N.eqb slash) p' then os_path_basename p'
      else if c =? slash then p' else p
  end.

(** A [pathlib.Path] [parent / name], with [name] a single component. *)
Abbreviation Path := (list N * list N)%type (only parsing).

(** ** The host: file system and network

    Failures are modelled where the program handles them: reading a cache
    file, the download, writing a cache file.  Creating the cache
    directory, testing for a file and removing one always succeed. *)

Inductive file : Type :=
| Readable (raw : str)   (* decodes as UTF-8 to [raw] *)
| Unreadable.            (* reading raises: undecodable or not permitted *)

Inductive event : Type :=
| EvMkdir (d : str)
| EvRead (p : Path)
| EvUnlink (p : Path)
| EvGet (url : str)
| EvWrite (p : Path).

Record Host : Type := {
  user_cache_dir : str -> str;            (* [platformdirs.user_cache_dir] *)
  os_linesep : str;                       (* [os.linesep] *)
  net : str -> option str;                (* [requests.get(url)]: the body, or
                                             [None] when the request or its
                                             status check raises *)
  write_refused : Path -> bool;           (* opening for writing raises *)
  unlink_refused : Path -> bool;          (* removing the file raises *)
  isdir : str -> bool;                    (* [os.path.isdir] *)
  isfile : str -> bool                    (* [os.path.isfile] *)
}.

Record World : Type := {
  files : gmap Path file;
  log : list event                        (* latest first *)
}.

Inductive exn : Type :=
| UnicodeEncodeError
| OSError
| RequestException.

Inductive outcome (A : Type) : Type :=
| Ok (a : A)
| Raise (e : exn).
Arguments Ok {A} a.
Arguments Raise {A} e.

(** Computations of the program: they read and change the world and
    return or raise. *)
Definition M (A : Type) : Type := World -> outcome A * World.

Definition ret {A} (a : A) : M A := fun w => (Ok a, w).

Definition raise {A} (e : exn) : M A := fun w => (Raise e, w).

Definition bind {A B} (m : M A) (f : A -> M B) : M B :=
  fun w =>
    match m w with
    | (Ok a, w') => f a w'
    | (Raise e, w') => (Raise e, w')
    end.

(** [try: m  except Exception: h] *)
Definition try_except {A} (m : M A) (h : M A) : M A :=
  fun w =>
    match m w with
    | (Ok a, w') => (Ok a, w')
    | (Raise _, w') => h w'
    end.

Declare Scope prog_scope.
Delimit Scope prog_scope with prog.
Notation "'let*' x ':=' m 'in' k" := (bind m (fun x => k))
  (at level 10, x name, m at level 100, k at level 200) : prog_scope.

Definition emit (e : event) : M unit :=
  fun w => (Ok tt, {| files := files w; log := e :: log w |}).

(** Reading in text mode with [newline=None]: [\r\n] and [\r] become [\n]. *)
Fixpoint universal_newlines (s : str) : str :=
  match s with
  | 13 :: ((10 :: s2) as s1) => 10 :: universal_newlines s2
  | 13 :: s1 => 10 :: universal_newlines s1
  | c :: s1 => c :: universal_newlines s1
  | [] => []
  end.

(** Writing in text mode with [newline=None]: [\n] becomes [os.linesep]. *)
Definition write_newlines (linesep : str) (s : str) : str :=
  flat_map (fun c => if c =? 10 then linesep else [c]) s.

(** [base64.b64encode(s.encode("utf-8")).decode("utf-8")] *)
Definition b64_of_text (s : str) : M str :=
  match utf8_encode s with
  | Some bs => ret (b64encode bs)
  | None => raise UnicodeEncodeError
  end.

Section Program.
Variable host : Host.
Local Open Scope prog_scope.

(** [cache_dir.mkdir(parents=True, exist_ok=True)] *)
Definition mkdir (d : str) : M unit := emit (EvMkdir d).

(** [cache_file.is_file()] *)
Definition is_file (p : Path) : M bool :=
  fun w => (Ok (match files w !! p with Some _ => true | None => false end), w).

(** [with io.open(p, "r", encoding="utf-8") as f: f.read()] *)
Definition read_text (p : Path) : M str :=
  let* _ := emit (EvRead p) in
  fun w =>
    match files w !! p with
    | Some (Readable raw) => (Ok (universal_newlines raw), w)
    | _ => (Raise OSError, w)
    end.

(** [p.unlink(missing_ok=True)]: a file that is not there is no error,
    a removal that is refused raises. *)
Definition unlink (p : Path) : M unit :=
  let* _ := emit (EvUnlink p) in
  fun w =>
    if unlink_refused host p then (Raise OSError, w)
    else (Ok tt, {| files := delete p (files w); log := log w |}).

(** [p.write_text(data, encoding="utf-8")]: the file is truncated when
    it opens; text that cannot be encoded leaves it empty. *)
Definition write_text (p : Path) (data : str) : M unit :=
  let* _ := emit (EvWrite p) in
  fun w =>
    if write_refused host p then (Raise OSError, w)
    else
      match utf8_encode data with
      | Some _ =>
          (Ok tt, {| files := <[p := Readable (write_newlines (os_linesep host) data)]> (files w);
                     log := log w |})
      | None =>
          (Raise UnicodeEncodeError,
           {| files := <[p := Readable []]> (files w); log := log w |})
      end.

(** [r = requests.get(url, timeout=10); r.raise_for_status(); r.text] *)
Definition requests_get (url : str) : M str :=
  fun w =>
    let w' := {| files := files w; log := EvGet url :: log w |} in
    match net host url with
    | Some body => (Ok body, w')
    | None => (Raise RequestException, w')
    end.

(** [hashlib.sha256(remote_url.encode("utf-8")).hexdigest()] *)
Definition url_hash (remote_url : str) : M str :=
  match utf8_encode remote_url with
  | Some bs => ret (Sha256.hexdigest bs)
  | None => raise UnicodeEncodeError
  end.

Definition cache_dir : str := user_cache_dir host (py "mkdxs-mathshim").

(** [cache_dir / f"{h}.svg"] *)
Definition cache_file_of (h : str) : Path := (cache_dir, h ++ py ".svg").

(** Lines 371-414.  The two early returns are the [Some] results of the
    cache look-up and of the download. *)
Definition _fetch_and_cache (remote_url : str) : M str :=
  let* _ := mkdir cache_dir in
  let* h := url_hash remote_url in
  let cache_file := cache_file_of h in
  let* cached := is_file cache_file in
  let* hit :=
    (if cached : bool then
       try_except
         (let* svg_data := read_text cache_file in
          let* b := b64_of_text svg_data in
          ret (Some b))
         (let* _ := unlink cache_file in ret None)
     else ret None) in
  match hit with
  | Some b => ret b
  | None =>
      let* got :=
        try_except
          (let* svg_data := requests_get remote_url in ret (Some svg_data))
          (ret None) in
      match got with
      | None => ret []
      | Some svg_data =>
          let* _ := try_except (write_text cache_file svg_data) (ret tt) in
          b64_of_text svg_data
      end
  end.
End Program.

(** ** Entries *)

(** The fields of [_AvailableSassEntry]. *)
Record Entry : Type := {
  _dirname : str;
  _filename : str;
  _relative_path : option str;
  _mdi_base_url : str;
  _octicons_base_url : str
}.

(** [_NoSassEntry] and [_AvailableSassEntry], the two subclasses of
    [_SassEntry]. *)
Inductive SassEntry : Type :=
| NoSassEntry
| AvailableSassEntry (e : Entry).

(** [_AvailableSassEntry.__init__] *)
Definition new_entry (dirname filename : str) : Entry :=
  {| _dirname := dirname; _filename := filename; _relative_path := None;
     _mdi_base_url := []; _octicons_base_url := [] |}.

Definition is_available (e : SassEntry) : bool :=
  match e with
  | NoSassEntry => false
  | AvailableSassEntry _ => true
  end.

(** [self._relative_path or ""] in the subclass, [""] in the base class. *)
Definition relative_path (e : SassEntry) : str :=
  match e with
  | NoSassEntry => []
  | AvailableSassEntry a =>
      match _relative_path a with
      | Some ((_ :: _) as p) => p
      | _ => []
      end
  end.

Definition _styles_dir : str := py "extra_sass".

Definition _style_filenames : list str :=
  [ py "style.css.sass"; py "style.sass"; py "style.css.scss"; py "style.scss" ].

(** The [for] loop of [search_entry_point]. *)
Fixpoint first_style (host : Host) (d : str) (names : list str) : SassEntry :=
  match names with
  | [] => NoSassEntry
  | f :: names' =>
      if isfile host (os_path_join d f) then AvailableSassEntry (new_entry d f)
      else first_style host d names'
  end.

Definition search_entry_point (host : Host) : SassEntry :=
  let d := _styles_dir in
  if isdir host d then first_style host d _style_filenames else NoSassEntry.

(** ** [svg-load] *)

(** [r'svg-load\s*\(\s*(["\'])([^"\']+)\1\s*\)'] *)
Definition pat_svg : regex :=
  lit "svg-load" ++
  [ Rep true 0 Ws; One (Chr 40); Rep true 0 Ws;
    Open 1; One (Cls false [dquote; squote]); Close 1;
    Open 2; Rep true 1 (Cls true [dquote; squote]); Close 2;
    Ref 1; Rep true 0 Ws; One (Chr 41) ].

(** Python's truth value of a [str]. *)
Definition truthy (s : str) : bool :=
  match s with [] => false | _ :: _ => true end.

Definition inlined (full_text fetched : str) : str :=
  py "/* " ++ full_text ++ py " => inlined */ url('data:image/svg+xml;base64,"
  ++ fetched ++ py "')".

Section Inline.
Variable host : Host.
Variable self : Entry.
Local Open Scope prog_scope.

(** The closure [replacer] of [_inline_svg_loads]. *)
Definition replacer (m : Match) : M str :=
  let full_text := m_text m in
  let svg_path := strip (group m 2) in
  if startswith (py "http://") svg_path || startswith (py "https://") svg_path
  then
    let* fetched := _fetch_and_cache host svg_path in
    if negb (truthy fetched)
    then ret (py "/* " ++ full_text ++ py " => FAILED to fetch */")
    else ret (inlined full_text fetched)
  else if truthy (_mdi_base_url self) && startswith (py "@mdi/svg/svg/") svg_path
  then
    let subfile := os_path_basename svg_path in
    let remote_url := _mdi_base_url self ++ py "/" ++ subfile in
    let* fetched := _fetch_and_cache host remote_url in
    if negb (truthy fetched)
    then ret (py "/* " ++ full_text ++ py " => MDI fetch failed: "
              ++ remote_url ++ py " */")
    else ret (inlined full_text fetched)
  else if truthy (_octicons_base_url self) && contains (py "octicons") svg_path
  then
    let subfile := os_path_basename svg_path in
    let remote_url := _octicons_base_url self ++ py "/" ++ subfile in
    let* fetched := _fetch_and_cache host remote_url in
    if negb (truthy fetched)
    then ret (py "/* " ++ full_text ++ py " => Octicons fetch failed: "
              ++ remote_url ++ py " */")
    else ret (inlined full_text fetched)
  else
    ret (py "/* " ++ full_text
         ++ py " => no known base URL or not an http link */").

(** [pattern.sub(f, text)] with a function: [f] runs once per match,
    from left to right. *)
Fixpoint sub_with (f : Match -> M str) (ps : list piece) : M str :=
  match ps with
  | [] => ret []
  | Lit c :: ps' => let* out := sub_with f ps' in ret (c :: out)
  | Hit m :: ps' =>
      let* r := f m in
      let* out := sub_with f ps' in
      ret (r ++ out)
  end.

Definition _inline_svg_loads (scss_text : str) : M str :=
  sub_with replacer (scan false pat_svg scss_text).
End Inline.

(** The URL that [replacer] hands to [_fetch_and_cache] for a path, if
    any: the three branches of [replacer] read off as a table. *)
Definition fetch_target (self : Entry) (svg_path : str) : option str :=
  if startswith (py "http://") svg_path || startswith (py "https://") svg_path
  then Some svg_path
  else if truthy (_mdi_base_url self) && startswith (py "@mdi/svg/svg/") svg_path
  then Some (_mdi_base_url self ++ py "/" ++ os_path_basename svg_path)
  else if truthy (_octicons_base_url self) && contains (py "octicons") svg_path
  then Some (_octicons_base_url self ++ py "/" ++ os_path_basename svg_path)
  else None.

(** What [_fetch_and_cache] does from its download on (lines 397-414),
    written out case by case, in a world [w] whose cache has no file for
    the URL any more. *)
Definition download_into (host : Host) (url : str) (p : Path) (w : World)
  : outcome str * World :=
  match net host url with
  | None => (Ok [], {| files := files w; log := EvGet url :: log w |})
  | Some body =>
      let l := EvWrite p :: EvGet url :: log w in
      match utf8_encode body with
      | Some bb =>
          (Ok (b64encode bb),
           {| files := if write_refused host p then files w
                       else <[p := Readable (write_newlines (os_linesep host) body)]> (files w);
              log := l |})
      | None =>
          (Raise UnicodeEncodeError,
           {| files := if write_refused host p then files w
                       else <[p := Readable []]> (files w);
              log := l |})
      end
  end.

(** The CSS comment that stands for a directive that was not inlined. *)
Definition comment (full_text why : str) : str :=
  py "/* " ++ full_text ++ py " => " ++ why ++ py " */".

(** The event [e] concerns the URL [url] or its cache file [p]. *)
Definition touches (url : str) (p : Path) (e : event) : Prop :=
  match e with
  | EvMkdir d => d = fst p
  | EvRead q | EvUnlink q | EvWrite q => q = p
  | EvGet u => u = url
  end.

(** The [svg-load] directive with its argument in the quotes [q]. *)
Definition svg_call (q : char) (U : str) : str :=
  py "svg-load(" ++ q :: U ++ q :: py ")".

(** A host for the examples: one SVG on the network, an empty cache. *)
Definition demo_host : Host :=
  {| user_cache_dir := fun app => py "/home/u/.cache/" ++ app;
     os_linesep := [10];
     net := fun url =>
              if str_eqb url (py "https://x.org/a.svg") then Some (py "<svg/>")
              else None;
     write_refused := fun _ => false;
     unlink_refused := fun _ => false;
     isdir := fun d => str_eqb d (py "extra_sass");
     isfile := fun f => str_eqb f (py "extra_sass/style.scss") |}.

Definition empty_world : World := {| files := ∅; log := [] |}.

(** An SVG body with a Windows line end, and a host that serves it. *)
Definition crlf_body : str := py "<svg>" ++ [13; 10] ++ py "</svg>".

Definition crlf_host : Host :=
  {| user_cache_dir := fun app => py "/home/u/.cache/" ++ app;
     os_linesep := [10];
     net := fun url =>
              if str_eqb url (py "https://x.org/a.svg") then Some crlf_body
              else None;
     write_refused := fun _ => false;
     unlink_refused := fun _ => false;
     isdir := fun _ => false;
     isfile := fun _ => false |}.

(** A host on which only the URL with a trailing blank answers. *)
Definition blank_host : Host :=
  {| user_cache_dir := fun app => py "/home/u/.cache/" ++ app;
     os_linesep := [10];
     net := fun url =>
              if str_eqb url (py "http://x.org/a.svg ") then Some (py "<svg/>")
              else None;
     write_refused := fun _ => false;
     unlink_refused := fun _ => false;
     isdir := fun _ => false;
     isfile := fun _ => false |}.

Definition demo_entry : Entry :=
  {| _dirname := py "extra_sass"; _filename := py "style.scss";
     _relative_path := None;
     _mdi_base_url := py "https://m.org/svg";
     _octicons_base_url := py "https://o.org/icons" |}.

(** The class of group 2 of [pat_svg]: any character but a quote. *)
Definition nonquote : atom := Cls true [dquote; squote].

(** ** Tactics *)

(** Literal texts to their code points; the event prefix of a log; the
    steps of [_fetch_and_cache]. *)
Ltac norm_py :=
  repeat match goal with
         | |- context [py (String ?a ?b)] =>
             let v := eval vm_compute in (py (String a b)) in
             change (py (String a b)) with v
         end.

Ltac norm_pat := unfold lit; norm_py; cbn [List.map app].

Ltac bool_cases :=
  repeat match goal with
         | |- context [N.eqb ?a ?b] => destruct (N.eqb_spec a b)
         | |- context [N.leb ?a ?b] => destruct (N.leb_spec a b)
         | |- context [N.ltb ?a ?b] => destruct (N.ltb_spec a b)
         | H : context [N.eqb ?a ?b] |- _ => destruct (N.eqb_spec a b)
         | H : context [N.leb ?a ?b] |- _ => destruct (N.leb_spec a b)
         end; cbn [andb orb negb] in *.

Ltac run_fetch :=
  repeat (progress (unfold _fetch_and_cache, bind, mkdir, emit, url_hash,
                    is_file, try_except, read_text, unlink, requests_get,
                    write_text, b64_of_text, ret, raise, cache_file_of,
                    cache_dir));
  cbn beta iota zeta delta [files log].

Ltac peel l t :=
  lazymatch l with
  | t => constr:(@nil event)
  | ?e :: ?l' => let r := peel l' t in constr:(e :: r)
  end.

Ltac split_log :=
  lazymatch goal with
  | |- exists evs, ?l = evs ++ ?t /\ _ =>
      let r := peel l t in
      exists r; split; [reflexivity | split; [repeat constructor|]]
  end.

(** ** Further definitions *)

(** The characters of base64 text: letters, digits, [+], [/] and [=]. *)
Definition is_b64 (c : char) : bool :=
  ((65 <=? c) && (c <=? 90)) || ((97 <=? c) && (c <=? 122))
  || ((48 <=? c) && (c <=? 57)) || (c =? 43) || (c =? 47) || (c =? 61).

(** [needle in hay] up to case, as IGNORECASE compares. *)
Fixpoint contains_ci (needle hay : str) : bool :=
  match strip_prefix true needle hay with Some _ => true | None => false end
  || match hay with
     | [] => false
     | _ :: hay' => contains_ci needle hay'
     end.

Definition none_of (P : char -> bool) (x : str) : bool :=
  forallb (fun c => negb (P c)) x.

(** The number of marked characters. *)
Definition count_of (P : char -> bool) (x : str) : nat :=
  List.length (List.filter P x).

(** ** The plugin and its configuration (lines 33-73, 107-115) *)

Definition default_mdi : str :=
  py "https://raw.githubusercontent.com/lmmx/MaterialDesign-SVG/master/svg/".

Definition default_oct : str :=
  py "https://raw.githubusercontent.com/primer/octicons/main/icons/".

(** [s.lstrip(chars)] and [s.rstrip(chars)] *)
Fixpoint lstrip_chars (chars s : str) : str :=
  match s with
  | c :: s' => if has c chars then lstrip_chars chars s' else s
  | [] => []
  end.

Definition rstrip_chars (chars s : str) : str := rev (lstrip_chars chars (rev s)).

(** The private fields of [ExtraSassPlugin]; [None] is Python's [None]. *)
Record ExtraSassPlugin : Type := {
  __entry_point : option SassEntry;
  __mdi_base_url : option str;
  __octicons_base_url : option str
}.

(** [ExtraSassPlugin.__init__] *)
Definition new_plugin : ExtraSassPlugin :=
  {| __entry_point := None; __mdi_base_url := None; __octicons_base_url := None |}.

(** [self.config], with text keys and text values. *)
Abbreviation Config := (gmap (list N) (list N)) (only parsing).

(** [config.get(key, default)] *)
Definition config_get (config : Config) (key default : str) : str :=
  match config !! key with
  | Some v => v
  | None => default
  end.

(** [a or b] for a text [a] and a [b] that is a text or [None]. *)
Definition str_or (a : str) (b : option str) : option str :=
  if truthy a then Some a else b.

Definition on_config (self : ExtraSassPlugin) (config : Config) : ExtraSassPlugin :=
  {| __entry_point := None;
     __mdi_base_url :=
       str_or (rstrip_chars (py "/") (config_get config (py "mdi_base_url") default_mdi))
              (__mdi_base_url self);
     __octicons_base_url :=
       str_or (rstrip_chars (py "/")
                 (config_get config (py "octicons_base_url") default_oct))
              (__octicons_base_url self) |}.

(** [url or ""] of the setters. *)
Definition or_empty (url : option str) : str :=
  match url with
  | Some ((_ :: _) as u) => u
  | _ => []
  end.

(** The setters: [pass] in the base class. *)
Definition set_mdi_base_url (e : SassEntry) (url : option str) : SassEntry :=
  match e with
  | NoSassEntry => NoSassEntry
  | AvailableSassEntry a =>
      AvailableSassEntry
        {| _dirname := _dirname a; _filename := _filename a;
           _relative_path := _relative_path a;
           _mdi_base_url := or_empty url;
           _octicons_base_url := _octicons_base_url a |}
  end.

Definition set_octicons_base_url (e : SassEntry) (url : option str) : SassEntry :=
  match e with
  | NoSassEntry => NoSassEntry
  | AvailableSassEntry a =>
      AvailableSassEntry
        {| _dirname := _dirname a; _filename := _filename a;
           _relative_path := _relative_path a;
           _mdi_base_url := _mdi_base_url a;
           _octicons_base_url := or_empty url |}
  end.

(** [_build_entry] up to its call of [save_to] (lines 111-115): the
    entry that is then compiled. *)
Definition _build_entry_setup (self : ExtraSassPlugin) (host : Host) : SassEntry :=
  let entry_point := search_entry_point host in
  if is_available entry_point
  then set_octicons_base_url
         (set_mdi_base_url entry_point (__mdi_base_url self))
         (__octicons_base_url self)
  else entry_point.

(** A base URL as the plugin keeps it: [None], or a text that is not
    empty and does not end with a slash. *)
Definition kept_url (o : option str) : Prop :=
  match o with
  | Some u => u <> [] /\ endswith_slash u = false
  | None => True
  end.

(** A host whose cache directory is read-only: no file in it can be
    written or removed. *)
Definition readonly_host : Host :=
  {| user_cache_dir := fun app => py "/home/u/.cache/" ++ app;
     os_linesep := [10];
     net := fun url =>
              if str_eqb url (py "https://x.org/a.svg") then Some (py "<svg/>")
              else None;
     write_refused := fun _ => true;
     unlink_refused := fun _ => true;
     isdir := fun _ => false;
     isfile := fun _ => false |}.

(** A host on which the server answers with an empty body. *)
Definition empty_body_host : Host :=
  {| user_cache_dir := fun app => py "/home/u/.cache/" ++ app;
     os_linesep := [10];
     net := fun url =>
              if str_eqb url (py "https://x.org/a.svg") then Some [] else None;
     write_refused := fun _ => false;
     unlink_refused := fun _ => false;
     isdir := fun _ => false;
     isfile := fun _ => false |}.

(** A configuration that names a mirror for the Material Design icons. *)
Definition demo_config : gmap (list N) (list N) :=
  {[ py "mdi_base_url" := py "https://m.org/svg//" ]}.

(** CSS syntax: a comment begins with [/*] and ends with the first
    [*/] after it.  [comment_closes s]: the first [*/] of [s] is its
    end. *)
Fixpoint comment_closes (s : str) : bool :=
  match s with
  | [] => false
  | _ :: s' =>
      if startswith (py "*/") s then str_eqb s (py "*/") else comment_closes s'
  end.

(** [s] is one CSS comment and nothing else. *)
Definition css_comment (s : str) : bool :=
  startswith (py "/*") s && comment_closes (skipn 2 s).

(** * Properties *)

Local Open Scope prog_scope.

(** ** Checks of the model on known values *)

Example div_nested_rgb :
  shim_div (py "math.div(rgb(1,2,3), 2)") = py "(rgb(1 / 2,3), 2)".
Proof. reflexivity. Qed.

Example div_plain :
  save_to_shim (py "a { w: math.div( $x , 2px ); h: math.round(math.unit(1px )) }")
  = py "a { w: ($x / 2px); h: round(unit(1px)) }".
Proof. reflexivity. Qed.

Example channel_plain :
  save_to_shim (py "color.channel( $c, 'HUE') color.channel($d ,'Lightness', $space: hsl)")
  = py "hue($c) lightness($d )".
Proof. reflexivity. Qed.

Example sha256_abc :
  option_map Sha256.hexdigest (utf8_encode (py "abc"))
  = Some (py "ba7816bf8f01cfea414140de5dae2223b00361a396177a9cb410ff61f20015ad").
Proof. vm_compute. reflexivity. Qed.

Example sha256_empty :
  Sha256.hexdigest []
  = py "e3b0c44298fc1c149afbf4c8996fb92427ae41e4649b934ca495991b7852b855".
Proof. vm_compute. reflexivity. Qed.

Example b64_svg :
  option_map b64encode (utf8_encode (py "<svg/>")) = Some (py "PHN2Zy8+").
Proof. reflexivity. Qed.

Example b64_pad :
  b64encode [77; 97] = py "TWE=" /\ b64encode [77] = py "TQ==".
Proof. split; reflexivity. Qed.

Example inline_demo :
  fst (_inline_svg_loads demo_host demo_entry
         (py "a{b:svg-load('https://x.org/a.svg')}c{d:svg-load( 'x.svg' )}")
         empty_world)
  = Ok (py "a{b:/* svg-load('https://x.org/a.svg') => inlined */ url('data:image/svg+xml;base64,PHN2Zy8+')}c{d:/* svg-load( 'x.svg' ) => no known base URL or not an http link */}").
Proof. vm_compute. reflexivity. Qed.

Example search_demo :
  search_entry_point demo_host
  = AvailableSassEntry (new_entry (py "extra_sass") (py "style.scss")).
Proof. reflexivity. Qed.

(** ** Greedy and lazy repeats *)

Section RepeatFacts.
Context {R : Type}.
Variable ok : char -> bool.
Variable k : str -> option R.

Lemma rep_greedy_stop lo s :
  stops ok s = true ->
  rep_greedy ok k lo s = match lo with O => k s | S _ => None end.
Proof.
  destruct s as [|c s]; simpl; [reflexivity|].
  intros H. apply negb_true_iff in H. rewrite H. reflexivity.
Qed.

(** The longest run is tried first; when the rest matches there, that
    is the result. *)
Lemma rep_greedy_run x : forall lo s r,
  forallb ok x = true -> stops ok s = true -> (lo <= List.length x)%nat ->
  k s = Some r ->
  rep_greedy ok k lo (x ++ s) = Some r.
Proof.
  induction x as [|c x IH]; intros lo s r Hx Hs Hlo Hk.
  - simpl in *. rewrite rep_greedy_stop by assumption.
    destruct lo; [assumption | lia].
  - simpl in Hx. apply andb_true_iff in Hx as [Hc Hx].
    simpl. rewrite Hc.
    rewrite (IH (Nat.pred lo) s r); auto. simpl in Hlo. lia.
Qed.

(** Backtracking: the run is [x ++ y], the rest fails after every
    longer prefix and matches after [x]. *)
Lemma rep_greedy_back x : forall lo y s r,
  forallb ok x = true -> forallb ok y = true -> stops ok s = true ->
  (lo <= List.length x)%nat ->
  (forall y1 y2, y = y1 ++ y2 -> y1 <> [] -> k (y2 ++ s) = None) ->
  k (y ++ s) = Some r ->
  rep_greedy ok k lo (x ++ y ++ s) = Some r.
Proof.
  induction x as [|c x IH]; intros lo y s r Hx Hy Hs Hlo Hfail Hk.
  - simpl in *. assert (lo = O) by lia. subst lo. clear Hlo Hx.
    revert Hfail Hk. revert r.
    induction y as [|d y IHy]; intros r Hfail Hk.
    + simpl in *. rewrite rep_greedy_stop by assumption. assumption.
    + simpl in Hy. apply andb_true_iff in Hy as [Hd Hy].
      simpl. rewrite Hd.
      assert (Hn : rep_greedy ok k O (y ++ s) = None).
      { clear IHy Hk.
        assert (Hf : forall y1 y2, y = y1 ++ y2 -> k (y2 ++ s) = None).
        { intros y1 y2 E. apply (Hfail (d :: y1) y2); [simpl; congruence | discriminate]. }
        clear Hfail. revert Hf. induction y as [|e y IHy]; intros Hf.
        - simpl. rewrite rep_greedy_stop by assumption. apply (Hf [] []). reflexivity.
        - simpl in Hy. apply andb_true_iff in Hy as [He Hy].
          simpl. rewrite He. rewrite IHy; auto.
          + apply (Hf [] (e :: y)). reflexivity.
          + intros y1 y2 E. apply (Hf (e :: y1) y2). simpl; congruence. }
      simpl. rewrite Hn. assumption.
  - simpl in Hx. apply andb_true_iff in Hx as [Hc Hx].
    simpl. rewrite Hc.
    rewrite (IH (Nat.pred lo) y s r); auto. simpl in Hlo. lia.
Qed.

(** When the rest of the pattern cannot start with a character of the
    repeat, the repeat takes the whole run and never gives back. *)
Lemma rep_greedy_det x : forall lo s,
  (forall c t, ok c = true -> k (c :: t) = None) ->
  forallb ok x = true -> stops ok s = true ->
  rep_greedy ok k lo (x ++ s)
  = if (lo <=? List.length x)%nat then k s else None.
Proof.
  induction x as [|c x IH]; intros lo s Hrej Hx Hs.
  - simpl. rewrite rep_greedy_stop by assumption. destruct lo; reflexivity.
  - simpl in Hx. apply andb_true_iff in Hx as [Hc Hx].
    simpl. rewrite Hc. rewrite IH by assumption.
    destruct lo as [|lo]; simpl.
    + destruct (k s); [reflexivity|]. apply Hrej. assumption.
    + destruct (lo <=? List.length x)%nat; [|reflexivity].
      destruct (k s); reflexivity.
Qed.

(** The shortest run after which the rest matches is the result. *)
Lemma rep_lazy_run x : forall lo s r,
  forallb ok x = true -> (lo <= List.length x)%nat ->
  (forall x1 x2, x = x1 ++ x2 -> x2 <> [] -> (lo <= List.length x1)%nat ->
                 k (x2 ++ s) = None) ->
  k s = Some r ->
  rep_lazy ok k lo (x ++ s) = Some r.
Proof.
  induction x as [|c x IH]; intros lo s r Hx Hlo Hfail Hk.
  - simpl in Hlo. assert (lo = O) by lia. subst lo.
    simpl. destruct s; simpl; rewrite Hk; reflexivity.
  - simpl in Hx. apply andb_true_iff in Hx as [Hc Hx].
    destruct lo as [|lo].
    + assert (H0 : k (c :: x ++ s) = None).
      { apply (Hfail [] (c :: x)); [reflexivity|discriminate|simpl; lia]. }
      simpl. rewrite H0, Hc. apply IH; auto; [lia|].
      intros x1 x2 E Hne _. apply (Hfail (c :: x1) x2); [simpl; congruence|assumption|simpl; lia].
    + simpl. rewrite Hc. apply IH; auto; [simpl in Hlo; lia|].
      intros x1 x2 E Hne Hl. apply (Hfail (c :: x1) x2); [simpl; congruence|assumption|simpl; lia].
Qed.
End RepeatFacts.

(** ** The matcher, node by node *)

Lemma m_one ic a r o c x s :
  m_nodes ic (One a :: r) o c (x :: s)
  = if atom_ok ic a x then m_nodes ic r o c s else None.
Proof. reflexivity. Qed.

Lemma m_chr r o c x s :
  m_nodes false (One (Chr x) :: r) o c (x :: s) = m_nodes false r o c s.
Proof. simpl. unfold chr_eq. rewrite N.eqb_refl. reflexivity. Qed.

Lemma m_open ic g r o c s :
  m_nodes ic (Open g :: r) o c s = m_nodes ic r ((g, s) :: o) c s.
Proof. reflexivity. Qed.

Lemma firstn_app_len {A} (x t : list A) :
  firstn (List.length (x ++ t) - List.length t) (x ++ t) = x.
Proof.
  rewrite length_app, Nat.add_sub.
  rewrite firstn_app, Nat.sub_diag, firstn_all. simpl. apply app_nil_r.
Qed.

(** A group that began at [x ++ s] and ends at [s] holds [x]. *)
Lemma m_close ic g r o c x s :
  cap_get g o = Some (x ++ s) ->
  m_nodes ic (Close g :: r) o c s = m_nodes ic r o ((g, x) :: c) s.
Proof. intros H. simpl. rewrite H, firstn_app_len. reflexivity. Qed.

Lemma m_greedy_run ic a lo r o c x s res :
  forallb (atom_ok ic a) x = true -> stops (atom_ok ic a) s = true ->
  (lo <= List.length x)%nat ->
  m_nodes ic r o c s = Some res ->
  m_nodes ic (Rep true lo a :: r) o c (x ++ s) = Some res.
Proof. intros. simpl. apply rep_greedy_run; assumption. Qed.

Lemma m_greedy_back ic a lo r o c x y s res :
  forallb (atom_ok ic a) x = true -> forallb (atom_ok ic a) y = true ->
  stops (atom_ok ic a) s = true -> (lo <= List.length x)%nat ->
  (forall y1 y2, y = y1 ++ y2 -> y1 <> [] -> m_nodes ic r o c (y2 ++ s) = None) ->
  m_nodes ic r o c (y ++ s) = Some res ->
  m_nodes ic (Rep true lo a :: r) o c (x ++ y ++ s) = Some res.
Proof. intros. simpl. apply rep_greedy_back; assumption. Qed.

Lemma m_greedy_det ic a lo r o c x s :
  (forall d t, atom_ok ic a d = true -> m_nodes ic r o c (d :: t) = None) ->
  forallb (atom_ok ic a) x = true -> stops (atom_ok ic a) s = true ->
  m_nodes ic (Rep true lo a :: r) o c (x ++ s)
  = if (lo <=? List.length x)%nat then m_nodes ic r o c s else None.
Proof. intros. simpl. apply rep_greedy_det; assumption. Qed.

Lemma m_lazy_run ic a lo r o c x s res :
  forallb (atom_ok ic a) x = true -> (lo <= List.length x)%nat ->
  (forall x1 x2, x = x1 ++ x2 -> x2 <> [] -> (lo <= List.length x1)%nat ->
                 m_nodes ic r o c (x2 ++ s) = None) ->
  m_nodes ic r o c s = Some res ->
  m_nodes ic (Rep false lo a :: r) o c (x ++ s) = Some res.
Proof. intros. simpl. apply rep_lazy_run; assumption. Qed.

(** ** White space *)

Lemma lstrip_split s :
  exists w, forallb is_space w = true /\ s = w ++ lstrip s
            /\ stops is_space (lstrip s) = true.
Proof.
  induction s as [|c s IH]; simpl.
  - exists []. auto.
  - destruct (is_space c) eqn:E.
    + destruct IH as (w & Hw & Hs & Hst). exists (c :: w). simpl.
      rewrite E, Hw. repeat split; auto. congruence.
    + exists []. simpl. rewrite E. auto.
Qed.

Lemma lstrip_blank_app w t :
  forallb is_space w = true -> stops is_space t = true -> lstrip (w ++ t) = t.
Proof.
  induction w as [|c w IH]; simpl; intros Hw Ht.
  - destruct t as [|d t]; simpl in *; [reflexivity|].
    apply negb_true_iff in Ht. rewrite Ht. reflexivity.
  - apply andb_true_iff in Hw as [Hc Hw]. rewrite Hc. auto.
Qed.

Lemma lstrip_app x t : nonblank x = true -> lstrip (x ++ t) = lstrip x ++ t.
Proof.
  induction x as [|c x IH]; simpl; [discriminate|].
  destruct (is_space c); simpl; auto.
Qed.

Lemma lstrip_nonblank x :
  nonblank x = true ->
  exists d v, lstrip x = d :: v /\ is_space d = false.
Proof.
  induction x as [|c x IH]; simpl; [discriminate|].
  destruct (is_space c) eqn:E; simpl; auto.
  intros _. exists c, x. auto.
Qed.

Lemma has_lstrip c x : has c x = false -> has c (lstrip x) = false.
Proof.
  unfold has. induction x as [|d x IH]; simpl; auto.
  intros H. apply orb_false_iff in H as [H1 H2].
  destruct (is_space d); auto. simpl. rewrite H1, H2. reflexivity.
Qed.

Lemma has_cons c d x : has c (d :: x) = (c =? d) || has c x.
Proof. reflexivity. Qed.

Lemma has_app c x y : has c (x ++ y) = has c x || has c y.
Proof. unfold has. apply existsb_app. Qed.

Lemma nonblank_app x y : nonblank (x ++ y) = nonblank x || nonblank y.
Proof. unfold nonblank. apply existsb_app. Qed.

Lemma nonblank_rev x : nonblank (rev x) = nonblank x.
Proof.
  induction x as [|c x IH]; simpl; auto.
  rewrite nonblank_app, IH. simpl. rewrite orb_false_r. apply orb_comm.
Qed.

Lemma blank_nonblank w : forallb is_space w = true -> nonblank w = false.
Proof.
  induction w as [|c w IH]; simpl; auto.
  intros H. apply andb_true_iff in H as [H1 H2]. rewrite H1. simpl. auto.
Qed.

Lemma forallb_rev {A} (f : A -> bool) l : forallb f (rev l) = forallb f l.
Proof.
  induction l as [|a l IH]; simpl; auto.
  rewrite forallb_app, IH. simpl. rewrite andb_true_r. apply andb_comm.
Qed.

Lemma last_app_ne {A} (x y : list A) d : y <> [] -> List.last (x ++ y) d = List.last y d.
Proof.
  intros Hy. induction x as [|a x IH]; simpl; auto.
  destruct (x ++ y) eqn:E; auto.
  destruct x; simpl in E; [contradiction | discriminate].
Qed.

Lemma last_rev_hd {A} (x : list A) d : List.last (rev x) d = List.hd d x.
Proof.
  destruct x as [|a x]; simpl; auto.
  rewrite last_app_ne by discriminate. reflexivity.
Qed.

Lemma lstrip_idem a : lstrip (lstrip a) = lstrip a.
Proof.
  induction a as [|c a IH]; simpl; auto.
  destruct (is_space c) eqn:E; auto. simpl. rewrite E. reflexivity.
Qed.

(** [strip] removes a blank prefix and a blank suffix and leaves a
    trimmed text. *)
Lemma strip_split a :
  nonblank a = true ->
  exists w1 w2, forallb is_space w1 = true /\ forallb is_space w2 = true
                /\ a = w1 ++ strip a ++ w2 /\ trimmed (strip a) = true.
Proof.
  intros Ha. unfold strip, rstrip.
  destruct (lstrip_split a) as (w1 & Hw1 & Ea & _).
  assert (HL : nonblank (lstrip a) = true).
  { rewrite Ea, nonblank_app, (blank_nonblank w1 Hw1) in Ha. exact Ha. }
  pose proof (lstrip_idem a) as Hidem.
  remember (lstrip a) as L eqn:EqL. clear EqL.
  destruct (lstrip_split (rev L)) as (w2 & Hw2 & EL & _).
  assert (HL' : nonblank (rev L) = true) by (rewrite nonblank_rev; exact HL).
  destruct (lstrip_nonblank L HL) as (d & v & Ed & Hd).
  destruct (lstrip_nonblank (rev L) HL') as (e & u & Ee & He).
  assert (EL2 : L = rev (lstrip (rev L)) ++ rev w2).
  { rewrite <- rev_app_distr, <- EL, rev_involutive. reflexivity. }
  exists w1, (rev w2). repeat split.
  - exact Hw1.
  - rewrite forallb_rev. exact Hw2.
  - rewrite <- EL2. exact Ea.
  - unfold trimmed. rewrite last_rev_hd, Ee. simpl List.hd at 2. rewrite He.
    rewrite Ee in EL2. rewrite Hidem in Ed.
    destruct (rev (e :: u)) as [|h t] eqn:Er.
    + apply (f_equal (@rev char)) in Er. rewrite rev_involutive in Er. discriminate.
    + rewrite Ed in EL2. simpl in EL2. injection EL2 as -> _.
      simpl. rewrite Hd. reflexivity.
Qed.

Lemma trimmed_hd A : trimmed A = true -> stops is_space A = true /\ A <> [].
Proof.
  unfold trimmed. destruct A as [|c A]; simpl; [discriminate|].
  intros H. apply andb_true_iff in H as [H _]. split; [exact H | discriminate].
Qed.

(** A non-empty suffix of a trimmed text has a character that is not
    white space: its last one. *)
Lemma trimmed_suffix x1 x2 :
  trimmed (x1 ++ x2) = true -> x2 <> [] -> nonblank x2 = true.
Proof.
  unfold trimmed. intros H Hx. apply andb_true_iff in H as [_ H].
  rewrite last_app_ne in H by assumption.
  clear x1. induction x2 as [|c x IH]; [contradiction|].
  destruct x as [|d x].
  - simpl in *. rewrite H. reflexivity.
  - change (nonblank (c :: d :: x)) with (negb (is_space c) || nonblank (d :: x)).
    rewrite IH; [apply orb_true_r | exact H | discriminate].
Qed.

Lemma space_not c d : is_space d = true -> is_space c = false -> (c =? d) = false.
Proof.
  intros Hd Hc. destruct (N.eqb_spec c d); [subst; congruence | reflexivity].
Qed.

(** [\s*] before an item that no white space can begin skips the white
    space. *)
Lemma m_ws_det ic r o c s :
  (forall d t, is_space d = true -> m_nodes ic r o c (d :: t) = None) ->
  m_nodes ic (Rep true 0 Ws :: r) o c s = m_nodes ic r o c (lstrip s).
Proof.
  intros Hrej. destruct (lstrip_split s) as (w & Hw & Es & Hst).
  rewrite Es at 1. rewrite m_greedy_det; auto.
Qed.

(** ** The patterns of the program at the head of a text *)



Lemma has_forall_not c x :
  has c x = false -> forallb (atom_ok false (Cls true [c])) x = true.
Proof.
  unfold has. induction x as [|d x IH]; simpl; auto.
  intros H. apply orb_false_iff in H as [H1 H2].
  unfold chr_eq. rewrite H1. simpl. auto.
Qed.

Lemma stops_ws A t : trimmed A = true -> stops (atom_ok false Ws) (A ++ t) = true.
Proof.
  intros H. apply trimmed_hd in H as [H Hne].
  destruct A; [contradiction | exact H].
Qed.

Lemma trimmed_len A : trimmed A = true -> (1 <= List.length A)%nat.
Proof. intros H. apply trimmed_hd in H as [_ H]. destruct A; [contradiction | simpl; lia]. Qed.

(** After a trimmed argument has begun, [\s*] and the closing character
    [e] cannot follow before the argument ends. *)
Lemma arg_too_short e r o c x1 x2 t :
  is_space e = false ->
  trimmed (x1 ++ x2) = true -> has e (x1 ++ x2) = false -> x2 <> [] ->
  m_nodes false (Rep true 0 Ws :: One (Chr e) :: r) o c (x2 ++ t) = None.
Proof.
  intros He Ht Hh Hx.
  rewrite m_ws_det.
  - pose proof (trimmed_suffix _ _ Ht Hx) as Hnb.
    rewrite lstrip_app by assumption.
    destruct (lstrip_nonblank x2 Hnb) as (d & v & Ed & Hd).
    rewrite has_app in Hh. apply orb_false_iff in Hh as [_ Hh].
    apply has_lstrip in Hh. rewrite Ed in *. simpl.
    unfold has in Hh. simpl in Hh. apply orb_false_iff in Hh as [Hh _].
    unfold chr_eq. rewrite Hh. reflexivity.
  - intros d t' Hd. rewrite m_one. simpl. unfold chr_eq.
    rewrite (space_not e d); auto.
Qed.

Lemma ws_then_chr e r o c w t :
  is_space e = false -> forallb is_space w = true ->
  m_nodes false (Rep true 0 Ws :: One (Chr e) :: r) o c (w ++ e :: t)
  = m_nodes false r o c t.
Proof.
  intros He Hw. rewrite m_ws_det.
  - rewrite lstrip_blank_app; auto.
    + apply m_chr.
    + simpl. rewrite He. reflexivity.
  - intros d t' Hd. rewrite m_one. simpl. unfold chr_eq.
    rewrite (space_not e d); auto.
Qed.

(** One argument of a call: optional white space, the trimmed argument
    taken lazily into group [g], optional white space, the closing
    character. *)
Lemma m_arg g e r o c w1 A w2 t res :
  is_space e = false ->
  forallb is_space w1 = true -> forallb is_space w2 = true ->
  trimmed A = true -> has e A = false ->
  m_nodes false r ((g, A ++ w2 ++ e :: t) :: o) ((g, A) :: c) t = Some res ->
  m_nodes false
    (Rep true 0 Ws :: Open g :: Rep false 1 (Cls true [e]) :: Close g
     :: Rep true 0 Ws :: One (Chr e) :: r) o c
    (w1 ++ A ++ w2 ++ e :: t) = Some res.
Proof.
  intros He Hw1 Hw2 HA Hh Hk.
  apply m_greedy_run; [exact Hw1 | apply stops_ws; exact HA | simpl; lia |].
  rewrite m_open.
  apply m_lazy_run.
  - apply has_forall_not. exact Hh.
  - apply trimmed_len. exact HA.
  - intros x1 x2 E Hne _. subst A.
    rewrite (m_close false g _ _ c x1 (x2 ++ w2 ++ e :: t)).
    + eapply arg_too_short; eauto.
    + simpl. rewrite Nat.eqb_refl, <- List.app_assoc. reflexivity.
  - rewrite (m_close false g _ _ c A).
    + rewrite ws_then_chr; auto.
    + simpl. rewrite Nat.eqb_refl. reflexivity.
Qed.

Lemma div_head w1 A w2 w3 B w4 post :
  forallb is_space w1 = true -> forallb is_space w2 = true ->
  forallb is_space w3 = true -> forallb is_space w4 = true ->
  trimmed A = true -> has 44 A = false ->
  trimmed B = true -> has 41 B = false ->
  re_match false pat_div
    (py "math.div(" ++ w1 ++ A ++ w2 ++ 44 :: w3 ++ B ++ w4 ++ 41 :: post)
  = Some ([(2%nat, B); (1%nat, A)], post).
Proof.
  intros. unfold re_match, pat_div. norm_pat. rewrite !m_chr.
  apply m_arg; auto.
  apply m_arg; auto.
Qed.

Lemma unit_head w1 A w2 post :
  forallb is_space w1 = true -> forallb is_space w2 = true ->
  trimmed A = true -> has 41 A = false ->
  re_match false pat_unit (py "math.unit(" ++ w1 ++ A ++ w2 ++ 41 :: post)
  = Some ([(1%nat, A)], post).
Proof.
  intros. unfold re_match, pat_unit. norm_pat. rewrite !m_chr.
  apply m_arg; auto.
Qed.

(** ** [re.sub], piece by piece *)

Lemma scan_skip ic r x : forall s,
  scan_from ic r (List.length x) (x ++ s) = scan_from ic r 0 s.
Proof. induction x as [|c x IH]; intros s; simpl; auto. Qed.

(** A match at the head of the text is the first piece; the scan goes on
    after it. *)
Lemma scan_head ic r occ post g :
  occ <> [] ->
  re_match ic r (occ ++ post) = Some (g, post) ->
  scan ic r (occ ++ post)
  = Hit {| m_text := occ; m_groups := g |} :: scan ic r post.
Proof.
  intros Hne Hm. unfold scan.
  destruct occ as [|c occ]; [contradiction|].
  change ((c :: occ) ++ post) with (c :: occ ++ post) in *.
  cbn [scan_from]. rewrite Hm.
  replace (List.length (c :: occ ++ post) - List.length post)%nat
    with (S (List.length occ)).
  2:{ cbn [List.length]. rewrite length_app. clear. lia. }
  rewrite scan_skip. f_equal. f_equal.
  cbn [firstn]. f_equal.
  rewrite firstn_app, Nat.sub_diag, firstn_all. simpl.
  rewrite app_nil_r. reflexivity.
Qed.

Lemma re_sub_at ic r t front pre occ post g :
  occ <> [] ->
  scan ic r (pre ++ occ ++ post) = front ++ scan ic r (occ ++ post) ->
  re_match ic r (occ ++ post) = Some (g, post) ->
  re_sub ic r t (pre ++ occ ++ post)
  = flat_map (render t) front
    ++ expand t {| m_text := occ; m_groups := g |} ++ re_sub ic r t post.
Proof.
  intros Hne Hs Hm. unfold re_sub. rewrite Hs, flat_map_app.
  rewrite (scan_head ic r occ post g Hne Hm). reflexivity.
Qed.

(** ** What is left after a match is a suffix of the text *)

Section RepeatSuffix.
Context {R : Type}.
Variable ok : char -> bool.
Variable k : str -> option R.

Lemma rep_greedy_inv lo s res :
  rep_greedy ok k lo s = Some res ->
  exists x s', s = x ++ s' /\ k s' = Some res.
Proof.
  revert lo. induction s as [|c s IH]; intros lo; simpl.
  - destruct lo; [|discriminate]. intros H. exists [], []. auto.
  - destruct (ok c).
    + destruct (rep_greedy ok k (Nat.pred lo) s) eqn:E.
      * intros H. injection H as ->.
        destruct (IH _ E) as (x & s' & -> & Hk). exists (c :: x), s'. auto.
      * destruct lo; [|discriminate]. intros H. exists [], (c :: s). auto.
    + destruct lo; [|discriminate]. intros H. exists [], (c :: s). auto.
Qed.

Lemma rep_lazy_inv lo s res :
  rep_lazy ok k lo s = Some res ->
  exists x s', s = x ++ s' /\ k s' = Some res.
Proof.
  revert lo. induction s as [|c s IH]; intros lo; destruct lo; simpl;
    try discriminate.
  - destruct (k []) eqn:E; [|discriminate].
    intros H. injection H as ->. exists [], []. auto.
  - destruct (k (c :: s)) eqn:E.
    + intros H. injection H as ->. exists [], (c :: s). auto.
    + destruct (ok c); [|discriminate]. intros H.
      destruct (IH _ H) as (x & s' & -> & Hk). exists (c :: x), s'. auto.
  - destruct (ok c); [|discriminate]. intros H.
    destruct (IH _ H) as (x & s' & -> & Hk). exists (c :: x), s'. auto.
Qed.
End RepeatSuffix.

Lemma strip_prefix_inv ic p : forall s s',
  strip_prefix ic p s = Some s' -> exists x, s = x ++ s'.
Proof.
  induction p as [|a p IH]; intros s s'; simpl.
  - intros H. injection H as ->. exists []. reflexivity.
  - destruct s as [|b s]; [discriminate|].
    destruct (chr_eq ic a b); [|discriminate].
    intros H. destruct (IH _ _ H) as (x & ->). exists (b :: x). reflexivity.
Qed.

Lemma m_nodes_suffix ic r : forall o c s g rest,
  m_nodes ic r o c s = Some (g, rest) -> exists x, s = x ++ rest.
Proof.
  induction r as [|n r IH]; intros o c s g rest.
  - simpl. intros H. injection H as _ ->. exists []. reflexivity.
  - destruct n as [a | [|] lo a | h | h | h]; simpl.
    + destruct s as [|d s]; [discriminate|].
      destruct (atom_ok ic a d); [|discriminate].
      intros H. destruct (IH _ _ _ _ _ H) as (x & ->). exists (d :: x). reflexivity.
    + intros H. apply rep_greedy_inv in H as (x & s' & -> & H).
      destruct (IH _ _ _ _ _ H) as (y & ->). exists (x ++ y). apply List.app_assoc.
    + intros H. apply rep_lazy_inv in H as (x & s' & -> & H).
      destruct (IH _ _ _ _ _ H) as (y & ->). exists (x ++ y). apply List.app_assoc.
    + apply IH.
    + destruct (cap_get h o); [|discriminate]. apply IH.
    + destruct (cap_get h c) as [t|]; [|discriminate].
      destruct (strip_prefix ic t s) eqn:E; [|discriminate].
      intros H. apply strip_prefix_inv in E as (x & ->).
      destruct (IH _ _ _ _ _ H) as (y & ->). exists (x ++ y). apply List.app_assoc.
Qed.

(** A pattern that begins with a one-character item consumes text. *)
Lemma re_match_consumes ic a r s g rest :
  re_match ic (One a :: r) s = Some (g, rest) ->
  exists d x, s = d :: x ++ rest.
Proof.
  unfold re_match. simpl. destruct s as [|d s]; [discriminate|].
  destruct (atom_ok ic a d); [|discriminate].
  intros H. apply m_nodes_suffix in H as (x & ->). exists d, x. reflexivity.
Qed.

(** ** Matches that do not depend on the text that follows *)

Lemma lstrip_app_stop s X :
  stops is_space X = true -> lstrip (s ++ X) = lstrip s ++ X.
Proof.
  intros HX. induction s as [|c s IH]; simpl.
  - destruct X as [|x X]; simpl in *; [reflexivity|].
    apply negb_true_iff in HX. rewrite HX. reflexivity.
  - destruct (is_space c); auto.
Qed.

Lemma cap_get_more X g o :
  cap_get g (more_opens X o) = option_map (fun t => t ++ X) (cap_get g o).
Proof.
  induction o as [|[h t] o IH]; simpl; auto.
  destruct (Nat.eqb g h); auto.
Qed.

Lemma firstn_more {A} (s0 s X : list A) :
  firstn (List.length (s0 ++ X) - List.length (s ++ X)) (s0 ++ X)
  = firstn (List.length s0 - List.length s) s0.
Proof.
  rewrite !length_app.
  replace (List.length s0 + List.length X - (List.length s + List.length X))%nat
    with (List.length s0 - List.length s)%nat by (clear; lia).
  rewrite firstn_app.
  replace (List.length s0 - List.length s - List.length s0)%nat with O by (clear; lia).
  simpl. apply app_nil_r.
Qed.

Section Apart.
Variable ic : bool.
Variable x0 : char.
Variable X' : str.
Let X := x0 :: X'.
Variable I : caps -> Prop.

Lemma apart_nil : apart ic X I [].
Proof. intros o c s _. reflexivity. Qed.

Lemma apart_one a r :
  atom_ok ic a x0 = false -> apart ic X I r -> apart ic X I (One a :: r).
Proof.
  intros Ha Hr o c s Hc. destruct s as [|d s].
  - simpl. rewrite Ha. reflexivity.
  - change ((d :: s) ++ X) with (d :: s ++ X). rewrite !m_one.
    destruct (atom_ok ic a d); [apply Hr; exact Hc | reflexivity].
Qed.

Lemma apart_open g r : apart ic X I r -> apart ic X I (Open g :: r).
Proof. intros Hr o c s Hc. rewrite !m_open. apply (Hr ((g, s) :: o)). exact Hc. Qed.

Lemma apart_close g r :
  (forall c t, I c -> I ((g, t) :: c)) ->
  apart ic X I r -> apart ic X I (Close g :: r).
Proof.
  intros HI Hr o c s Hc. simpl. rewrite cap_get_more.
  destruct (cap_get g o) as [s0|]; simpl; [|reflexivity].
  rewrite firstn_more. apply Hr. apply HI. exact Hc.
Qed.

Lemma apart_ws r :
  is_space x0 = false ->
  (forall o c d t, I c -> is_space d = true -> m_nodes ic r o c (d :: t) = None) ->
  apart ic X I r -> apart ic X I (Rep true 0 Ws :: r).
Proof.
  intros Hx Hrej Hr o c s Hc.
  rewrite !m_ws_det by (intros; apply Hrej; assumption).
  rewrite lstrip_app_stop by (simpl; rewrite Hx; reflexivity).
  apply Hr. exact Hc.
Qed.
End Apart.

Lemma apart_weaken ic X (I J : caps -> Prop) r :
  (forall c, J c -> I c) -> apart ic X I r -> apart ic X J r.
Proof. intros HJ Hr o c s Hc. apply Hr. apply HJ. exact Hc. Qed.

Lemma re_match_apart ic X a r s :
  s <> [] -> apart ic X (fun _ => True) r ->
  re_match ic (One a :: r) (s ++ X) = more X (re_match ic (One a :: r) s).
Proof.
  intros Hs Hr. unfold re_match. destruct s as [|d s]; [contradiction|].
  change ((d :: s) ++ X) with (d :: s ++ X). rewrite !m_one.
  destruct (atom_ok ic a d); [|reflexivity].
  apply (Hr [] [] s). exact Logic.I.
Qed.

(** When no match depends on [X] following, the scan of [pre ++ X] is the
    scan of [pre] followed by the scan of [X]. *)
Lemma scan_from_app ic a r X :
  (forall s, s <> [] ->
     re_match ic (One a :: r) (s ++ X) = more X (re_match ic (One a :: r) s)) ->
  forall pre skip, (skip <= List.length pre)%nat ->
    scan_from ic (One a :: r) skip (pre ++ X)
    = scan_from ic (One a :: r) skip pre
      ++ scan_from ic (One a :: r) (skip - List.length pre) X.
Proof.
  intros Hst pre. induction pre as [|c pre IH]; intros skip Hskip.
  - simpl in *. destruct skip; [reflexivity | clear -Hskip; lia].
  - change ((c :: pre) ++ X) with (c :: pre ++ X).
    destruct skip as [|n].
    + cbn [scan_from].
      change (c :: pre ++ X) with ((c :: pre) ++ X).
      rewrite Hst by discriminate.
      destruct (re_match ic (One a :: r) (c :: pre)) as [[g rest]|] eqn:E; simpl more.
      * destruct (re_match_consumes _ _ _ _ _ _ E) as (d & x & Ex).
        injection Ex as <- ->.
        replace (List.length ((c :: x ++ rest) ++ X) - List.length (rest ++ X))%nat
          with (S (List.length x))
          by (cbn [List.length app]; rewrite !length_app; clear; lia).
        replace (List.length (c :: x ++ rest) - List.length rest)%nat
          with (S (List.length x))
          by (cbn [List.length app]; rewrite !length_app; clear; lia).
        cbn [app]. rewrite IH by (rewrite length_app; clear; lia).
        cbn [app firstn]. rewrite <- List.app_assoc.
        rewrite !firstn_app, !Nat.sub_diag, !firstn_all. cbn [firstn].
        rewrite !app_nil_r.
        replace (List.length x - List.length (x ++ rest))%nat with O
          by (rewrite length_app; clear; lia).
        reflexivity.
      * cbn [app]. rewrite IH by (clear; lia). reflexivity.
    + cbn [scan_from]. rewrite IH by (simpl in Hskip; clear -Hskip; lia).
      reflexivity.
Qed.

Lemma scan_app ic a r X pre :
  (forall s, s <> [] ->
     re_match ic (One a :: r) (s ++ X) = more X (re_match ic (One a :: r) s)) ->
  scan ic (One a :: r) (pre ++ X)
  = scan ic (One a :: r) pre ++ scan ic (One a :: r) X.
Proof.
  intros H. unfold scan. rewrite (scan_from_app ic a r X H pre 0) by (clear; lia).
  reflexivity.
Qed.

(** ** IGNORECASE *)


(** Punctuation has no case: IGNORECASE compares it exactly. *)
Lemma chr_eq_punct ic p d : p < 65 -> chr_eq ic p d = (p =? d).
Proof.
  intros Hp. destruct ic; [|reflexivity].
  unfold chr_eq, fold_extra, lower.
  bool_cases; try reflexivity; try congruence; try lia.
Qed.

Lemma chr_eq_refl ic x : chr_eq ic x x = true.
Proof. destruct ic; unfold chr_eq; apply N.eqb_refl. Qed.

Lemma m_chr_ci ic r o c x s :
  m_nodes ic (One (Chr x) :: r) o c (x :: s) = m_nodes ic r o c s.
Proof. rewrite m_one. simpl. rewrite chr_eq_refl. reflexivity. Qed.

(** A literal word under IGNORECASE matches any spelling of it. *)
Lemma m_lit_ci p : forall r o c NAME t,
  ci_same p NAME = true ->
  m_nodes true (List.map (fun x => One (Chr x)) p ++ r) o c (NAME ++ t)
  = m_nodes true r o c t.
Proof.
  induction p as [|x p IH]; intros r o c NAME t H; destruct NAME as [|y NAME];
    cbn [ci_same] in H; try discriminate.
  - reflexivity.
  - apply andb_true_iff in H as [H1 H2].
    cbn [List.map app]. rewrite m_one. cbn [atom_ok]. rewrite H1. apply IH. exact H2.
Qed.

Lemma ci_same_refl p : ci_same p p = true.
Proof. induction p; simpl; auto. rewrite chr_eq_refl. auto. Qed.

(** A spelling of a word of letters holds no punctuation [e]. *)
Lemma ci_same_has e p : forall NAME,
  e < 65 -> ci_same p NAME = true ->
  forallb (fun x => negb (chr_eq true x e)) p = true ->
  has e NAME = false.
Proof.
  intros NAME He. revert NAME.
  induction p as [|x p IH]; intros [|y NAME] H Hp; cbn [ci_same forallb] in *;
    try discriminate; auto.
  apply andb_true_iff in H as [H1 H2]. apply andb_true_iff in Hp as [Hp1 Hp2].
  unfold has in *. cbn [existsb]. rewrite (IH NAME) by assumption.
  rewrite orb_false_r. destruct (N.eqb_spec e y); [|reflexivity].
  subst y. rewrite H1 in Hp1. discriminate.
Qed.

Lemma close_one_fail ic g a r o c d t :
  atom_ok ic a d = false ->
  m_nodes ic (Close g :: One a :: r) o c (d :: t) = None.
Proof. intros H. simpl. destruct (cap_get g o); [|reflexivity]. rewrite H. reflexivity. Qed.

Lemma has_forall_not_ci e x :
  e < 65 -> has e x = false -> forallb (atom_ok true (Cls true [e])) x = true.
Proof.
  intros He. unfold has. induction x as [|d x IH]; simpl; auto.
  intros H. apply orb_false_iff in H as [H1 H2].
  rewrite chr_eq_punct by assumption. rewrite H1. simpl. auto.
Qed.

Lemma blank_has e w : is_space e = false -> forallb is_space w = true -> has e w = false.
Proof.
  intros He. unfold has. induction w as [|d w IH]; simpl; auto.
  intros H. apply andb_true_iff in H as [H1 H2].
  rewrite (space_not e d) by assumption. auto.
Qed.

Lemma quote_ok q : is_quote q = true -> atom_ok true (Cls false [squote; dquote]) q = true.
Proof.
  unfold is_quote. intros H. simpl.
  rewrite !chr_eq_punct by reflexivity.
  rewrite (N.eqb_sym squote), (N.eqb_sym dquote), orb_false_r. exact H.
Qed.

Lemma ws_then_quote r o c w q t :
  forallb is_space w = true -> is_quote q = true ->
  m_nodes true (Rep true 0 Ws :: One (Cls false [squote; dquote]) :: r) o c
    (w ++ q :: t)
  = m_nodes true r o c t.
Proof.
  intros Hw Hq. rewrite m_ws_det.
  - rewrite lstrip_blank_app; auto.
    + rewrite m_one, quote_ok by assumption. reflexivity.
    + simpl. unfold is_quote in Hq.
      destruct (is_space q) eqn:E; [|reflexivity].
      apply orb_true_iff in Hq as [Hq|Hq]; apply N.eqb_eq in Hq; subst q; discriminate.
  - intros d t' Hd. rewrite m_one. simpl.
    rewrite !chr_eq_punct by reflexivity.
    rewrite (space_not squote d), (space_not dquote d); auto.
Qed.

Lemma ws_then_chr_ci e r o c w t :
  e < 65 -> is_space e = false -> forallb is_space w = true ->
  m_nodes true (Rep true 0 Ws :: One (Chr e) :: r) o c (w ++ e :: t)
  = m_nodes true r o c t.
Proof.
  intros Hlt He Hw. rewrite m_ws_det.
  - rewrite lstrip_blank_app; auto.
    + apply m_chr_ci.
    + simpl. rewrite He. reflexivity.
  - intros d t' Hd. rewrite m_one. simpl. rewrite chr_eq_punct by assumption.
    rewrite (space_not e d); auto.
Qed.

Lemma suffix_of_tail {A} (y y1 y2 : list A) :
  y = y1 ++ y2 -> y1 <> [] -> exists z, List.tl y = z ++ y2.
Proof.
  intros -> H. destruct y1 as [|a y1]; [contradiction|]. exists y1. reflexivity.
Qed.

Lemma channel_head (name : String.string) w0 w1 E w2 q NAME q' post :
  forallb is_space w0 = true -> forallb is_space w1 = true ->
  forallb is_space w2 = true ->
  stops is_space E = true -> E <> [] -> has 41 E = false ->
  is_quote q = true -> is_quote q' = true ->
  ci_same (py name) NAME = true ->
  forallb (fun x => negb (chr_eq true x 41)) (py name) = true ->
  forallb (fun x => negb (chr_eq true x 44)) (py name) = true ->
  re_match true (pat_channel name)
    (py "color.channel" ++ w0 ++ 40 :: w1 ++ E ++ 44 :: w2 ++ q :: NAME
       ++ q' :: 41 :: post)
  = Some ([(1%nat, E)], post).
Proof.
  intros Hw0 Hw1 Hw2 HE HEne HhE Hq Hq' Hci Hn41 Hn44.
  unfold re_match, pat_channel, lit. norm_py.
  change [99; 111; 108; 111; 114; 46; 99; 104; 97; 110; 110; 101; 108]
    with (py "color.channel") at 2.
  rewrite m_lit_ci by apply ci_same_refl.
  cbn [app].
  rewrite ws_then_chr_ci by (auto; reflexivity).
  apply m_greedy_run; [exact Hw1 | | simpl; clear; lia |].
  { destruct E; [contradiction | exact HE]. }
  rewrite m_open.
  pose proof (ci_same_has 41 _ _ eq_refl Hci Hn41) as HN41.
  pose proof (ci_same_has 44 _ _ eq_refl Hci Hn44) as HN44.
  assert (Hqn : forall x, is_quote x = true -> (41 =? x) = false /\ (44 =? x) = false).
  { unfold is_quote. intros x Hx.
    apply orb_true_iff in Hx as [Hx|Hx]; apply N.eqb_eq in Hx; subst x; auto. }
  destruct (Hqn q Hq) as [Hq41 Hq44]. destruct (Hqn q' Hq') as [Hq'41 Hq'44].
  change (E ++ 44 :: w2 ++ q :: NAME ++ q' :: 41 :: post)
    with (E ++ (44 :: w2 ++ q :: NAME ++ q' :: 41 :: post)).
  replace (44 :: w2 ++ q :: NAME ++ q' :: 41 :: post)
    with ((44 :: w2 ++ q :: NAME ++ [q']) ++ 41 :: post)
    by (cbn [app]; rewrite <- !List.app_assoc; cbn [app];
        rewrite <- List.app_assoc; reflexivity).
  apply m_greedy_back.
  - apply has_forall_not_ci; [reflexivity | exact HhE].
  - apply has_forall_not_ci; [reflexivity|].
    rewrite has_cons, has_app, has_cons, has_app, has_cons.
    rewrite (blank_has 41 w2 eq_refl Hw2), HN41, Hq41, Hq'41. reflexivity.
  - reflexivity.
  - destruct E; [contradiction | simpl; clear; lia].
  - intros y1 y2 Ey Hy1.
    destruct (suffix_of_tail _ _ _ Ey Hy1) as (z & Ez). cbn [List.tl] in Ez.
    assert (Hall : has 44 ((w2 ++ q :: NAME ++ [q']) ++ [41]) = false).
    { rewrite !has_app, !has_cons, has_app, has_cons.
      rewrite (blank_has 44 w2 eq_refl Hw2), HN44, Hq44, Hq'44. reflexivity. }
    rewrite Ez, <- List.app_assoc, has_app in Hall.
    apply orb_false_iff in Hall as [_ Hall].
    destruct y2 as [|d y2]; cbn [app] in Hall |- *; rewrite has_cons in Hall;
      apply orb_false_iff in Hall as [Hd _];
      apply close_one_fail; cbn [atom_ok]; rewrite chr_eq_punct by reflexivity;
      exact Hd.
  - rewrite (m_close true 1 _ _ _ E); [|simpl; rewrite <- !List.app_assoc; reflexivity].
    cbn [app]. rewrite m_chr_ci.
    repeat (rewrite <- List.app_assoc; cbn [app]).
    rewrite ws_then_quote by assumption.
    rewrite m_lit_ci by exact Hci.
    cbn [app]. rewrite m_one, quote_ok by assumption.
    simpl. rewrite ?chr_eq_refl. reflexivity.
Qed.

(** ** [math.round(] *)

Lemma round_head post :
  re_match false pat_round (py "math.round(" ++ post) = Some ([], post).
Proof. unfold re_match, pat_round. norm_pat. rewrite !m_chr. reflexivity. Qed.

Lemma round_apart post s :
  s <> [] ->
  re_match false pat_round (s ++ py "math.round(" ++ post)
  = more (py "math.round(" ++ post) (re_match false pat_round s).
Proof.
  intros Hs. unfold pat_round. norm_pat.
  apply re_match_apart; [exact Hs|].
  repeat (apply apart_one; [reflexivity|]). apply apart_nil.
Qed.

Lemma shim_round_app pre post :
  shim_round (pre ++ py "math.round(" ++ post)
  = shim_round pre ++ py "round(" ++ shim_round post.
Proof.
  unfold shim_round, re_sub.
  pose proof (round_apart post) as Hap. pose proof (round_head post) as Hh.
  unfold pat_round in *. revert Hap Hh. norm_pat. intros Hap Hh.
  rewrite scan_app by exact Hap.
  rewrite flat_map_app. f_equal.
  rewrite (scan_head false _ [109; 97; 116; 104; 46; 114; 111; 117; 110; 100; 40] post [])
    by (discriminate || exact Hh).
  reflexivity.
Qed.

(** ** The shims on a call that the scan arrives at *)

Lemma startswith_app n t : startswith n (n ++ t) = true.
Proof. induction n as [|c n IH]; simpl; auto. rewrite N.eqb_refl. exact IH. Qed.

Lemma contains_mid n o1 o2 : contains n (o1 ++ n ++ o2) = true.
Proof.
  induction o1 as [|c o1 IH].
  - simpl app. destruct (n ++ o2) eqn:E; simpl; rewrite <- ?E, startswith_app; reflexivity.
  - cbn [app contains]. rewrite IH. apply orb_true_r.
Qed.

Lemma shim_div_at front pre a b post :
  scan false pat_div (pre ++ div_call a b ++ post)
  = front ++ scan false pat_div (div_call a b ++ post) ->
  has 44 a = false -> nonblank a = true ->
  has 41 b = false -> nonblank b = true ->
  shim_div (pre ++ div_call a b ++ post)
  = flat_map (render tpl_div) front
    ++ py "(" ++ strip a ++ py " / " ++ strip b ++ py ")" ++ shim_div post.
Proof.
  intros Hs Ha Hna Hb Hnb.
  destruct (strip_split a Hna) as (w1 & w2 & Hw1 & Hw2 & Ea & HA).
  destruct (strip_split b Hnb) as (w3 & w4 & Hw3 & Hw4 & Eb & HB).
  assert (HhA : has 44 (strip a) = false).
  { rewrite Ea, !has_app in Ha. apply orb_false_iff in Ha as [_ Ha].
    apply orb_false_iff in Ha as [Ha _]. exact Ha. }
  assert (HhB : has 41 (strip b) = false).
  { rewrite Eb, !has_app in Hb. apply orb_false_iff in Hb as [_ Hb].
    apply orb_false_iff in Hb as [Hb _]. exact Hb. }
  unfold shim_div.
  rewrite (re_sub_at false pat_div tpl_div front pre (div_call a b) post
             [(2%nat, strip b); (1%nat, strip a)]).
  - f_equal. unfold expand, tpl_div, group, re_sub.
    cbn [flat_map cap_get m_groups Nat.eqb]. norm_py.
    repeat (rewrite <- List.app_assoc; cbn [app]). reflexivity.
  - unfold div_call. norm_py. discriminate.
  - exact Hs.
  - unfold div_call. rewrite Ea at 1. rewrite Eb at 1. norm_py.
    repeat (rewrite <- List.app_assoc; cbn [app]).
    change (109 :: 97 :: 116 :: 104 :: 46 :: 100 :: 105 :: 118 :: 40 :: w1 ++
            strip a ++ w2 ++ 44 :: w3 ++ strip b ++ w4 ++ 41 :: post)
      with (py "math.div(" ++ w1 ++ strip a ++ w2 ++ 44 :: w3 ++ strip b
              ++ w4 ++ 41 :: post).
    apply div_head; assumption.
Qed.

Lemma shim_unit_at front pre x post :
  scan false pat_unit (pre ++ unit_call x ++ post)
  = front ++ scan false pat_unit (unit_call x ++ post) ->
  has 41 x = false -> nonblank x = true ->
  shim_unit (pre ++ unit_call x ++ post)
  = flat_map (render tpl_unit) front
    ++ py "unit(" ++ strip x ++ py ")" ++ shim_unit post.
Proof.
  intros Hs Hx Hnx.
  destruct (strip_split x Hnx) as (w1 & w2 & Hw1 & Hw2 & Ex & HX).
  assert (Hh : has 41 (strip x) = false).
  { rewrite Ex, !has_app in Hx. apply orb_false_iff in Hx as [_ Hx].
    apply orb_false_iff in Hx as [Hx _]. exact Hx. }
  unfold shim_unit.
  rewrite (re_sub_at false pat_unit tpl_unit front pre (unit_call x) post
             [(1%nat, strip x)]).
  - f_equal. unfold expand, tpl_unit, group, re_sub.
    cbn [flat_map cap_get m_groups Nat.eqb]. norm_py.
    repeat (rewrite <- List.app_assoc; cbn [app]). reflexivity.
  - unfold unit_call. norm_py. discriminate.
  - exact Hs.
  - unfold unit_call. rewrite Ex at 1. norm_py.
    repeat (rewrite <- List.app_assoc; cbn [app]).
    change (109 :: 97 :: 116 :: 104 :: 46 :: 117 :: 110 :: 105 :: 116 :: 40 :: w1 ++
            strip x ++ w2 ++ 41 :: post)
      with (py "math.unit(" ++ w1 ++ strip x ++ w2 ++ 41 :: post).
    apply unit_head; assumption.
Qed.

Lemma lstrip_stops s : stops is_space (lstrip s) = true.
Proof. destruct (lstrip_split s) as (_ & _ & _ & H). exact H. Qed.

Lemma shim_channel_at (name : String.string) front pre expr w q NAME q' post :
  In name channel_names ->
  scan true (pat_channel name) (pre ++ channel_call expr w q NAME q' ++ post)
  = front ++ scan true (pat_channel name) (channel_call expr w q NAME q' ++ post) ->
  has 41 expr = false -> nonblank expr = true ->
  forallb is_space w = true -> is_quote q = true -> is_quote q' = true ->
  ci_same (py name) NAME = true ->
  shim_channel name (pre ++ channel_call expr w q NAME q' ++ post)
  = flat_map (render (tpl_channel name)) front
    ++ py name ++ py "(" ++ lstrip expr ++ py ")" ++ shim_channel name post.
Proof.
  intros Hname Hs Hh Hnb Hw Hq Hq' Hci.
  destruct (lstrip_split expr) as (w1 & Hw1 & Ee & Hst).
  assert (HE : lstrip expr <> []).
  { destruct (lstrip_nonblank expr Hnb) as (d & v & -> & _). discriminate. }
  assert (HhE : has 41 (lstrip expr) = false) by (apply has_lstrip; exact Hh).
  unfold shim_channel.
  rewrite (re_sub_at true (pat_channel name) (tpl_channel name) front pre
             (channel_call expr w q NAME q') post [(1%nat, lstrip expr)]).
  - f_equal. unfold expand, tpl_channel, group, re_sub.
    cbn [flat_map cap_get m_groups Nat.eqb]. norm_py.
    repeat (rewrite <- List.app_assoc; cbn [app]). reflexivity.
  - unfold channel_call. norm_py. discriminate.
  - exact Hs.
  - unfold channel_call. rewrite Ee at 1. norm_py.
    repeat (rewrite <- List.app_assoc; cbn [app]).
    change (99 :: 111 :: 108 :: 111 :: 114 :: 46 :: 99 :: 104 :: 97 :: 110 :: 110
            :: 101 :: 108 :: 40 :: w1 ++ lstrip expr ++ 44 :: w ++ q :: NAME
            ++ q' :: 41 :: post)
      with (py "color.channel" ++ [] ++ 40 :: w1 ++ lstrip expr ++ 44 :: w
              ++ q :: NAME ++ q' :: 41 :: post).
    apply channel_head; auto.
    + simpl in Hname. destruct Hname as [<-|[<-|[<-|[]]]]; reflexivity.
    + simpl in Hname. destruct Hname as [<-|[<-|[<-|[]]]]; reflexivity.
Qed.

(** ** The cache *)




Section Cache.
Variable host : Host.
Variable url : str.
Variable bs : list byte.
Hypothesis Hurl : utf8_encode url = Some bs.

Let p : Path := (user_cache_dir host (py "mkdxs-mathshim"),
                 Sha256.hexdigest bs ++ py ".svg").

Lemma fetch_hit w raw cb :
  files w !! p = Some (Readable raw) ->
  utf8_encode (universal_newlines raw) = Some cb ->
  _fetch_and_cache host url w
  = (Ok (b64encode cb),
     {| files := files w;
        log := EvRead p :: EvMkdir (fst p) :: log w |}).
Proof.
  intros Hf Hc. run_fetch. rewrite Hurl. fold p.
  repeat (cbn beta iota zeta delta [files log]; rewrite ?Hf, ?Hc).
  reflexivity.
Qed.

Lemma fetch_miss w :
  files w !! p = None ->
  _fetch_and_cache host url w
  = download_into host url p
      {| files := files w; log := EvMkdir (fst p) :: log w |}.
Proof.
  intros Hf. run_fetch. rewrite Hurl. fold p.
  repeat (cbn beta iota zeta delta [files log]; rewrite ?Hf).
  unfold download_into. cbn [files log fst].
  destruct (net host url) as [body|]; [|reflexivity].
  cbn beta iota zeta delta [files log].
  destruct (write_refused host p), (utf8_encode body); reflexivity.
Qed.

Lemma fetch_corrupt w f :
  files w !! p = Some f ->
  match f with
  | Unreadable => True
  | Readable raw => utf8_encode (universal_newlines raw) = None
  end ->
  unlink_refused host p = false ->
  _fetch_and_cache host url w
  = download_into host url p
      {| files := delete p (files w);
         log := EvUnlink p :: EvRead p :: EvMkdir (fst p) :: log w |}.
Proof.
  intros Hf Hbad Hrm. run_fetch. rewrite Hurl. fold p.
  repeat (cbn beta iota zeta delta [files log]; rewrite ?Hf, ?Hrm).
  unfold download_into.
  destruct f as [raw|]; [rewrite Hbad|];
    cbn beta iota zeta delta [files log fst]; rewrite ?Hrm;
    cbn beta iota zeta delta [files log fst];
    (destruct (net host url) as [body|]; [|reflexivity]);
    cbn beta iota zeta delta [files log];
    destruct (write_refused host p), (utf8_encode body); reflexivity.
Qed.

(** The file cannot be read and cannot be removed: the error of the
    removal leaves the function, before any download. *)
Lemma fetch_stuck w f :
  files w !! p = Some f ->
  match f with
  | Unreadable => True
  | Readable raw => utf8_encode (universal_newlines raw) = None
  end ->
  unlink_refused host p = true ->
  _fetch_and_cache host url w
  = (Raise OSError,
     {| files := files w;
        log := EvUnlink p :: EvRead p :: EvMkdir (fst p) :: log w |}).
Proof.
  intros Hf Hbad Hrm. run_fetch. rewrite Hurl. fold p.
  repeat (cbn beta iota zeta delta [files log]; rewrite ?Hf, ?Hrm).
  destruct f as [raw|]; [rewrite Hbad|];
    cbn beta iota zeta delta [files log fst]; rewrite ?Hrm; reflexivity.
Qed.

(** Every event of a call concerns the URL or its cache file, and no
    other file changes. *)
Lemma fetch_touches w :
  exists evs,
    log (snd (_fetch_and_cache host url w)) = evs ++ log w
    /\ Forall (touches url p) evs
    /\ forall p', p' <> p ->
         files (snd (_fetch_and_cache host url w)) !! p' = files w !! p'.
Proof.
  destruct (files w !! p) as [f|] eqn:Hf.
  - destruct f as [raw|].
    + destruct (utf8_encode (universal_newlines raw)) as [cb|] eqn:Hc.
      * rewrite (fetch_hit w raw cb Hf Hc). cbn [snd files log].
        split_log; reflexivity.
      * destruct (unlink_refused host p) eqn:Hrm.
        { rewrite (fetch_stuck w _ Hf Hc Hrm). cbn [snd files log].
          split_log; reflexivity. }
        rewrite (fetch_corrupt w _ Hf Hc Hrm). unfold download_into.
        destruct (net host url) as [body|];
          [destruct (utf8_encode body), (write_refused host p)|];
          cbn [snd files log];
          split_log;
          intros p' Hp'; rewrite ?lookup_insert_ne by congruence;
          rewrite ?lookup_delete_ne by congruence; reflexivity.
    + destruct (unlink_refused host p) eqn:Hrm.
      { rewrite (fetch_stuck w _ Hf Logic.I Hrm). cbn [snd files log].
        split_log; reflexivity. }
      rewrite (fetch_corrupt w _ Hf Logic.I Hrm). unfold download_into.
      destruct (net host url) as [body|];
        [destruct (utf8_encode body), (write_refused host p)|];
        cbn [snd files log];
        split_log;
        intros p' Hp'; rewrite ?lookup_insert_ne by congruence;
        rewrite ?lookup_delete_ne by congruence; reflexivity.
  - rewrite (fetch_miss w Hf). unfold download_into.
    destruct (net host url) as [body|];
      [destruct (utf8_encode body), (write_refused host p)|];
      cbn [snd files log];
      split_log;
      intros p' Hp'; rewrite ?lookup_insert_ne by congruence; reflexivity.
Qed.

End Cache.

(** C3.  For a URL [url] whose UTF-8 bytes are [bs], the one cache file
    of [_fetch_and_cache] is the file named by the SHA-256 hex digest of
    [bs] followed by [.svg], in the user cache directory of
    [mkdxs-mathshim]: every event of a call concerns this file or the
    URL, no other file changes, a readable file at this path is what the
    call returns (in base64), and a body that was downloaded and could be
    written is stored at this path.  The path depends on the URL alone. *)
Theorem cache_file_by_url_hash host url bs w :
  utf8_encode url = Some bs ->
  let p := (user_cache_dir host (py "mkdxs-mathshim"),
            Sha256.hexdigest bs ++ py ".svg") in
  let run := _fetch_and_cache host url w in
  (exists evs, log (snd run) = evs ++ log w /\ Forall (touches url p) evs)
  /\ (forall p', p' <> p -> files (snd run) !! p' = files w !! p')
  /\ (forall raw cb,
        files w !! p = Some (Readable raw) ->
        utf8_encode (universal_newlines raw) = Some cb ->
        fst run = Ok (b64encode cb))
  /\ (forall body bb,
        files w !! p = None -> net host url = Some body ->
        utf8_encode body = Some bb -> write_refused host p = false ->
        files (snd run) !! p
        = Some (Readable (write_newlines (os_linesep host) body))).
Proof.
  intros Hurl p run. subst p run.
  destruct (fetch_touches host url bs Hurl w) as (evs & Hl & Ht & Hf).
  repeat split.
  - exists evs. auto.
  - exact Hf.
  - intros raw cb H1 H2. rewrite (fetch_hit host url bs Hurl w raw cb H1 H2). reflexivity.
  - intros body bb H1 H2 H3 H4. rewrite (fetch_miss host url bs Hurl w H1).
    unfold download_into. rewrite H2, H3, H4. cbn [snd files].
    apply lookup_insert_eq.
Qed.

(** X24.  When the cache file of the URL exists, cannot be read and can
    be removed, [_fetch_and_cache] tries to read it, removes it and goes
    on to the download; the unreadable file is gone afterwards.  If the
    download fails the result is the empty text; if it succeeds with
    [body] the result is the base64 of the UTF-8 bytes of [body], the
    same result as for a world in which the URL was never cached. *)
Theorem corrupt_cache_recovery host url bs w :
  utf8_encode url = Some bs ->
  let p := (user_cache_dir host (py "mkdxs-mathshim"),
            Sha256.hexdigest bs ++ py ".svg") in
  files w !! p = Some Unreadable ->
  unlink_refused host p = false ->
  let run := _fetch_and_cache host url w in
  (exists evs,
      log (snd run)
      = evs ++ EvGet url :: EvUnlink p :: EvRead p :: EvMkdir (fst p) :: log w)
  /\ files (snd run) !! p <> Some Unreadable
  /\ (net host url = None -> fst run = Ok [] /\ files (snd run) !! p = None)
  /\ (forall body,
        net host url = Some body ->
        fst run = fst (b64_of_text body w)
        /\ forall w0, files w0 !! p = None ->
                      fst (_fetch_and_cache host url w0) = fst run).
Proof.
  intros Hurl p Hf Hrm run. subst run.
  rewrite (fetch_corrupt host url bs Hurl w _ Hf Logic.I Hrm).
  unfold download_into. cbn [files log]. fold p.
  destruct (net host url) as [body|] eqn:Hn.
  - destruct (utf8_encode body) as [bb|] eqn:Hb.
    + repeat split.
      * exists [EvWrite p]. reflexivity.
      * cbn [snd files]. destruct (write_refused host p).
        -- rewrite lookup_delete_eq. discriminate.
        -- rewrite lookup_insert_eq. discriminate.
      * discriminate.
      * discriminate.
      * injection H as <-. unfold b64_of_text. rewrite Hb. reflexivity.
      * injection H as <-. intros w0 H0. rewrite (fetch_miss host url bs Hurl w0 H0).
        unfold download_into. rewrite Hn, Hb. reflexivity.
    + repeat split.
      * exists [EvWrite p]. reflexivity.
      * cbn [snd files]. destruct (write_refused host p).
        -- rewrite lookup_delete_eq. discriminate.
        -- rewrite lookup_insert_eq. discriminate.
      * discriminate.
      * discriminate.
      * injection H as <-. unfold b64_of_text. rewrite Hb. reflexivity.
      * injection H as <-. intros w0 H0. rewrite (fetch_miss host url bs Hurl w0 H0).
        unfold download_into. rewrite Hn, Hb. reflexivity.
  - repeat split.
    + exists []. reflexivity.
    + cbn [snd files]. rewrite lookup_delete_eq. discriminate.
    + cbn [snd files]. apply lookup_delete_eq.
    + discriminate.
    + discriminate.
Qed.

(** ** [replacer] and [sub_with] *)


Lemma replacer_target host self m url :
  fetch_target self (strip (group m 2)) = Some url ->
  exists why, forall w,
    replacer host self m w
    = (let* fetched := _fetch_and_cache host url in
       ret (if truthy fetched then inlined (m_text m) fetched
            else comment (m_text m) why)) w.
Proof.
  unfold fetch_target, replacer.
  destruct (startswith (py "http://") (strip (group m 2))
            || startswith (py "https://") (strip (group m 2))).
  { intros H. injection H as <-. exists (py "FAILED to fetch").
    intros w. unfold bind. destruct (_fetch_and_cache host _ w) as [[f|e] w']; auto.
    destruct f; reflexivity. }
  destruct (truthy (_mdi_base_url self)
            && startswith (py "@mdi/svg/svg/") (strip (group m 2))).
  { intros H. injection H as <-.
    exists (py "MDI fetch failed: " ++ _mdi_base_url self ++ py "/"
              ++ os_path_basename (strip (group m 2))).
    intros w. unfold bind. destruct (_fetch_and_cache host _ w) as [[f|e] w']; auto.
    destruct f; [|reflexivity]. cbn [truthy negb]. unfold comment, ret.
    norm_py. repeat (rewrite <- List.app_assoc; cbn [app]). reflexivity. }
  destruct (truthy (_octicons_base_url self)
            && contains (py "octicons") (strip (group m 2))).
  { intros H. injection H as <-.
    exists (py "Octicons fetch failed: " ++ _octicons_base_url self ++ py "/"
              ++ os_path_basename (strip (group m 2))).
    intros w. unfold bind. destruct (_fetch_and_cache host _ w) as [[f|e] w']; auto.
    destruct f; [|reflexivity]. cbn [truthy negb]. unfold comment, ret.
    norm_py. repeat (rewrite <- List.app_assoc; cbn [app]). reflexivity. }
  discriminate.
Qed.

Lemma sub_with_app f front : forall m back w0,
  sub_with f (front ++ Hit m :: back) w0
  = (let* o1 := sub_with f front in
     let* r := f m in
     let* o2 := sub_with f back in
     ret (o1 ++ r ++ o2)) w0.
Proof.
  induction front as [|[c|m'] front IH]; intros m back w0.
  - cbn [app sub_with]. unfold bind, ret.
    destruct (f m w0) as [[r|e] w1]; auto.
  - cbn [app sub_with]. unfold bind at 1. rewrite IH. unfold bind, ret.
    destruct (sub_with f front w0) as [[o1|e] w1]; auto.
    destruct (f m w1) as [[r|e] w2]; auto.
    destruct (sub_with f back w2) as [[o2|e] w3]; auto.
  - cbn [app sub_with]. unfold bind, ret.
    destruct (f m' w0) as [[r'|e] w1]; auto.
    rewrite IH. unfold bind, ret.
    destruct (sub_with f front w1) as [[o1|e] w2]; auto.
    destruct (f m w2) as [[r|e] w3]; auto.
    destruct (sub_with f back w3) as [[o2|e] w4]; auto.
    rewrite <- List.app_assoc. reflexivity.
Qed.








(** C4, at a failing input.  The cache directory is read-only and holds
    an unreadable file for the URL; the server would answer.  Reading
    raises, and so does the removal in the handler: the error leaves
    [_fetch_and_cache], nothing is downloaded and the file stays.  For
    the same URL never cached the same host returns the base64 of the
    body.  The error also leaves [_inline_svg_loads]. *)
Theorem corrupt_cache_not_recovered :
  let url := py "https://x.org/a.svg" in
  let p := (user_cache_dir readonly_host (py "mkdxs-mathshim"),
            Sha256.hexdigest url ++ py ".svg") in
  let w := {| files := {[ p := Unreadable ]}; log := [] |} in
  let run := _fetch_and_cache readonly_host url w in
  files w !! p = Some Unreadable
  /\ net readonly_host url = Some (py "<svg/>")
  /\ unlink_refused readonly_host p = true
  /\ fst run = Raise OSError
  /\ log (snd run) = [EvUnlink p; EvRead p; EvMkdir (fst p)]
  /\ files (snd run) !! p = Some Unreadable
  /\ fst (_fetch_and_cache readonly_host url empty_world) = Ok (py "PHN2Zy8+")
  /\ fst (_inline_svg_loads readonly_host demo_entry (svg_call dquote url) w)
     = Raise OSError.
Proof.
  intros url p w run.
  assert (Hu : utf8_encode url = Some url) by (vm_compute; reflexivity).
  assert (Hf : files w !! p = Some Unreadable) by apply lookup_singleton_eq.
  assert (Hrun : run = (Raise OSError,
                        {| files := files w;
                           log := [EvUnlink p; EvRead p; EvMkdir (fst p)] |})).
  { subst run. apply (fetch_stuck readonly_host url url Hu w Unreadable Hf Logic.I).
    reflexivity. }
  split; [exact Hf|]. split; [vm_compute; reflexivity|]. split; [reflexivity|].
  rewrite Hrun. cbn [fst snd files log].
  split; [reflexivity|]. split; [reflexivity|]. split; [exact Hf|].
  split; [vm_compute; reflexivity|].
  unfold _inline_svg_loads.
  assert (Hs : scan false pat_svg (svg_call dquote url)
               = [Hit {| m_text := svg_call dquote url;
                         m_groups := [(2%nat, url); (1%nat, [dquote])] |}])
    by (vm_compute; reflexivity).
  rewrite Hs. cbn [sub_with]. unfold bind at 1.
  destruct (replacer_target readonly_host demo_entry
              {| m_text := svg_call dquote url;
                 m_groups := [(2%nat, url); (1%nat, [dquote])] |} url eq_refl)
    as (why & Hrep).
  rewrite Hrep. unfold bind at 1. fold run. rewrite Hrun. reflexivity.
Qed.

(** C2, at a failing input.  The URL of the directive holds [*/] and
    its download fails, the cache being empty.  [_inline_svg_loads]
    does not raise and returns the text that [replacer] builds around
    the directive, but this text is not a CSS comment: the comment ends
    at the [*/] of the URL, and what follows it is left as style sheet
    text. *)
Theorem failed_fetch_comment_ends_early :
  let U := py "https://y.org/*/b.svg" in
  let text := svg_call squote U in
  let p := (user_cache_dir demo_host (py "mkdxs-mathshim"),
            Sha256.hexdigest U ++ py ".svg") in
  let out := py "/* svg-load('https://y.org/*/b.svg') => FAILED to fetch */" in
  net demo_host U = None
  /\ files empty_world !! p = None
  /\ re_match false pat_svg text = Some ([(2%nat, U); (1%nat, [squote])], [])
  /\ fst (_fetch_and_cache demo_host U empty_world) = Ok []
  /\ fst (_inline_svg_loads demo_host demo_entry text empty_world) = Ok out
  /\ css_comment out = false
  /\ out = py "/* svg-load('https://y.org/*/" ++ py "b.svg') => FAILED to fetch */"
  /\ css_comment (py "/* svg-load('https://y.org/*/") = true.
Proof.
  intros U text p out.
  split; [vm_compute; reflexivity|]. split; [apply lookup_empty|].
  repeat split; vm_compute; reflexivity.
Qed.

Lemma fetch_gets host url w u :
  In (EvGet u) (log (snd (_fetch_and_cache host url w))) ->
  u = url \/ In (EvGet u) (log w).
Proof.
  destruct (utf8_encode url) as [bs|] eqn:Hu.
  - destruct (fetch_touches host url bs Hu w) as (evs & Hl & Ht & _).
    rewrite Hl. intros H. apply in_app_or in H as [H|H]; [|auto].
    left. rewrite Forall_forall in Ht. apply list_elem_of_In in H.
    apply Ht in H. exact H.
  - run_fetch. rewrite Hu. cbn [snd log]. intros [H|H]; [discriminate | auto].
Qed.

Lemma basename_of_join d name :
  has slash name = false -> os_path_basename (d ++ slash :: name) = name.
Proof.
  intros Hn. induction d as [|c d IH].
  - cbn [app os_path_basename]. unfold has in Hn. rewrite Hn.
    unfold slash at 1 2. rewrite N.eqb_refl. reflexivity.
  - cbn [app os_path_basename].
    replace (existsb (N.eqb slash) (d ++ slash :: name)) with true; [exact IH|].
    rewrite existsb_app. cbn [existsb]. rewrite N.eqb_refl.
    symmetry. rewrite orb_true_r. reflexivity.
Qed.

(** C10.  For a matched path that is neither an http(s) URL nor begins
    with [@mdi/svg/svg/], when the octicons base URL is not empty and
    the path contains [octicons] anywhere, [replacer] fetches
    [octicons_base_url + "/" + basename(path)] and asks the network for
    no other URL; the base name of [d + "/" + name] is [name], whatever the
    directories [d]. *)
Theorem octicons_fetch_by_basename host self m :
  let svg_path := strip (group m 2) in
  startswith (py "http://") svg_path = false ->
  startswith (py "https://") svg_path = false ->
  startswith (py "@mdi/svg/svg/") svg_path = false ->
  truthy (_octicons_base_url self) = true ->
  contains (py "octicons") svg_path = true ->
  let remote_url := _octicons_base_url self ++ py "/" ++ os_path_basename svg_path in
  (forall w,
      replacer host self m w
      = (let* fetched := _fetch_and_cache host remote_url in
         ret (if truthy fetched then inlined (m_text m) fetched
              else comment (m_text m) (py "Octicons fetch failed: " ++ remote_url))) w)
  /\ (forall w u,
        In (EvGet u) (log (snd (replacer host self m w))) ->
        u = remote_url \/ In (EvGet u) (log w))
  /\ (forall d name,
        has slash name = false -> os_path_basename (d ++ slash :: name) = name).
Proof.
  intros svg_path H1 H2 H3 H4 H5 remote_url.
  assert (Hrep : forall w,
             replacer host self m w
             = (let* fetched := _fetch_and_cache host remote_url in
                ret (if truthy fetched then inlined (m_text m) fetched
                     else comment (m_text m) (py "Octicons fetch failed: " ++ remote_url))) w).
  { intros w. unfold replacer. fold svg_path. rewrite H1, H2, H3, H4, H5.
    rewrite andb_false_r. cbn [orb andb]. fold remote_url.
    unfold bind. destruct (_fetch_and_cache host remote_url w) as [[f|e] w']; auto.
    destruct f; [|reflexivity]. cbn [truthy negb]. unfold comment, ret.
    norm_py. repeat (rewrite <- List.app_assoc; cbn [app]). reflexivity. }
  repeat split.
  - exact Hrep.
  - intros w u. rewrite Hrep. unfold bind, ret.
    pose proof (fetch_gets host remote_url w u) as Hg.
    destruct (_fetch_and_cache host remote_url w) as [[f|e] w']; exact Hg.
  - apply basename_of_join.
Qed.

(** ** A second fetch *)

Lemma newlines_round_trip ls body :
  ls = [10] \/ ls = [13; 10] -> has 13 body = false ->
  universal_newlines (write_newlines ls body) = body.
Proof.
  intros Hls. unfold write_newlines. induction body as [|c body IH]; [reflexivity|].
  rewrite has_cons. intros H. apply orb_false_iff in H as [Hc H].
  specialize (IH H). cbn [flat_map].
  destruct (N.eqb_spec c 10) as [->|Hne].
  - destruct Hls as [-> | ->]; cbn [app universal_newlines]; rewrite IH; reflexivity.
  - cbn [app].
    assert (Hc' : c <> 13) by (intros ->; discriminate).
    destruct c as [|pc]; [cbn [universal_newlines]; rewrite IH; reflexivity|].
    assert (E : forall t, universal_newlines (N.pos pc :: t) = N.pos pc :: universal_newlines t).
    { intros t. cbn [universal_newlines].
      destruct pc as [[[[|[]|]|[]|]|[[]|[]|]|]|[[]|[]|]|]; try reflexivity.
      contradiction. }
    rewrite E, IH. reflexivity.
Qed.

(** X6.  A body without carriage returns comes back from the cache as
    it was downloaded, whether the host writes line ends as they are or
    as carriage return and line feed: the second call returns the same
    base64 text as the first and asks the network nothing. *)
Lemma second_fetch_same_without_cr host url bs body bb w :
  utf8_encode url = Some bs ->
  let p := (user_cache_dir host (py "mkdxs-mathshim"),
            Sha256.hexdigest bs ++ py ".svg") in
  files w !! p = None -> net host url = Some body ->
  utf8_encode body = Some bb -> write_refused host p = false ->
  has 13 body = false ->
  os_linesep host = [10] \/ os_linesep host = [13; 10] ->
  let r1 := _fetch_and_cache host url w in
  let r2 := _fetch_and_cache host url (snd r1) in
  fst r1 = Ok (b64encode bb) /\ fst r2 = Ok (b64encode bb)
  /\ log (snd r2) = EvRead p :: EvMkdir (fst p) :: log (snd r1).
Proof.
  intros Hu p Hf Hn Hb Hw Hcr Hls r1 r2. subst r1 r2.
  rewrite (fetch_miss host url bs Hu w Hf). unfold download_into.
  rewrite Hn, Hb. fold p. rewrite Hw. cbn [fst snd].
  rewrite (fetch_hit host url bs Hu _ (write_newlines (os_linesep host) body) bb).
  - auto.
  - cbn [files]. apply lookup_insert_eq.
  - rewrite newlines_round_trip; assumption.
Qed.

(** C5, at a failing input.  A body with a Windows line end is downloaded
    and written to the cache; the second call reads the cache file and
    asks the network nothing, but it returns another base64 text than the
    first call: reading in text mode has turned [\r\n] into [\n]. *)
Theorem second_fetch_differs_on_crlf :
  let url := py "https://x.org/a.svg" in
  let p := (py "/home/u/.cache/mkdxs-mathshim",
            py "9c21b6cfd1dc4cc7300ccd79104f0376cb607f5cb28bffdeec2cb526ca84b652.svg") in
  let r1 := _fetch_and_cache crlf_host url empty_world in
  let r2 := _fetch_and_cache crlf_host url (snd r1) in
  net crlf_host url = Some crlf_body
  /\ fst r1 = Ok (py "PHN2Zz4NCjwvc3ZnPg==")
  /\ log (snd r1) = [EvWrite p; EvGet url; EvMkdir (fst p)]
  /\ files (snd r1) !! p = Some (Readable crlf_body)
  /\ fst r2 = Ok (py "PHN2Zz4KPC9zdmc+")
  /\ log (snd r2) = EvRead p :: EvMkdir (fst p) :: log (snd r1)
  /\ fst r2 <> fst r1.
Proof. vm_compute. repeat split; try reflexivity. discriminate. Qed.

(** ** The entry point *)

Lemma join_styles f :
  In f _style_filenames ->
  os_path_join _styles_dir f = py "extra_sass/" ++ f.
Proof.
  intros H. simpl in H. destruct H as [<-|[<-|[<-|[<-|[]]]]]; reflexivity.
Qed.

(** C9.  [search_entry_point] tries [style.css.sass], [style.sass],
    [style.css.scss], [style.scss] in this order inside [extra_sass] and
    returns an available entry for the first that is a regular file; when
    [extra_sass] is not a directory or none of the four is a file, the
    entry it returns is not available and its relative path is empty. *)
Theorem search_entry_point_order host :
  _style_filenames
  = [py "style.css.sass"; py "style.sass"; py "style.css.scss"; py "style.scss"]
  /\ (forall before f after,
        _style_filenames = before ++ f :: after ->
        isdir host (py "extra_sass") = true ->
        isfile host (py "extra_sass/" ++ f) = true ->
        (forall g, In g before -> isfile host (py "extra_sass/" ++ g) = false) ->
        search_entry_point host = AvailableSassEntry (new_entry (py "extra_sass") f)
        /\ is_available (search_entry_point host) = true)
  /\ (isdir host (py "extra_sass") = false
      \/ (forall g, In g _style_filenames ->
                    isfile host (py "extra_sass/" ++ g) = false) ->
      search_entry_point host = NoSassEntry
      /\ is_available (search_entry_point host) = false
      /\ relative_path (search_entry_point host) = []).
Proof.
  split; [reflexivity|]. split.
  - intros before f after E Hd Hf Hg.
    assert (Hgen : forall names,
               (forall g, In g (before ++ f :: names) -> In g _style_filenames) ->
               first_style host _styles_dir (before ++ f :: names)
               = AvailableSassEntry (new_entry _styles_dir f)).
    { intros names Hin. clear E.
      induction before as [|b before IH]; cbn [app first_style].
      - rewrite join_styles by (apply Hin; left; reflexivity).
        rewrite Hf. reflexivity.
      - rewrite join_styles by (apply Hin; left; reflexivity).
        rewrite (Hg b) by (left; reflexivity).
        apply IH.
        + intros g Hin'. apply Hg. right. exact Hin'.
        + intros g Hin'. apply Hin. right. exact Hin'. }
    assert (Hs : search_entry_point host
                 = AvailableSassEntry (new_entry (py "extra_sass") f)).
    { unfold search_entry_point.
      change (isdir host _styles_dir) with (isdir host (py "extra_sass")).
      rewrite Hd, E. apply Hgen. intros g Hin. rewrite E. exact Hin. }
    rewrite Hs. split; reflexivity.
  - intros H.
    assert (Hs : search_entry_point host = NoSassEntry).
    { unfold search_entry_point.
      change (isdir host _styles_dir) with (isdir host (py "extra_sass")).
      destruct H as [H|H]; [rewrite H; reflexivity|].
      destruct (isdir host (py "extra_sass")); [|reflexivity].
      assert (Hgen : forall names,
                 (forall g, In g names -> In g _style_filenames) ->
                 first_style host _styles_dir names = NoSassEntry).
      { induction names as [|n names IH]; intros Hin; [reflexivity|].
        cbn [first_style]. rewrite join_styles by (apply Hin; left; reflexivity).
        rewrite H by (apply Hin; left; reflexivity).
        apply IH. intros g Hg. apply Hin. right. exact Hg. }
      apply Hgen. auto. }
    rewrite Hs. repeat split; reflexivity.
Qed.

(** ** [svg-load] *)

Lemma span_split (ok : char -> bool) s :
  exists x s', s = x ++ s' /\ forallb ok x = true /\ stops ok s' = true.
Proof.
  induction s as [|c s IH].
  - exists [], []. auto.
  - destruct (ok c) eqn:E.
    + destruct IH as (x & s' & -> & Hx & Hs). exists (c :: x), s'.
      simpl. rewrite E, Hx. auto.
    + exists [], (c :: s). simpl. rewrite E. auto.
Qed.


Lemma nonquote_ok d : atom_ok false nonquote d = negb (is_quote d).
Proof.
  unfold nonquote, is_quote. cbn [atom_ok existsb xorb]. unfold chr_eq.
  rewrite orb_false_r, (N.eqb_sym dquote), (N.eqb_sym squote), orb_comm.
  reflexivity.
Qed.

Lemma quote_not_space q : is_quote q = true -> is_space q = false.
Proof.
  unfold is_quote. intros H.
  apply orb_true_iff in H as [H|H]; apply N.eqb_eq in H; subst q; reflexivity.
Qed.

Lemma quote_cls q : atom_ok false (Cls false [dquote; squote]) q = is_quote q.
Proof.
  unfold is_quote. cbn [atom_ok existsb xorb]. unfold chr_eq.
  rewrite orb_false_r, (N.eqb_sym dquote), (N.eqb_sym squote), orb_comm.
  reflexivity.
Qed.

Lemma no_quotes U :
  has squote U = false -> has dquote U = false ->
  forallb (atom_ok false nonquote) U = true.
Proof.
  induction U as [|d U IH]; [reflexivity|].
  rewrite !has_cons. intros H1 H2.
  apply orb_false_iff in H1 as [H1 H1']. apply orb_false_iff in H2 as [H2 H2'].
  cbn [forallb]. rewrite IH by assumption. rewrite nonquote_ok.
  unfold is_quote. rewrite (N.eqb_sym d squote), (N.eqb_sym d dquote), H1, H2.
  reflexivity.
Qed.

Lemma ws_chr_now e r o c t :
  is_space e = false ->
  m_nodes false (Rep true 0 Ws :: One (Chr e) :: r) o c (e :: t)
  = m_nodes false r o c t.
Proof. intros He. apply (ws_then_chr e r o c [] t He). reflexivity. Qed.

Lemma m_greedy_none ic a r o c s res :
  stops (atom_ok ic a) s = true ->
  m_nodes ic r o c s = Some res ->
  m_nodes ic (Rep true 0 a :: r) o c s = Some res.
Proof.
  intros Hs Hk. apply (m_greedy_run ic a 0 r o c [] s res); auto.
Qed.

Lemma m_ref ic g r o c t s s' :
  cap_get g c = Some t -> strip_prefix ic t s = Some s' ->
  m_nodes ic (Ref g :: r) o c s = m_nodes ic r o c s'.
Proof. intros H1 H2. cbn [m_nodes]. rewrite H1, H2. reflexivity. Qed.

Lemma svg_head q U post :
  is_quote q = true -> U <> [] ->
  has squote U = false -> has dquote U = false ->
  re_match false pat_svg (svg_call q U ++ post)
  = Some ([(2%nat, U); (1%nat, [q])], post).
Proof.
  intros Hq HU H1 H2. unfold re_match, pat_svg, svg_call. norm_pat.
  repeat (rewrite <- List.app_assoc; cbn [app]).
  rewrite !m_chr.
  rewrite ws_chr_now by reflexivity.
  apply m_greedy_none.
  - cbn [stops atom_ok]. rewrite (quote_not_space q Hq). reflexivity.
  - rewrite m_open, m_one, quote_cls, Hq.
    rewrite (m_close false 1 _ _ _ [q]) by (simpl; reflexivity).
    rewrite m_open.
    apply (m_greedy_run false nonquote 1 _ _ _ U (q :: 41 :: post)).
    + apply no_quotes; assumption.
    + cbn [stops]. rewrite nonquote_ok, Hq. reflexivity.
    + destruct U; [contradiction | simpl; clear; lia].
    + rewrite (m_close false 2 _ _ _ U) by (simpl; reflexivity).
      rewrite (m_ref false 1 _ _ _ [q] _ (41 :: post));
        [| reflexivity | cbn [strip_prefix]; rewrite chr_eq_refl; reflexivity].
      rewrite ws_chr_now by reflexivity. reflexivity.
Qed.

Lemma m_close_eq ic g r o c s :
  m_nodes ic (Close g :: r) o c s
  = match cap_get g o with
    | Some s0 =>
        m_nodes ic r o ((g, firstn (List.length s0 - List.length s) s0) :: c) s
    | None => None
    end.
Proof. reflexivity. Qed.

Lemma m_ref_eq ic g r o c s :
  m_nodes ic (Ref g :: r) o c s
  = match cap_get g c with
    | Some t =>
        match strip_prefix ic t s with
        | Some s' => m_nodes ic r o c s'
        | None => None
        end
    | None => None
    end.
Proof. reflexivity. Qed.

Lemma apart_ref ic x0 X' (I : caps -> Prop) g q r :
  (forall c, I c -> cap_get g c = Some [q]) ->
  chr_eq ic q x0 = false ->
  apart ic (x0 :: X') I r -> apart ic (x0 :: X') I (Ref g :: r).
Proof.
  intros HI Hq Hr o c s Hc. cbn [m_nodes]. rewrite (HI c Hc).
  destruct s as [|d s]; cbn [app strip_prefix].
  - rewrite Hq. reflexivity.
  - destruct (chr_eq ic q d); [apply Hr; exact Hc | reflexivity].
Qed.

Section SvgApart.
Variables (q0 u0 : char) (U' post : str).
Hypothesis Hq0 : is_quote q0 = true.
Hypothesis Hu0 : is_space u0 = false.
Hypothesis Hu1 : (41 =? u0) = false.

Let X' : str := [118; 103; 45; 108; 111; 97; 100; 40]
                ++ q0 :: u0 :: U' ++ q0 :: 41 :: post.

Let I (q : char) : caps -> Prop := fun c => cap_get 1 c = Some [q].

Lemma svg_end_apart q :
  is_quote q = true ->
  apart false (115 :: X') (I q) [Close 2; Ref 1; Rep true 0 Ws; One (Chr 41)].
Proof.
  intros Hq.
  apply apart_close. { intros c t Hc. exact Hc. }
  apply (apart_ref false 115 X' (I q) 1 q). { auto. }
  { unfold chr_eq, is_quote in *.
    apply orb_true_iff in Hq as [Hq|Hq]; apply N.eqb_eq in Hq; subst q; reflexivity. }
  apply apart_ws; [reflexivity | |].
  { intros o c d t _ Hd. rewrite m_one. cbn [atom_ok]. unfold chr_eq.
    rewrite (space_not 41 d); auto. }
  apply apart_one; [reflexivity|]. apply apart_nil.
Qed.

(** After the run of group 2 has reached the directive that follows,
    the closing quote may match but the closing parenthesis cannot. *)
Lemma svg_end_blocked q o c :
  cap_get 1 c = Some [q] ->
  m_nodes false [Close 2; Ref 1; Rep true 0 Ws; One (Chr 41)] o c
    (q0 :: u0 :: U' ++ q0 :: 41 :: post) = None.
Proof.
  intros Hc. rewrite m_close_eq. destruct (cap_get 2 o) as [l|]; [|reflexivity].
  rewrite m_ref_eq. cbn [cap_get Nat.eqb]. rewrite Hc. cbn [strip_prefix].
  destruct (chr_eq false q q0); [|reflexivity].
  rewrite m_ws_det.
  - cbn [lstrip]. rewrite Hu0. rewrite m_one. cbn [atom_ok]. unfold chr_eq.
    rewrite Hu1. reflexivity.
  - intros d t Hd. rewrite m_one. cbn [atom_ok]. unfold chr_eq.
    rewrite (space_not 41 d); auto.
Qed.

Lemma svg_tail_apart q :
  is_quote q = true ->
  apart false (115 :: X') (I q)
    [Open 2; Rep true 1 nonquote; Close 2; Ref 1; Rep true 0 Ws; One (Chr 41)].
Proof.
  intros Hq o c s Hc. rewrite !m_open.
  enough (Hgen : forall o2,
             m_nodes false
               [Rep true 1 nonquote; Close 2; Ref 1; Rep true 0 Ws; One (Chr 41)]
               (more_opens (115 :: X') o2) c (s ++ 115 :: X')
             = more (115 :: X')
                 (m_nodes false
                    [Rep true 1 nonquote; Close 2; Ref 1; Rep true 0 Ws; One (Chr 41)]
                    o2 c s))
    by exact (Hgen ((2%nat, s) :: o)).
  intros o2.
  assert (Hrej : forall o' d t,
             atom_ok false nonquote d = true ->
             m_nodes false [Close 2; Ref 1; Rep true 0 Ws; One (Chr 41)] o' c (d :: t)
             = None).
  { intros o' d t Hd. rewrite m_close_eq. destruct (cap_get 2 o'); [|reflexivity].
    rewrite m_ref_eq. cbn [cap_get Nat.eqb]. rewrite Hc. cbn [strip_prefix].
    rewrite nonquote_ok in Hd. apply negb_true_iff in Hd.
    unfold chr_eq. destruct (N.eqb_spec q d); [subst; congruence | reflexivity]. }
  destruct (span_split (atom_ok false nonquote) s) as (U1 & s' & Es & HU1 & Hs').
  rewrite Es.
  rewrite (m_greedy_det false nonquote 1 _ o2 c U1 s') by auto.
  destruct s' as [|d s''].
  - (* the run reaches the end of the text *)
    rewrite app_nil_r.
    replace (match (1 <=? List.length U1)%nat with
             | true => m_nodes false [Close 2; Ref 1; Rep true 0 Ws; One (Chr 41)] o2 c []
             | false => None
             end) with (@None (caps * str)).
    2:{ destruct (1 <=? List.length U1)%nat; [|reflexivity].
        rewrite m_close_eq. destruct (cap_get 2 o2); [|reflexivity].
        rewrite m_ref_eq. cbn [cap_get Nat.eqb]. rewrite Hc. reflexivity. }
    cbn [more].
    change (U1 ++ 115 :: X')
      with (U1 ++ [115; 118; 103; 45; 108; 111; 97; 100; 40]
              ++ q0 :: u0 :: U' ++ q0 :: 41 :: post).
    rewrite List.app_assoc.
    rewrite (m_greedy_det false nonquote 1 _ _ c).
    + destruct (1 <=? _)%nat; [|reflexivity].
      apply (svg_end_blocked q). exact Hc.
    + apply Hrej.
    + rewrite forallb_app. apply andb_true_intro. split; [exact HU1 | reflexivity].
    + cbn [stops]. rewrite nonquote_ok, Hq0. reflexivity.
  - (* the run stops at a quote of the text *)
    rewrite <- List.app_assoc.
    rewrite (m_greedy_det false nonquote 1 _ _ c U1 ((d :: s'') ++ 115 :: X'))
      by (auto; exact Hs').
    destruct (1 <=? List.length U1)%nat; [|reflexivity].
    apply (svg_end_apart q Hq o2 c (d :: s'')). exact Hc.
Qed.

Lemma svg_quote_apart :
  apart false (115 :: X') (fun _ => True)
    [Open 1; One (Cls false [dquote; squote]); Close 1;
     Open 2; Rep true 1 nonquote; Close 2; Ref 1; Rep true 0 Ws; One (Chr 41)].
Proof.
  intros o c s _. rewrite !m_open. destruct s as [|d s].
  - reflexivity.
  - change ((d :: s) ++ 115 :: X') with (d :: s ++ 115 :: X').
    rewrite !m_one, quote_cls.
    destruct (is_quote d) eqn:Hd; [|reflexivity].
    rewrite (m_close false 1 _ _ c [d] (s ++ 115 :: X'))
      by (cbn [cap_get Nat.eqb]; reflexivity).
    rewrite (m_close false 1 _ _ c [d] s) by (cbn [cap_get Nat.eqb]; reflexivity).
    apply (svg_tail_apart d Hd ((1%nat, d :: s) :: o) ((1%nat, [d]) :: c) s).
    reflexivity.
Qed.

Lemma svg_apart s :
  s <> [] ->
  re_match false pat_svg (s ++ 115 :: X')
  = more (115 :: X') (re_match false pat_svg s).
Proof.
  intros Hs. unfold pat_svg. norm_pat.
  apply re_match_apart; [exact Hs|].
  do 7 (apply apart_one; [reflexivity|]).
  apply apart_ws; [reflexivity | |].
  { intros o c d t _ Hd. rewrite m_one. cbn [atom_ok]. unfold chr_eq.
    rewrite (space_not 40 d); auto. }
  apply apart_one; [reflexivity|].
  apply apart_ws; [reflexivity | |].
  { intros o c d t _ Hd. rewrite m_open, m_one, quote_cls.
    destruct (is_quote d) eqn:E; [|reflexivity].
    rewrite (quote_not_space d E) in Hd. discriminate. }
  apply svg_quote_apart.
Qed.
End SvgApart.

Lemma startswith_split p : forall U,
  startswith p U = true -> exists rest, U = p ++ rest.
Proof.
  induction p as [|x p IH]; intros U H.
  - exists U. reflexivity.
  - destruct U as [|y U]; [discriminate|]. cbn [startswith] in H.
    apply andb_true_iff in H as [H1 H2]. apply N.eqb_eq in H1. subst y.
    destruct (IH U H2) as (rest & ->). exists rest. reflexivity.
Qed.

Lemma rstrip_after p rest :
  p <> [] -> is_space (List.last p 32) = false ->
  rstrip (p ++ rest) = p ++ rstrip rest.
Proof.
  intros Hp Hl. unfold rstrip. rewrite rev_app_distr.
  destruct (nonblank (rev rest)) eqn:E.
  - rewrite lstrip_app by exact E. rewrite rev_app_distr, rev_involutive. reflexivity.
  - assert (Hb : forallb is_space (rev rest) = true).
    { clear -E. induction (rev rest) as [|c l IH]; [reflexivity|].
      cbn [nonblank existsb] in E. apply orb_false_iff in E as [E1 E2].
      apply negb_false_iff in E1. cbn [forallb]. rewrite E1. apply IH. exact E2. }
    rewrite lstrip_blank_app; auto.
    + rewrite rev_involutive.
      destruct (lstrip_split (rev rest)) as (w & Hw & Ew & Hst).
      assert (El : lstrip (rev rest) = []).
      { destruct (lstrip (rev rest)) as [|d v] eqn:Ed; [reflexivity|].
        exfalso. cbn [stops] in Hst. apply negb_true_iff in Hst.
        rewrite Ew, forallb_app in Hb. apply andb_true_iff in Hb as [_ Hb].
        cbn [forallb] in Hb. rewrite Hst in Hb. discriminate. }
      rewrite El. cbn [rev]. rewrite app_nil_r. reflexivity.
    + assert (Eh : List.last p 32 = List.hd 32 (rev p))
        by (rewrite <- last_rev_hd, rev_involutive; reflexivity).
      rewrite Eh in Hl.
      destruct (rev p) as [|d v] eqn:Er.
      * apply (f_equal (@rev char)) in Er. rewrite rev_involutive in Er.
        contradiction.
      * cbn [stops]. cbn [List.hd] in Hl. rewrite Hl. reflexivity.
Qed.

Lemma strip_keeps_prefix p U :
  p <> [] -> is_space (List.hd 32 p) = false -> is_space (List.last p 32) = false ->
  startswith p U = true -> startswith p (strip U) = true.
Proof.
  intros Hp Hh Hl H. destruct (startswith_split p U H) as (rest & ->).
  unfold strip.
  assert (E : lstrip (p ++ rest) = p ++ rest).
  { destruct p as [|x p]; [contradiction|]. cbn [app lstrip List.hd] in *.
    rewrite Hh. reflexivity. }
  rewrite E, rstrip_after by assumption. apply startswith_app.
Qed.

Lemma http_target self U :
  startswith (py "http://") U || startswith (py "https://") U = true ->
  fetch_target self (strip U) = Some (strip U).
Proof.
  intros H. unfold fetch_target.
  apply orb_true_iff in H as [H|H].
  - rewrite (strip_keeps_prefix _ U) by (discriminate || reflexivity || exact H).
    reflexivity.
  - rewrite (strip_keeps_prefix (py "https://") U)
      by (discriminate || reflexivity || exact H).
    rewrite orb_true_r. reflexivity.
Qed.

Lemma http_head U :
  startswith (py "http://") U || startswith (py "https://") U = true ->
  exists U', U = 104 :: U'.
Proof.
  intros H. apply orb_true_iff in H as [H|H];
    apply startswith_split in H as (rest & ->); eexists; reflexivity.
Qed.


Lemma svg_scan pre q U post :
  is_quote q = true ->
  has squote U = false -> has dquote U = false ->
  startswith (py "http://") U || startswith (py "https://") U = true ->
  scan false pat_svg (pre ++ svg_call q U ++ post)
  = scan false pat_svg pre
    ++ Hit {| m_text := svg_call q U; m_groups := [(2%nat, U); (1%nat, [q])] |}
    :: scan false pat_svg post.
Proof.
  intros Hq H1 H2 Hh.
  pose proof (svg_head q U post Hq) as Hhead.
  destruct (http_head U Hh) as (U' & ->).
  specialize (Hhead ltac:(discriminate) H1 H2).
  pose proof (svg_apart q 104 U' post Hq eq_refl eq_refl) as Hap.
  assert (EX : svg_call q (104 :: U') ++ post
               = 115 :: [118; 103; 45; 108; 111; 97; 100; 40]
                        ++ q :: 104 :: U' ++ q :: 41 :: post).
  { unfold svg_call. norm_py. repeat (rewrite <- List.app_assoc; cbn [app]).
    reflexivity. }
  rewrite <- EX in Hap.
  revert Hhead Hap. unfold pat_svg. norm_pat. intros Hhead Hap.
  rewrite scan_app by exact Hap. f_equal.
  apply scan_head; [|exact Hhead].
  unfold svg_call. norm_py. discriminate.
Qed.

(** C1, amended.  For every text and every occurrence in it of the
    directive [svg-load(qUq)], [q] a single or double quote and [U]
    without quotes and beginning with [http://] or [https://]:
    [_inline_svg_loads] handles what precedes the occurrence, hands the
    occurrence to [replacer] and handles what follows, and joins the three
    results.  [replacer] fetches [U.strip()]; when this fetch returns a
    non-empty [b], the occurrence becomes
    [/* occurrence => inlined */ url('data:image/svg+xml;base64,b')], the
    comment holding the occurrence as it was written.  When the fetch
    downloads a body, [b] is the base64 of the UTF-8 bytes of the body. *)
Theorem svg_load_inlined host self pre q U post :
  is_quote q = true ->
  has squote U = false -> has dquote U = false ->
  startswith (py "http://") U || startswith (py "https://") U = true ->
  let m := {| m_text := svg_call q U; m_groups := [(2%nat, U); (1%nat, [q])] |} in
  (forall w,
      _inline_svg_loads host self (pre ++ svg_call q U ++ post) w
      = (let* o1 := _inline_svg_loads host self pre in
         let* r := replacer host self m in
         let* o2 := _inline_svg_loads host self post in
         ret (o1 ++ r ++ o2)) w)
  /\ (forall w b w',
        _fetch_and_cache host (strip U) w = (Ok b, w') -> truthy b = true ->
        replacer host self m w = (Ok (inlined (svg_call q U) b), w'))
  /\ (forall w bs body bb,
        utf8_encode (strip U) = Some bs ->
        files w !! (user_cache_dir host (py "mkdxs-mathshim"),
                    Sha256.hexdigest bs ++ py ".svg") = None ->
        net host (strip U) = Some body -> utf8_encode body = Some bb ->
        fst (_fetch_and_cache host (strip U) w) = Ok (b64encode bb)).
Proof.
  intros Hq H1 H2 Hh m. repeat split.
  - intros w. unfold _inline_svg_loads.
    rewrite (svg_scan pre q U post Hq H1 H2 Hh). apply sub_with_app.
  - intros w b w' Hf Hb.
    destruct (replacer_target host self m (strip U)) as (why & Hrep).
    { apply http_target. exact Hh. }
    rewrite Hrep. unfold bind. rewrite Hf. unfold ret. rewrite Hb. reflexivity.
  - intros w bs body bb Hu Hf Hn Hb.
    rewrite (fetch_miss host (strip U) bs Hu w Hf). unfold download_into.
    rewrite Hn, Hb. reflexivity.
Qed.

(** The directive with a blank before the closing quote: the URL with the
    blank answers, the URL without it is what the program asks for. *)
Lemma svg_load_trailing_blank :
  let U := py "http://x.org/a.svg " in
  let text := svg_call dquote U in
  (is_quote dquote = true /\ has squote U = false /\ has dquote U = false
   /\ startswith (py "http://") U = true)
  /\ fst (_fetch_and_cache blank_host U empty_world) = Ok (py "PHN2Zy8+")
  /\ fst (_inline_svg_loads blank_host demo_entry text empty_world)
     = Ok (comment text (py "FAILED to fetch"))
  /\ fst (_inline_svg_loads blank_host demo_entry text empty_world)
     <> Ok (inlined text (py "PHN2Zy8+")).
Proof. vm_compute. repeat split; try reflexivity. discriminate. Qed.

(** ** The claims on the shims *)

Lemma not_contained n s :
  contains n s = false -> ~ exists o1 o2, s = o1 ++ n ++ o2.
Proof.
  intros H (o1 & o2 & E). rewrite E, contains_mid in H. discriminate.
Qed.

(** C6, amended.  Every occurrence of [math.round(] becomes [round(].
    An occurrence of [math.div(a,b)] at which the scan from the left
    arrives (it does not begin inside an earlier match), with no comma in
    [a], no closing parenthesis in [b] and a character other than white
    space in each, becomes [(a / b)] with [a] and [b] stripped.  An
    occurrence of [math.unit(x)] at which the scan arrives, with no closing
    parenthesis and a character other than white space in [x], becomes
    [unit(x)] with [x] stripped. *)
Theorem shim_math_calls :
  (forall pre post,
      shim_round (pre ++ py "math.round(" ++ post)
      = shim_round pre ++ py "round(" ++ shim_round post)
  /\ (forall front pre a b post,
        scan false pat_div (pre ++ div_call a b ++ post)
        = front ++ scan false pat_div (div_call a b ++ post) ->
        has 44 a = false -> nonblank a = true ->
        has 41 b = false -> nonblank b = true ->
        shim_div (pre ++ div_call a b ++ post)
        = flat_map (render tpl_div) front
          ++ py "(" ++ strip a ++ py " / " ++ strip b ++ py ")" ++ shim_div post)
  /\ (forall front pre x post,
        scan false pat_unit (pre ++ unit_call x ++ post)
        = front ++ scan false pat_unit (unit_call x ++ post) ->
        has 41 x = false -> nonblank x = true ->
        shim_unit (pre ++ unit_call x ++ post)
        = flat_map (render tpl_unit) front
          ++ py "unit(" ++ strip x ++ py ")" ++ shim_unit post).
Proof.
  split; [exact shim_round_app|]. split.
  - exact shim_div_at.
  - exact shim_unit_at.
Qed.

Lemma shim_math_calls_witness :
  let pre := py "a { w: " in
  let post := py "; }" in
  let front := List.map Lit pre in
  (scan false pat_div (pre ++ div_call (py " $x ") (py " 2px ") ++ post)
   = front ++ scan false pat_div (div_call (py " $x ") (py " 2px ") ++ post)
   /\ has 44 (py " $x ") = false /\ nonblank (py " $x ") = true
   /\ has 41 (py " 2px ") = false /\ nonblank (py " 2px ") = true)
  /\ shim_div (pre ++ div_call (py " $x ") (py " 2px ") ++ post)
     = py "a { w: ($x / 2px); }"
  /\ (scan false pat_unit (pre ++ unit_call (py " 1px ") ++ post)
      = front ++ scan false pat_unit (unit_call (py " 1px ") ++ post)
      /\ has 41 (py " 1px ") = false /\ nonblank (py " 1px ") = true)
  /\ shim_unit (pre ++ unit_call (py " 1px ") ++ post) = py "a { w: unit(1px); }".
Proof.
  intros pre post front.
  split; [repeat split; vm_compute; reflexivity|].
  split.
  { rewrite (proj1 (proj2 shim_math_calls) front pre (py " $x ") (py " 2px ") post);
      vm_compute; reflexivity. }
  split; [repeat split; vm_compute; reflexivity|].
  rewrite (proj2 (proj2 shim_math_calls) front pre (py " 1px ") post);
    vm_compute; reflexivity.
Defined.

(** A call inside the second argument of another call is left as it is. *)
Lemma div_inner_call_kept :
  let pre := py "math.div(x, " in
  let a := py "1" in
  let b := py " 2" in
  let post := py ")" in
  has 44 a = false /\ has 41 b = false
  /\ pre ++ div_call a b ++ post = py "math.div(x, math.div(1, 2))"
  /\ shim_div (pre ++ div_call a b ++ post) = py "(x / math.div(1, 2))"
  /\ save_to_shim (pre ++ div_call a b ++ post) = py "(x / math.div(1, 2))"
  /\ ~ exists o1 o2,
         shim_div (pre ++ div_call a b ++ post)
         = o1 ++ (py "(" ++ strip a ++ py " / " ++ strip b ++ py ")") ++ o2.
Proof.
  cbv zeta. repeat split; try (vm_compute; reflexivity).
  apply not_contained. vm_compute. reflexivity.
Qed.

(** C7, amended.  For each of the names hue, saturation and lightness:
    an occurrence of [color.channel(expr, 'NAME')] at which the scan from
    the left arrives (it does not begin inside an earlier match), with
    [NAME] the name in any case, between single or double quotes, and with
    no closing parenthesis and a character other than white space in
    [expr], becomes [name(expr)] with the white space before [expr]
    removed. *)
Theorem shim_color_channel (name : String.string) front pre expr w q NAME q' post :
  In name channel_names ->
  scan true (pat_channel name) (pre ++ channel_call expr w q NAME q' ++ post)
  = front ++ scan true (pat_channel name) (channel_call expr w q NAME q' ++ post) ->
  has 41 expr = false -> nonblank expr = true ->
  forallb is_space w = true -> is_quote q = true -> is_quote q' = true ->
  ci_same (py name) NAME = true ->
  shim_channel name (pre ++ channel_call expr w q NAME q' ++ post)
  = flat_map (render (tpl_channel name)) front
    ++ py name ++ py "(" ++ lstrip expr ++ py ")" ++ shim_channel name post.
Proof. apply shim_channel_at. Qed.

Lemma shim_color_channel_witness :
  let pre := py "a { h: " in
  let post := py "; }" in
  let front := List.map Lit pre in
  let call := channel_call (py " $c") (py " ") squote (py "Hue") dquote in
  (In "hue"%string channel_names
   /\ scan true (pat_channel "hue") (pre ++ call ++ post)
      = front ++ scan true (pat_channel "hue") (call ++ post)
   /\ has 41 (py " $c") = false /\ nonblank (py " $c") = true
   /\ forallb is_space (py " ") = true
   /\ is_quote squote = true /\ is_quote dquote = true
   /\ ci_same (py "hue") (py "Hue") = true)
  /\ shim_channel "hue" (pre ++ call ++ post) = py "a { h: hue($c); }".
Proof.
  intros pre post front call. subst call.
  split; [repeat split; try (vm_compute; reflexivity); left; reflexivity|].
  rewrite (shim_color_channel "hue" front pre (py " $c") (py " ") squote
             (py "Hue") dquote post);
    try (vm_compute; reflexivity).
  left. reflexivity.
Defined.

(** A call inside the first argument of another call is left as it is. *)
Lemma channel_inner_call_kept :
  let pre := py "color.channel(" in
  let expr := py "$c" in
  let post := py ", 'hue')" in
  let text := pre ++ channel_call expr (py " ") squote (py "hue") squote ++ post in
  has 41 expr = false
  /\ text = py "color.channel(color.channel($c, 'hue'), 'hue')"
  /\ shim_channel "hue" text = py "hue(color.channel($c), 'hue')"
  /\ save_to_shim text = py "hue(color.channel($c), 'hue')"
  /\ ~ exists o1 o2,
         shim_channel "hue" text = o1 ++ (py "hue(" ++ expr ++ py ")") ++ o2.
Proof.
  cbv zeta. repeat split; try (vm_compute; reflexivity).
  apply not_contained. vm_compute. reflexivity.
Qed.

(** C8.  There is a nested call, [math.div(rgb(1,2,3), 2)], whose first
    argument holds commas inside parentheses, that the shim does not
    rewrite to the division of its two arguments: the result is
    [(rgb(1 / 2,3), 2)]. *)
Theorem nested_div_not_rewritten :
  exists a b,
    a = py "rgb(1,2,3)" /\ b = py " 2"
    /\ has 44 a = true
    /\ div_call a b = py "math.div(rgb(1,2,3), 2)"
    /\ shim_div (div_call a b) = py "(rgb(1 / 2,3), 2)"
    /\ save_to_shim (div_call a b) = py "(rgb(1 / 2,3), 2)"
    /\ shim_div (div_call a b) <> py "(" ++ strip a ++ py " / " ++ strip b ++ py ")".
Proof.
  exists (py "rgb(1,2,3)"), (py " 2").
  repeat split; try (vm_compute; reflexivity).
  vm_compute. discriminate.
Qed.

(** ** Instances of the theorems *)

Lemma svg_load_inlined_witness :
  let U := py "https://x.org/a.svg" in
  (is_quote squote = true /\ has squote U = false /\ has dquote U = false
   /\ startswith (py "http://") U || startswith (py "https://") U = true)
  /\ fst (_inline_svg_loads demo_host demo_entry
            (py "a{b:" ++ svg_call squote U ++ py "}") empty_world)
     = Ok (py "a{b:" ++ inlined (svg_call squote U) (py "PHN2Zy8+") ++ py "}").
Proof.
  intros U.
  split; [repeat split; vm_compute; reflexivity|].
  rewrite (proj1 (svg_load_inlined demo_host demo_entry (py "a{b:") squote U
                    (py "}") eq_refl eq_refl eq_refl eq_refl) empty_world).
  vm_compute. reflexivity.
Defined.


Lemma cache_file_by_url_hash_witness :
  let url := py "https://x.org/a.svg" in
  let p := (py "/home/u/.cache/mkdxs-mathshim",
            py "9c21b6cfd1dc4cc7300ccd79104f0376cb607f5cb28bffdeec2cb526ca84b652.svg") in
  utf8_encode url = Some url
  /\ files (snd (_fetch_and_cache demo_host url empty_world)) !! p
     = Some (Readable (py "<svg/>")).
Proof.
  intros url p.
  assert (Hu : utf8_encode url = Some url) by (vm_compute; reflexivity).
  split; [exact Hu|].
  pose proof (cache_file_by_url_hash demo_host url url empty_world Hu) as H.
  cbv zeta in H. destruct H as (_ & _ & _ & H).
  assert (Ep : p = (user_cache_dir demo_host (py "mkdxs-mathshim"),
                    Sha256.hexdigest url ++ py ".svg")) by (vm_compute; reflexivity).
  rewrite Ep.
  apply (H (py "<svg/>") (py "<svg/>")); vm_compute; reflexivity.
Defined.

Lemma corrupt_cache_recovery_witness :
  let url := py "https://x.org/a.svg" in
  let p := (user_cache_dir demo_host (py "mkdxs-mathshim"),
            Sha256.hexdigest url ++ py ".svg") in
  let w := {| files := {[ p := Unreadable ]}; log := [] |} in
  (utf8_encode url = Some url /\ files w !! p = Some Unreadable
   /\ unlink_refused demo_host p = false)
  /\ fst (_fetch_and_cache demo_host url w) = Ok (py "PHN2Zy8+")
  /\ files (snd (_fetch_and_cache demo_host url w)) !! p <> Some Unreadable.
Proof.
  intros url p w.
  assert (Hu : utf8_encode url = Some url) by (vm_compute; reflexivity).
  assert (Hf : files w !! p = Some Unreadable) by apply lookup_singleton_eq.
  split; [auto|].
  pose proof (corrupt_cache_recovery demo_host url url w Hu Hf eq_refl) as H.
  cbv zeta in H. destruct H as (_ & H2 & _ & H4).
  split; [|exact H2].
  destruct (H4 (py "<svg/>") eq_refl) as [H _]. rewrite H. reflexivity.
Defined.

Lemma search_entry_point_order_witness :
  let before := [py "style.css.sass"; py "style.sass"; py "style.css.scss"] in
  let f := py "style.scss" in
  (_style_filenames = before ++ f :: []
   /\ isdir demo_host (py "extra_sass") = true
   /\ isfile demo_host (py "extra_sass/" ++ f) = true
   /\ (forall g, In g before -> isfile demo_host (py "extra_sass/" ++ g) = false))
  /\ search_entry_point demo_host
     = AvailableSassEntry (new_entry (py "extra_sass") f)
  /\ (isdir crlf_host (py "extra_sass") = false
      /\ relative_path (search_entry_point crlf_host) = []).
Proof.
  intros before f.
  assert (Hg : forall g, In g before -> isfile demo_host (py "extra_sass/" ++ g) = false).
  { intros g [<-|[<-|[<-|[]]]]; reflexivity. }
  split; [repeat split; auto|].
  split.
  - apply (proj1 (proj2 (search_entry_point_order demo_host)) before f []);
      auto; reflexivity.
  - split; [reflexivity|].
    apply (proj2 (proj2 (search_entry_point_order crlf_host))).
    left. reflexivity.
Defined.

Lemma octicons_fetch_by_basename_witness :
  let path := py "@primer/octicons/build/svg/git-commit-24.svg" in
  let m := {| m_text := svg_call dquote path;
              m_groups := [(2%nat, path); (1%nat, [dquote])] |} in
  (startswith (py "http://") (strip (group m 2)) = false
   /\ startswith (py "https://") (strip (group m 2)) = false
   /\ startswith (py "@mdi/svg/svg/") (strip (group m 2)) = false
   /\ truthy (_octicons_base_url demo_entry) = true
   /\ contains (py "octicons") (strip (group m 2)) = true)
  /\ fst (replacer demo_host demo_entry m empty_world)
     = Ok (comment (m_text m)
             (py "Octicons fetch failed: https://o.org/icons/git-commit-24.svg")).
Proof.
  intros path m.
  split; [repeat split; vm_compute; reflexivity|].
  rewrite (proj1 (octicons_fetch_by_basename demo_host demo_entry m
                    eq_refl eq_refl eq_refl eq_refl eq_refl) empty_world).
  vm_compute. reflexivity.
Defined.

(** * Further properties *)

(** ** More on the cache *)

(** X1.  A readable cache file for the URL is all that
    [_fetch_and_cache] uses: it returns the base64 of the file's text,
    leaves every file as it was, logs only the [mkdir] and the read, and
    sends no request. *)
Theorem cache_hit_is_offline host url bs w raw cb :
  utf8_encode url = Some bs ->
  let p := (user_cache_dir host (py "mkdxs-mathshim"),
            Sha256.hexdigest bs ++ py ".svg") in
  files w !! p = Some (Readable raw) ->
  utf8_encode (universal_newlines raw) = Some cb ->
  let run := _fetch_and_cache host url w in
  fst run = Ok (b64encode cb)
  /\ files (snd run) = files w
  /\ log (snd run) = EvRead p :: EvMkdir (fst p) :: log w
  /\ (forall u, In (EvGet u) (log (snd run)) -> In (EvGet u) (log w)).
Proof.
  intros Hu p Hf Hc run. subst run.
  rewrite (fetch_hit host url bs Hu w raw cb Hf Hc). cbn [fst snd files log].
  repeat split. intros u [H|[H|H]]; [discriminate | discriminate | exact H].
Qed.


(** X3.  After a download that was written to the
    cache, a second call for the same URL returns the base64 of what the
    cache file reads as in text mode (the body written with the host's
    line separator, read back with universal newlines), changes no file
    and sends no request. *)
Theorem second_fetch_reads_cache host url bs body bb cb w :
  utf8_encode url = Some bs ->
  let p := (user_cache_dir host (py "mkdxs-mathshim"),
            Sha256.hexdigest bs ++ py ".svg") in
  files w !! p = None -> net host url = Some body ->
  utf8_encode body = Some bb -> write_refused host p = false ->
  utf8_encode (universal_newlines (write_newlines (os_linesep host) body))
  = Some cb ->
  let r1 := _fetch_and_cache host url w in
  let r2 := _fetch_and_cache host url (snd r1) in
  fst r1 = Ok (b64encode bb)
  /\ fst r2 = Ok (b64encode cb)
  /\ files (snd r2) = files (snd r1)
  /\ log (snd r2) = EvRead p :: EvMkdir (fst p) :: log (snd r1).
Proof.
  intros Hu p Hf Hn Hb Hw Hc r1 r2. subst r1 r2.
  rewrite (fetch_miss host url bs Hu w Hf). unfold download_into.
  rewrite Hn, Hb. fold p. rewrite Hw. cbn [fst snd].
  rewrite (fetch_hit host url bs Hu _
             (write_newlines (os_linesep host) body) cb).
  - auto.
  - cbn [files]. apply lookup_insert_eq.
  - exact Hc.
Qed.

(** X4.  A download whose body is empty is
    written to the cache as an empty file and returned as the empty text,
    the value that signals failure; the second call reads the empty file,
    returns the empty text again and does not ask the network. *)
Theorem empty_body_is_cached_as_failure host url bs w :
  utf8_encode url = Some bs ->
  let p := (user_cache_dir host (py "mkdxs-mathshim"),
            Sha256.hexdigest bs ++ py ".svg") in
  files w !! p = None -> net host url = Some [] ->
  write_refused host p = false ->
  let r1 := _fetch_and_cache host url w in
  let r2 := _fetch_and_cache host url (snd r1) in
  fst r1 = Ok [] /\ files (snd r1) !! p = Some (Readable [])
  /\ fst r2 = Ok [] /\ files (snd r2) = files (snd r1)
  /\ log (snd r2) = EvRead p :: EvMkdir (fst p) :: log (snd r1).
Proof.
  intros Hu p Hf Hn Hw r1 r2. subst r1 r2.
  rewrite (fetch_miss host url bs Hu w Hf). unfold download_into.
  rewrite Hn. fold p. rewrite Hw. cbn [utf8_encode b64encode fst snd files log].
  rewrite (fetch_hit host url bs Hu _ [] []).
  - cbn [fst snd files log write_newlines flat_map]. repeat split.
    apply lookup_insert_eq.
  - cbn [files]. apply lookup_insert_eq.
  - reflexivity.
Qed.

(** ** The fetched text is base64 *)

Lemma b64_digit_ok n : is_b64 (b64_digit n) = true.
Proof.
  unfold is_b64, b64_digit.
  destruct (N.ltb_spec n 26); [|destruct (N.ltb_spec n 52);
    [|destruct (N.ltb_spec n 62); [|destruct (N.eqb_spec n 62)]]];
    bool_cases; try reflexivity; lia.
Qed.

Lemma b64encode_ok_upto n : forall bs,
  (List.length bs <= n)%nat -> forallb is_b64 (b64encode bs) = true.
Proof.
  induction n as [|n IH]; intros bs Hn.
  - destruct bs; [reflexivity | simpl in Hn; lia].
  - destruct bs as [|a [|b [|c rest]]]; cbn [b64encode forallb];
      rewrite ?b64_digit_ok; try reflexivity.
    cbn [andb]. apply IH. simpl in Hn. lia.
Qed.

Lemma b64encode_ok bs : forallb is_b64 (b64encode bs) = true.
Proof. apply (b64encode_ok_upto (List.length bs)). lia. Qed.

Lemma b64_no_quote b : forallb is_b64 b = true -> has squote b = false.
Proof.
  induction b as [|c b IH]; [reflexivity|]. cbn [forallb]. intros H.
  apply andb_true_iff in H as [Hc H]. rewrite has_cons, (IH H), orb_false_r.
  destruct (N.eqb_spec squote c) as [<-|]; [discriminate | reflexivity].
Qed.

Lemma download_into_b64 host url p w b :
  fst (download_into host url p w) = Ok b -> forallb is_b64 b = true.
Proof.
  unfold download_into. destruct (net host url) as [body|].
  - destruct (utf8_encode body); cbn [fst]; intros H; [|discriminate].
    injection H as <-. apply b64encode_ok.
  - cbn [fst]. intros H. injection H as <-. reflexivity.
Qed.

(** X5.  Whatever [_fetch_and_cache] returns is made
    of base64 characters only (letters, digits, [+], [/], [=]); it holds no
    single quote, so it cannot end the quoted [url('...')] that [replacer]
    puts it into. *)
Theorem fetch_result_is_base64 host url w b :
  fst (_fetch_and_cache host url w) = Ok b ->
  forallb is_b64 b = true /\ has squote b = false.
Proof.
  intros H.
  assert (Hb : forallb is_b64 b = true).
  { destruct (utf8_encode url) as [bs|] eqn:Hu.
    - destruct (files w !! (user_cache_dir host (py "mkdxs-mathshim"),
                            Sha256.hexdigest bs ++ py ".svg")) as [[raw|]|] eqn:Hf.
      + destruct (utf8_encode (universal_newlines raw)) as [cb|] eqn:Hc.
        * rewrite (fetch_hit host url bs Hu w raw cb Hf Hc) in H.
          injection H as <-. apply b64encode_ok.
        * destruct (unlink_refused host
                      (user_cache_dir host (py "mkdxs-mathshim"),
                       Sha256.hexdigest bs ++ py ".svg")) eqn:Hrm.
          { rewrite (fetch_stuck host url bs Hu w _ Hf Hc Hrm) in H. discriminate H. }
          rewrite (fetch_corrupt host url bs Hu w _ Hf Hc Hrm) in H.
          eapply download_into_b64. exact H.
      + destruct (unlink_refused host
                    (user_cache_dir host (py "mkdxs-mathshim"),
                     Sha256.hexdigest bs ++ py ".svg")) eqn:Hrm.
        { rewrite (fetch_stuck host url bs Hu w _ Hf Logic.I Hrm) in H. discriminate H. }
        rewrite (fetch_corrupt host url bs Hu w _ Hf Logic.I Hrm) in H.
        eapply download_into_b64. exact H.
      + rewrite (fetch_miss host url bs Hu w Hf) in H.
        eapply download_into_b64. exact H.
    - revert H. run_fetch. rewrite Hu. cbn [fst]. discriminate. }
  split; [exact Hb | apply b64_no_quote; exact Hb].
Qed.

(** ** More on [replacer] *)

Lemma basename_no_slash p : has slash (os_path_basename p) = false.
Proof.
  induction p as [|c p IH]; [reflexivity|]. cbn [os_path_basename].
  destruct (existsb (N.eqb slash) p) eqn:E; [exact IH|].
  destruct (N.eqb_spec c slash) as [->|Hc]; [exact E|].
  rewrite has_cons. unfold has. rewrite E, orb_false_r.
  apply N.eqb_neq. congruence.
Qed.

Lemma basename_suffix p : exists d, p = d ++ os_path_basename p.
Proof.
  induction p as [|c p IH]; [exists []; reflexivity|]. cbn [os_path_basename].
  destruct (existsb (N.eqb slash) p).
  - destruct IH as (d & Hd). exists (c :: d). cbn [app]. congruence.
  - destruct (c =? slash); [exists [c] | exists []]; reflexivity.
Qed.

(** X7.  For a path that begins with [@mdi/svg/svg/]
    (and is no http link) and a non-empty Material Design base URL,
    [replacer] fetches the base URL, a slash and the basename of the path,
    and nothing else; the basename holds no slash and ends the path.  The
    result is the inlined image when the fetch returns text, and the
    comment [MDI fetch failed: URL] otherwise. *)
Theorem mdi_fetch_by_basename host self m :
  let svg_path := strip (group m 2) in
  startswith (py "http://") svg_path = false ->
  startswith (py "https://") svg_path = false ->
  truthy (_mdi_base_url self) = true ->
  startswith (py "@mdi/svg/svg/") svg_path = true ->
  let name := os_path_basename svg_path in
  let remote_url := _mdi_base_url self ++ py "/" ++ name in
  (forall w,
      replacer host self m w
      = (let* fetched := _fetch_and_cache host remote_url in
         ret (if truthy fetched then inlined (m_text m) fetched
              else comment (m_text m) (py "MDI fetch failed: " ++ remote_url))) w)
  /\ (forall w u,
        In (EvGet u) (log (snd (replacer host self m w))) ->
        u = remote_url \/ In (EvGet u) (log w))
  /\ has slash name = false
  /\ (exists d, svg_path = d ++ name).
Proof.
  intros svg_path H1 H2 H3 H4 name remote_url.
  assert (Hrep : forall w,
             replacer host self m w
             = (let* fetched := _fetch_and_cache host remote_url in
                ret (if truthy fetched then inlined (m_text m) fetched
                     else comment (m_text m) (py "MDI fetch failed: " ++ remote_url))) w).
  { intros w. unfold replacer. fold svg_path. rewrite H1, H2, H3, H4.
    cbn [orb andb]. fold name. fold remote_url.
    unfold bind. destruct (_fetch_and_cache host remote_url w) as [[f|e] w']; auto.
    destruct f; [|reflexivity]. cbn [truthy negb]. unfold comment, ret.
    norm_py. repeat (rewrite <- List.app_assoc; cbn [app]). reflexivity. }
  repeat split.
  - exact Hrep.
  - intros w u. rewrite Hrep. unfold bind, ret.
    pose proof (fetch_gets host remote_url w u) as Hg.
    destruct (_fetch_and_cache host remote_url w) as [[f|e] w']; exact Hg.
  - apply basename_no_slash.
  - apply basename_suffix.
Qed.

(** X8.  A path that is no http link, no Material
    Design path with a base URL and no octicons path with a base URL is
    replaced by the comment [no known base URL or not an http link]
    around the directive as written; no file is touched and nothing is
    requested. *)
Theorem unknown_path_untouched host self m w :
  let svg_path := strip (group m 2) in
  startswith (py "http://") svg_path = false ->
  startswith (py "https://") svg_path = false ->
  truthy (_mdi_base_url self) && startswith (py "@mdi/svg/svg/") svg_path = false ->
  truthy (_octicons_base_url self) && contains (py "octicons") svg_path = false ->
  replacer host self m w
  = (Ok (comment (m_text m) (py "no known base URL or not an http link")), w).
Proof.
  intros svg_path H1 H2 H3 H4. unfold replacer. fold svg_path.
  rewrite H1, H2, H3, H4. cbn [orb]. unfold ret, comment.
  norm_py. repeat (rewrite <- List.app_assoc; cbn [app]). reflexivity.
Qed.

(** ** Texts without a match *)

Lemma scan_from_no_hit ic r s :
  (forall t1 t2, s = t1 ++ t2 -> re_match ic r t2 = None) ->
  scan_from ic r 0 s = List.map Lit s.
Proof.
  induction s as [|c s IH]; intros H; [reflexivity|].
  cbn [scan_from List.map]. rewrite (H [] (c :: s) eq_refl).
  rewrite IH; [reflexivity|].
  intros t1 t2 E. apply (H (c :: t1) t2). cbn [app]. congruence.
Qed.

Lemma re_sub_no_hit ic r t s :
  (forall t1 t2, s = t1 ++ t2 -> re_match ic r t2 = None) ->
  re_sub ic r t s = s.
Proof.
  intros H. unfold re_sub, scan. rewrite scan_from_no_hit by exact H.
  clear H. induction s as [|c s IH]; [reflexivity|].
  cbn [List.map flat_map render app]. rewrite IH. reflexivity.
Qed.

Lemma sub_with_lits f s w : sub_with f (List.map Lit s) w = (Ok s, w).
Proof.
  induction s as [|c s IH]; [reflexivity|].
  cbn [List.map sub_with]. unfold bind. rewrite IH. reflexivity.
Qed.

(** A pattern that begins with a literal word matches only where the word
    is. *)
Lemma m_lit_fail ic L : forall r o c t,
  strip_prefix ic L t = None ->
  m_nodes ic (List.map (fun x => One (Chr x)) L ++ r) o c t = None.
Proof.
  induction L as [|x L IH]; intros r o c t H; [discriminate|].
  cbn [List.map app]. destruct t as [|y t]; [reflexivity|].
  rewrite m_one. cbn [atom_ok]. cbn [strip_prefix] in H.
  destruct (chr_eq ic x y); [apply IH; exact H | reflexivity].
Qed.

Lemma strip_prefix_startswith L : forall t,
  startswith L t = false -> strip_prefix false L t = None.
Proof.
  induction L as [|x L IH]; intros t H; [discriminate|].
  destruct t as [|y t]; [reflexivity|]. cbn [startswith strip_prefix] in *.
  unfold chr_eq. destruct (x =? y); [apply IH; exact H | reflexivity].
Qed.

Lemma contains_suffix L t1 : forall t2,
  contains L (t1 ++ t2) = false -> startswith L t2 = false.
Proof.
  induction t1 as [|c t1 IH]; intros t2 H.
  - cbn [app] in H. destruct t2; cbn [contains] in H;
      apply orb_false_iff in H as [H _]; exact H.
  - cbn [app contains] in H. apply orb_false_iff in H as [_ H]. apply IH. exact H.
Qed.

(** X9.  A text in which [svg-load] does not occur
    is returned by [_inline_svg_loads] as it is, and the world is left
    unchanged. *)
Theorem inline_without_directive host self s w :
  contains (py "svg-load") s = false ->
  _inline_svg_loads host self s w = (Ok s, w).
Proof.
  intros H. unfold _inline_svg_loads, scan.
  rewrite scan_from_no_hit; [apply sub_with_lits|].
  intros t1 t2 ->. unfold re_match, pat_svg, lit.
  apply m_lit_fail. apply strip_prefix_startswith.
  apply (contains_suffix _ t1). exact H.
Qed.

(** ** Shims on texts without calls *)

Lemma contains_ci_suffix L t1 : forall t2,
  contains_ci L (t1 ++ t2) = false -> strip_prefix true L t2 = None.
Proof.
  induction t1 as [|c t1 IH]; intros t2 H.
  - cbn [app] in H. destruct t2; cbn [contains_ci] in H;
      apply orb_false_iff in H as [H _];
      destruct (strip_prefix true L _); [discriminate|reflexivity|discriminate|reflexivity].
  - cbn [app contains_ci] in H. apply orb_false_iff in H as [_ H]. apply IH. exact H.
Qed.

Lemma lit_app a b r :
  List.map (fun c => One (Chr c)) (a ++ b) ++ r
  = List.map (fun c => One (Chr c)) a ++ List.map (fun c => One (Chr c)) b ++ r.
Proof. rewrite List.map_app, <- List.app_assoc. reflexivity. Qed.

Lemma math_no_hit (rest : str) (r : regex) s :
  contains (py "math.") s = false ->
  forall t1 t2, s = t1 ++ t2 ->
    re_match false (List.map (fun c => One (Chr c)) (py "math." ++ rest) ++ r) t2 = None.
Proof.
  intros H t1 t2 ->. unfold re_match. rewrite lit_app.
  apply m_lit_fail, strip_prefix_startswith, (contains_suffix _ t1), H.
Qed.

(** X10.  The shims of [save_to] change nothing in a
    text without their calls: without [math.] the three math shims are
    the identity, without [color.channel] in any letter case the three
    channel shims are, and without both the whole sequence is. *)
Theorem shims_without_calls s :
  (contains (py "math.") s = false ->
     shim_round s = s /\ shim_div s = s /\ shim_unit s = s)
  /\ (contains_ci (py "color.channel") s = false ->
        forall name, shim_channel name s = s)
  /\ (contains (py "math.") s = false ->
      contains_ci (py "color.channel") s = false ->
      save_to_shim s = s).
Proof.
  assert (Hm : contains (py "math.") s = false ->
               shim_round s = s /\ shim_div s = s /\ shim_unit s = s).
  { intros H. repeat split.
    - unfold shim_round. apply re_sub_no_hit.
      intros t1 t2 E. unfold pat_round, lit.
      rewrite <- (List.app_nil_r (List.map _ _)).
      apply (math_no_hit (py "round(") [] s H t1 t2 E).
    - unfold shim_div. apply re_sub_no_hit.
      intros t1 t2 E. unfold pat_div, lit.
      apply (math_no_hit (py "div(") _ s H t1 t2 E).
    - unfold shim_unit. apply re_sub_no_hit.
      intros t1 t2 E. unfold pat_unit, lit.
      apply (math_no_hit (py "unit(") _ s H t1 t2 E). }
  assert (Hc : contains_ci (py "color.channel") s = false ->
               forall name, shim_channel name s = s).
  { intros H name. unfold shim_channel. apply re_sub_no_hit.
    intros t1 t2 ->. unfold re_match, pat_channel, lit.
    apply m_lit_fail, (contains_ci_suffix _ t1), H. }
  repeat split; try (apply Hm; assumption); try exact Hc.
  intros H1 H2. destruct (Hm H1) as (E1 & E2 & E3).
  unfold save_to_shim. rewrite E1, E2, E3, !(Hc H2). reflexivity.
Qed.

(** ** The shape of a match *)

Section RepeatShape.
Context {R : Type}.
Variable ok : char -> bool.
Variable k : str -> option R.

Lemma rep_greedy_shape lo s res :
  rep_greedy ok k lo s = Some res ->
  exists x s', s = x ++ s' /\ forallb ok x = true
               /\ (lo <= List.length x)%nat /\ k s' = Some res.
Proof.
  revert lo. induction s as [|c s IH]; intros lo; cbn [rep_greedy].
  - destruct lo; [|discriminate]. intros H. exists [], []. auto.
  - destruct (ok c) eqn:Ec.
    + destruct (rep_greedy ok k (Nat.pred lo) s) eqn:E.
      * intros H. injection H as ->.
        destruct (IH _ E) as (x & s' & -> & Hx & Hlo & Hk). exists (c :: x), s'.
        cbn [forallb List.length app]. rewrite Ec, Hx. repeat split; auto; try lia.
      * destruct lo; [|discriminate]. intros H. exists [], (c :: s). auto.
    + destruct lo; [|discriminate]. intros H. exists [], (c :: s). auto.
Qed.

Lemma rep_lazy_shape lo s res :
  rep_lazy ok k lo s = Some res ->
  exists x s', s = x ++ s' /\ forallb ok x = true
               /\ (lo <= List.length x)%nat /\ k s' = Some res.
Proof.
  revert lo. induction s as [|c s IH]; intros lo; destruct lo; cbn [rep_lazy];
    try discriminate.
  - destruct (k []) eqn:E; [|discriminate].
    intros H. injection H as ->. exists [], []. auto.
  - destruct (k (c :: s)) eqn:E.
    + intros H. injection H as ->. exists [], (c :: s). auto.
    + destruct (ok c) eqn:Ec; [|discriminate]. intros H.
      destruct (IH _ H) as (x & s' & -> & Hx & Hlo & Hk). exists (c :: x), s'.
      cbn [forallb List.length app]. rewrite Ec, Hx. repeat split; auto; try lia.
  - destruct (ok c) eqn:Ec; [|discriminate]. intros H.
    destruct (IH _ H) as (x & s' & -> & Hx & Hlo & Hk). exists (c :: x), s'.
    cbn [forallb List.length app]. rewrite Ec, Hx. repeat split; auto; try lia.
Qed.
End RepeatShape.

Lemma m_rep_shape ic gr lo a r o c s res :
  m_nodes ic (Rep gr lo a :: r) o c s = Some res ->
  exists x s', s = x ++ s' /\ forallb (atom_ok ic a) x = true
               /\ (lo <= List.length x)%nat /\ m_nodes ic r o c s' = Some res.
Proof.
  destruct gr; cbn [m_nodes]; intros H;
    [apply rep_greedy_shape in H | apply rep_lazy_shape in H]; exact H.
Qed.

Lemma m_one_shape ic a r o c s res :
  m_nodes ic (One a :: r) o c s = Some res ->
  exists d s', s = d :: s' /\ atom_ok ic a d = true /\ m_nodes ic r o c s' = Some res.
Proof.
  destruct s as [|d s]; [discriminate|]. rewrite m_one.
  destruct (atom_ok ic a d) eqn:E; [|discriminate]. intros H. exists d, s. auto.
Qed.

Lemma m_chr_shape e r o c s res :
  m_nodes false (One (Chr e) :: r) o c s = Some res ->
  exists s', s = e :: s' /\ m_nodes false r o c s' = Some res.
Proof.
  intros H. apply m_one_shape in H as (d & s' & -> & Hd & H).
  cbn [atom_ok] in Hd. unfold chr_eq in Hd. apply N.eqb_eq in Hd. subst d.
  exists s'. auto.
Qed.

Lemma m_lit_shape L : forall r o c t res,
  m_nodes false (List.map (fun x => One (Chr x)) L ++ r) o c t = Some res ->
  exists t', t = L ++ t' /\ m_nodes false r o c t' = Some res.
Proof.
  induction L as [|x L IH]; intros r o c t res H.
  - exists t. auto.
  - cbn [List.map app] in H. apply m_chr_shape in H as (s' & -> & H).
    apply IH in H as (t' & -> & H). exists t'. auto.
Qed.

Lemma m_ws_shape lo r o c s res :
  m_nodes false (Rep true lo Ws :: r) o c s = Some res ->
  exists w s', s = w ++ s' /\ forallb is_space w = true
               /\ m_nodes false r o c s' = Some res.
Proof.
  intros H. apply m_rep_shape in H as (w & s' & -> & Hw & _ & H).
  exists w, s'. auto.
Qed.

Lemma has_none e x :
  forallb (atom_ok false (Cls true [e])) x = true -> has e x = false.
Proof.
  induction x as [|d x IH]; [reflexivity|]. cbn [forallb]. intros H.
  apply andb_true_iff in H as [H1 H2]. rewrite has_cons, (IH H2).
  cbn [atom_ok existsb xorb] in H1. unfold chr_eq in H1.
  rewrite orb_false_r in H1. apply negb_true_iff in H1. rewrite H1. reflexivity.
Qed.

Lemma quotes_none U :
  forallb (atom_ok false nonquote) U = true ->
  has squote U = false /\ has dquote U = false.
Proof.
  induction U as [|d U IH]; [auto|]. cbn [forallb]. intros H.
  apply andb_true_iff in H as [H1 H2]. destruct (IH H2) as [I1 I2].
  rewrite nonquote_ok in H1. apply negb_true_iff in H1. unfold is_quote in H1.
  apply orb_false_iff in H1 as [A B].
  rewrite !has_cons, I1, I2, (N.eqb_sym squote), (N.eqb_sym dquote), A, B. auto.
Qed.

Lemma nonempty_len {A} (x : list A) : (1 <= List.length x)%nat -> x <> [].
Proof. destruct x; cbn [List.length]; [lia | discriminate]. Qed.

(** A match of the [svg-load] pattern, taken apart. *)
Lemma svg_shape t g rest :
  re_match false pat_svg t = Some (g, rest) ->
  exists w1 w2 w3 q U,
    t = py "svg-load" ++ w1 ++ 40 :: w2 ++ q :: U ++ q :: w3 ++ 41 :: rest
    /\ forallb is_space w1 = true /\ forallb is_space w2 = true
    /\ forallb is_space w3 = true
    /\ is_quote q = true /\ U <> []
    /\ has squote U = false /\ has dquote U = false
    /\ g = [(2%nat, U); (1%nat, [q])].
Proof.
  intros H. unfold re_match, pat_svg, lit in H.
  apply m_lit_shape in H as (t1 & -> & H).
  apply m_ws_shape in H as (w1 & t2 & -> & Hw1 & H).
  apply m_chr_shape in H as (t3 & -> & H).
  apply m_ws_shape in H as (w2 & t4 & -> & Hw2 & H).
  rewrite m_open in H. apply m_one_shape in H as (q & t5 & -> & Hq & H).
  rewrite quote_cls in Hq.
  rewrite (m_close false 1 _ _ _ [q]) in H by reflexivity.
  rewrite m_open in H. apply m_rep_shape in H as (U & t6 & -> & HU & HUlen & H).
  rewrite (m_close false 2 _ _ _ U) in H by reflexivity.
  rewrite m_ref_eq in H. cbn [cap_get Nat.eqb] in H.
  destruct t6 as [|d t6]; cbn [strip_prefix] in H; [discriminate|].
  destruct (chr_eq false q d) eqn:E; [|discriminate].
  unfold chr_eq in E. apply N.eqb_eq in E. subst d.
  apply m_ws_shape in H as (w3 & t7 & -> & Hw3 & H).
  apply m_chr_shape in H as (t8 & -> & H).
  cbn [m_nodes] in H. injection H as <- <-.
  destruct (quotes_none U HU) as [Q1 Q2].
  exists w1, w2, w3, q, U. repeat split; auto using nonempty_len.
Qed.

(** X11.  The [svg-load] pattern matches at the head of a text
    exactly when the text is [svg-load], white space, an opening
    parenthesis, white space, a quote [q], a non-empty path without
    quotes, the same quote [q], white space and a closing parenthesis;
    group 1 is then the quote, group 2 the path, and the match ends after
    the parenthesis. *)
Theorem svg_match_iff t g rest :
  re_match false pat_svg t = Some (g, rest)
  <-> exists w1 w2 w3 q U,
        t = py "svg-load" ++ w1 ++ 40 :: w2 ++ q :: U ++ q :: w3 ++ 41 :: rest
        /\ forallb is_space w1 = true /\ forallb is_space w2 = true
        /\ forallb is_space w3 = true
        /\ is_quote q = true /\ U <> []
        /\ has squote U = false /\ has dquote U = false
        /\ g = [(2%nat, U); (1%nat, [q])].
Proof.
  split.
  - apply svg_shape.
  - intros (w1 & w2 & w3 & q & U & -> & Hw1 & Hw2 & Hw3 & Hq & HU & Q1 & Q2 & ->).
    unfold re_match, pat_svg. norm_pat.
    repeat (rewrite <- List.app_assoc; cbn [app]). rewrite !m_chr.
    apply (m_greedy_run false Ws 0 _ _ _ w1); [exact Hw1 | reflexivity | lia |].
    rewrite m_chr.
    apply (m_greedy_run false Ws 0 _ _ _ w2); [exact Hw2 | | lia |].
    { cbn [stops atom_ok]. rewrite (quote_not_space q Hq). reflexivity. }
    rewrite m_open, m_one, quote_cls, Hq.
    rewrite (m_close false 1 _ _ _ [q]) by reflexivity.
    rewrite m_open.
    apply (m_greedy_run false nonquote 1 _ _ _ U (q :: w3 ++ 41 :: rest)).
    + apply no_quotes; assumption.
    + cbn [stops]. rewrite nonquote_ok, Hq. reflexivity.
    + destruct U; [contradiction | cbn [List.length]; clear; lia].
    + rewrite (m_close false 2 _ _ _ U) by reflexivity.
      rewrite (m_ref false 1 _ _ _ [q] _ (w3 ++ 41 :: rest));
        [| reflexivity | cbn [strip_prefix]; rewrite chr_eq_refl; reflexivity].
      apply (m_greedy_run false Ws 0 _ _ _ w3); [exact Hw3 | reflexivity | lia |].
      rewrite m_chr. reflexivity.
Qed.

(** ** Splitting a text at its first marked character *)

Lemma first_split_by (P : char -> bool) x : forall a y x' a' y',
  none_of P x = true -> none_of P x' = true -> P a = true -> P a' = true ->
  x ++ a :: y = x' ++ a' :: y' -> x = x' /\ a = a' /\ y = y'.
Proof.
  unfold none_of.
  induction x as [|c x IH]; intros a y x' a' y' Hx Hx' Ha Ha' E;
    destruct x' as [|c' x']; cbn [app forallb] in *.
  - injection E as -> ->. auto.
  - injection E as -> _. apply andb_true_iff in Hx' as [H _].
    rewrite Ha in H. discriminate.
  - injection E as -> _. apply andb_true_iff in Hx as [H _].
    rewrite Ha' in H. discriminate.
  - injection E as -> E. apply andb_true_iff in Hx as [_ Hx].
    apply andb_true_iff in Hx' as [_ Hx'].
    destruct (IH _ _ _ _ _ Hx Hx' Ha Ha' E) as (-> & -> & ->). auto.
Qed.

Lemma none_of_has e x : has e x = false -> none_of (N.eqb e) x = true.
Proof.
  unfold none_of. induction x as [|c x IH]; [reflexivity|].
  rewrite has_cons. intros H. apply orb_false_iff in H as [H1 H2].
  cbn [forallb]. rewrite H1, (IH H2). reflexivity.
Qed.

Lemma none_of_quotes x :
  has squote x = false -> has dquote x = false -> none_of is_quote x = true.
Proof.
  intros H1 H2. pose proof (no_quotes x H1 H2) as H. unfold none_of.
  clear H1 H2. induction x as [|c x IH]; [reflexivity|]. cbn [forallb] in *.
  apply andb_true_iff in H as [Hc H]. rewrite nonquote_ok in Hc.
  rewrite Hc, (IH H). reflexivity.
Qed.

Lemma none_of_app P x y : none_of P (x ++ y) = none_of P x && none_of P y.
Proof. unfold none_of. apply forallb_app. Qed.

Lemma first_split e x y x' y' :
  has e x = false -> has e x' = false ->
  x ++ e :: y = x' ++ e :: y' -> x = x' /\ y = y'.
Proof.
  intros H H' E.
  destruct (first_split_by (N.eqb e) x e y x' e y') as (-> & _ & ->);
    auto using none_of_has, N.eqb_refl.
Qed.

Lemma count_of_app P x y : count_of P (x ++ y) = (count_of P x + count_of P y)%nat.
Proof. unfold count_of. rewrite List.filter_app, List.length_app. reflexivity. Qed.

Lemma count_of_cons P a x :
  count_of P (a :: x) = ((if P a then 1 else 0) + count_of P x)%nat.
Proof. unfold count_of. cbn [List.filter]. destruct (P a); reflexivity. Qed.

Lemma count_of_none P x : none_of P x = true -> count_of P x = O.
Proof.
  unfold none_of. induction x as [|c x IH]; [reflexivity|]. cbn [forallb].
  intros H. apply andb_true_iff in H as [H1 H2]. apply negb_true_iff in H1.
  rewrite count_of_cons, H1, (IH H2). reflexivity.
Qed.

Lemma none_of_count P x : count_of P x = O -> none_of P x = true.
Proof.
  unfold none_of. induction x as [|c x IH]; [reflexivity|].
  rewrite count_of_cons. cbn [forallb]. destruct (P c); cbn [negb andb].
  - discriminate.
  - exact IH.
Qed.

(** Two marked characters and nothing marked around them: the first
    two marked characters of any other reading are the same. *)
Lemma two_marks P p q u q' s a0 a v b b0 :
  none_of P p = true -> none_of P u = true -> none_of P s = true ->
  none_of P v = true ->
  P q = true -> P q' = true -> P a = true -> P b = true ->
  p ++ q :: u ++ q' :: s = a0 ++ a :: v ++ b :: b0 ->
  a = q /\ v = u /\ b = q'.
Proof.
  intros Hp Hu Hs Hv Hq Hq' Ha Hb E.
  assert (Hn : count_of P a0 = O).
  { apply (f_equal (count_of P)) in E.
    rewrite !count_of_app, !count_of_cons, !count_of_app, !count_of_cons in E.
    rewrite Hq, Hq', Ha, Hb in E.
    rewrite (count_of_none P p Hp), (count_of_none P u Hu), (count_of_none P s Hs),
      (count_of_none P v Hv) in E.
    clear - E. lia. }
  apply none_of_count in Hn.
  destruct (first_split_by P p q _ a0 a _ Hp Hn Hq Ha E) as (_ & <- & E2).
  destruct (first_split_by P u q' _ v b _ Hu Hv Hq' Hb E2) as (<- & <- & _).
  auto.
Qed.

(** X12.  A directive whose opening and closing
    quotes differ, or whose path is empty, is no match anywhere in it:
    [_inline_svg_loads] returns it unchanged and has no effect. *)
Theorem unmatched_quotes_untouched host self q q' U w :
  is_quote q = true -> is_quote q' = true ->
  has squote U = false -> has dquote U = false ->
  q <> q' \/ U = [] ->
  let text := py "svg-load(" ++ q :: U ++ q' :: py ")" in
  _inline_svg_loads host self text w = (Ok text, w).
Proof.
  intros Hq Hq' H1 H2 Hbad text. unfold _inline_svg_loads, scan.
  rewrite scan_from_no_hit; [apply sub_with_lits|].
  intros t1 t2 E. destruct (re_match false pat_svg t2) as [[g rest]|] eqn:Hm; [|reflexivity].
  exfalso. apply svg_shape in Hm
    as (w1 & w2 & w3 & a & V & -> & _ & _ & _ & Ha & HV & V1 & V2 & _).
  assert (E' : py "svg-load(" ++ q :: U ++ q' :: py ")"
               = (t1 ++ py "svg-load" ++ w1 ++ 40 :: w2) ++ a :: V ++ a :: w3 ++ 41 :: rest).
  { fold text. rewrite E. repeat (rewrite <- List.app_assoc; cbn [app]). reflexivity. }
  apply (two_marks is_quote) in E' as (-> & -> & <-);
    auto using none_of_quotes.
  destruct Hbad as [Hne | ->]; [apply Hne; reflexivity | apply HV; reflexivity].
Qed.

(** ** The shims on calls with an argument missing *)

Lemma div_shape t g rest :
  re_match false pat_div t = Some (g, rest) ->
  exists w1 a w2 w3 b w4,
    t = py "math.div(" ++ w1 ++ a ++ w2 ++ 44 :: w3 ++ b ++ w4 ++ 41 :: rest
    /\ forallb is_space w1 = true /\ forallb is_space w2 = true
    /\ forallb is_space w3 = true /\ forallb is_space w4 = true
    /\ a <> [] /\ has 44 a = false /\ b <> [] /\ has 41 b = false
    /\ g = [(2%nat, b); (1%nat, a)].
Proof.
  intros H. unfold re_match, pat_div, lit in H.
  apply m_lit_shape in H as (t1 & -> & H).
  apply m_ws_shape in H as (w1 & t2 & -> & Hw1 & H).
  rewrite m_open in H. apply m_rep_shape in H as (a & t3 & -> & Ha & Hla & H).
  rewrite (m_close false 1 _ _ _ a) in H by reflexivity.
  apply m_ws_shape in H as (w2 & t4 & -> & Hw2 & H).
  apply m_chr_shape in H as (t5 & -> & H).
  apply m_ws_shape in H as (w3 & t6 & -> & Hw3 & H).
  rewrite m_open in H. apply m_rep_shape in H as (b & t7 & -> & Hb & Hlb & H).
  rewrite (m_close false 2 _ _ _ b) in H by reflexivity.
  apply m_ws_shape in H as (w4 & t8 & -> & Hw4 & H).
  apply m_chr_shape in H as (t9 & -> & H).
  cbn [m_nodes] in H. injection H as <- <-.
  exists w1, a, w2, w3, b, w4.
  repeat split; auto using nonempty_len, has_none.
Qed.

Lemma unit_shape t g rest :
  re_match false pat_unit t = Some (g, rest) ->
  exists w1 a w2,
    t = py "math.unit(" ++ w1 ++ a ++ w2 ++ 41 :: rest
    /\ forallb is_space w1 = true /\ forallb is_space w2 = true
    /\ a <> [] /\ has 41 a = false
    /\ g = [(1%nat, a)].
Proof.
  intros H. unfold re_match, pat_unit, lit in H.
  apply m_lit_shape in H as (t1 & -> & H).
  apply m_ws_shape in H as (w1 & t2 & -> & Hw1 & H).
  rewrite m_open in H. apply m_rep_shape in H as (a & t3 & -> & Ha & Hla & H).
  rewrite (m_close false 1 _ _ _ a) in H by reflexivity.
  apply m_ws_shape in H as (w2 & t4 & -> & Hw2 & H).
  apply m_chr_shape in H as (t5 & -> & H).
  cbn [m_nodes] in H. injection H as <- <-.
  exists w1, a, w2.
  repeat split; auto using nonempty_len, has_none.
Qed.

(** X13.  Every match of the [math.div] pattern has two
    non-empty arguments: the matched text is [math.div(], white space, a
    non-empty first argument without comma, white space, a comma, white
    space, a non-empty second argument without closing parenthesis, white
    space and [)]; the groups are the two arguments and the replacement is
    [(a / b)]. *)
Theorem div_match_shape t g rest :
  re_match false pat_div t = Some (g, rest) ->
  exists w1 a w2 w3 b w4,
    t = py "math.div(" ++ w1 ++ a ++ w2 ++ 44 :: w3 ++ b ++ w4 ++ 41 :: rest
    /\ forallb is_space w1 = true /\ forallb is_space w2 = true
    /\ forallb is_space w3 = true /\ forallb is_space w4 = true
    /\ a <> [] /\ has 44 a = false /\ b <> [] /\ has 41 b = false
    /\ g = [(2%nat, b); (1%nat, a)]
    /\ expand tpl_div {| m_text := firstn (List.length t - List.length rest) t;
                         m_groups := g |}
       = py "(" ++ a ++ py " / " ++ b ++ py ")".
Proof.
  intros H.
  destruct (div_shape t g rest H)
    as (w1 & a & w2 & w3 & b & w4 & E & Hw1 & Hw2 & Hw3 & Hw4 & Ha & Ha' & Hb & Hb' & Eg).
  exists w1, a, w2, w3, b, w4. repeat split; try assumption.
  rewrite Eg. unfold expand, tpl_div, group.
  cbn [flat_map m_groups cap_get Nat.eqb]. rewrite List.app_nil_r. reflexivity.
Qed.

(** X14.  Every match of the [math.unit] pattern has a
    non-empty argument without closing parenthesis between [math.unit(]
    and [)], white space apart; group 1 is the argument and the
    replacement is [unit(a)]. *)
Theorem unit_match_shape t g rest :
  re_match false pat_unit t = Some (g, rest) ->
  exists w1 a w2,
    t = py "math.unit(" ++ w1 ++ a ++ w2 ++ 41 :: rest
    /\ forallb is_space w1 = true /\ forallb is_space w2 = true
    /\ a <> [] /\ has 41 a = false
    /\ g = [(1%nat, a)]
    /\ expand tpl_unit {| m_text := firstn (List.length t - List.length rest) t;
                          m_groups := g |}
       = py "unit(" ++ a ++ py ")".
Proof.
  intros H.
  destruct (unit_shape t g rest H) as (w1 & a & w2 & E & Hw1 & Hw2 & Ha & Ha' & Eg).
  exists w1, a, w2. repeat split; try assumption.
  rewrite Eg. unfold expand, tpl_unit, group.
  cbn [flat_map m_groups cap_get Nat.eqb]. rewrite List.app_nil_r. reflexivity.
Qed.

Lemma scan_prefix_no_hit ic r post : forall pre,
  (forall p1 p2, pre = p1 ++ p2 -> p2 <> [] -> re_match ic r (p2 ++ post) = None) ->
  scan_from ic r 0 (pre ++ post) = List.map Lit pre ++ scan_from ic r 0 post.
Proof.
  induction pre as [|c pre IH]; intros H; [reflexivity|].
  assert (H0 : re_match ic r (c :: pre ++ post) = None).
  { apply (H [] (c :: pre)); [reflexivity | discriminate]. }
  cbn [app scan_from List.map]. rewrite H0.
  rewrite IH; [reflexivity|].
  intros p1 p2 E Hne. apply (H (c :: p1) p2); [cbn [app]; congruence | exact Hne].
Qed.

Lemma re_sub_prefix ic r tp pre post :
  (forall p1 p2, pre = p1 ++ p2 -> p2 <> [] -> re_match ic r (p2 ++ post) = None) ->
  re_sub ic r tp (pre ++ post) = pre ++ re_sub ic r tp post.
Proof.
  intros H. unfold re_sub, scan. rewrite scan_prefix_no_hit by exact H.
  rewrite flat_map_app. f_equal.
  clear H. induction pre as [|c pre IH]; [reflexivity|].
  cbn [List.map flat_map render app]. rewrite IH. reflexivity.
Qed.

(** Characters other than the first of the pattern begin no match. *)
Lemma re_sub_skip x r tp pre post :
  has x pre = false ->
  re_sub false (One (Chr x) :: r) tp (pre ++ post)
  = pre ++ re_sub false (One (Chr x) :: r) tp post.
Proof.
  intros H. apply re_sub_prefix. intros p1 p2 -> Hne.
  rewrite has_app in H. apply orb_false_iff in H as [_ H].
  destruct p2 as [|c p2]; [contradiction|].
  rewrite has_cons in H. apply orb_false_iff in H as [H _].
  unfold re_match. cbn [app]. rewrite m_one. cbn [atom_ok]. unfold chr_eq.
  rewrite H. reflexivity.
Qed.

Lemma div_stops_at_empty p post :
  has 44 p = false -> re_match false pat_div (p ++ 44 :: 41 :: post) = None.
Proof.
  intros Hp. destruct (re_match false pat_div _) as [[g rest]|] eqn:Hm; [|reflexivity].
  exfalso. apply div_shape in Hm
    as (w1 & a & w2 & w3 & b & w4 & E & Hw1 & Hw2 & Hw3 & _ & _ & Ha & Hb & Hb' & _).
  assert (E' : p ++ 44 :: 41 :: post
               = (py "math.div(" ++ w1 ++ a ++ w2) ++ 44 :: w3 ++ b ++ w4 ++ 41 :: rest).
  { rewrite E. repeat (rewrite <- List.app_assoc; cbn [app]). reflexivity. }
  apply first_split in E' as [_ E']; [|exact Hp|].
  - destruct w3 as [|c w3]; cbn [app] in E'.
    + destruct b as [|d b]; [contradiction|]. cbn [app] in E'. injection E' as <- _.
      rewrite has_cons in Hb'. discriminate.
    + injection E' as <- _. discriminate.
  - rewrite !has_app, Ha, (blank_has 44 w1), (blank_has 44 w2) by auto. reflexivity.
Qed.

Lemma div_needs_first post :
  re_match false pat_div (py "math.div(," ++ post) = None.
Proof.
  destruct (re_match false pat_div _) as [[g rest]|] eqn:Hm; [|reflexivity].
  exfalso. apply div_shape in Hm
    as (w1 & a & w2 & w3 & b & w4 & E & Hw1 & _ & _ & _ & Ha & Ha' & _).
  change (py "math.div(," ++ post) with (py "math.div(" ++ 44 :: post) in E.
  apply app_inv_head in E.
  destruct w1 as [|c w1]; cbn [app] in E.
  - destruct a as [|d a]; [contradiction|]. cbn [app] in E. injection E as <- _.
    rewrite has_cons in Ha'. discriminate.
  - injection E as <- _. discriminate.
Qed.

Lemma unit_needs_argument post :
  re_match false pat_unit (py "math.unit()" ++ post) = None.
Proof.
  destruct (re_match false pat_unit _) as [[g rest]|] eqn:Hm; [|reflexivity].
  exfalso. apply unit_shape in Hm
    as (w1 & a & w2 & E & Hw1 & _ & Ha & Ha' & _).
  change (py "math.unit()" ++ post) with (py "math.unit(" ++ 41 :: post) in E.
  apply app_inv_head in E.
  destruct w1 as [|c w1]; cbn [app] in E.
  - destruct a as [|d a]; [contradiction|]. cbn [app] in E. injection E as <- _.
    rewrite has_cons in Ha'. discriminate.
  - injection E as <- _. discriminate.
Qed.

Lemma first_then_rest ic r tp c pre post :
  re_match ic r (c :: pre ++ post) = None ->
  (forall post', re_sub ic r tp (pre ++ post') = pre ++ re_sub ic r tp post') ->
  re_sub ic r tp (c :: pre ++ post) = c :: pre ++ re_sub ic r tp post.
Proof.
  intros H Hrest.
  change (c :: pre ++ post) with ([c] ++ (pre ++ post)).
  rewrite re_sub_prefix.
  - rewrite Hrest. reflexivity.
  - intros p1 p2 E Hne. destruct p1 as [|d p1].
    + cbn [app] in E. subst p2. exact H.
    + destruct p1; destruct p2; try discriminate. contradiction.
Qed.

(** X15.  A call with an argument missing is copied as
    it is: a comma directly followed by [)] ends every [math.div] match
    begun before it in a text without earlier comma, [math.div(,] begins
    no match, and [math.unit()] begins none; the shims go on with the text
    that follows. *)
Theorem empty_arguments_kept :
  (forall pre post,
      has 44 pre = false ->
      shim_div (pre ++ py ",)" ++ post) = pre ++ py ",)" ++ shim_div post)
  /\ (forall post,
        shim_div (py "math.div(," ++ post) = py "math.div(," ++ shim_div post)
  /\ (forall post,
        shim_unit (py "math.unit()" ++ post) = py "math.unit()" ++ shim_unit post).
Proof.
  split; [|split].
  - intros pre post Hp. unfold shim_div. rewrite re_sub_prefix.
    + reflexivity.
    + intros p1 p2 -> _. rewrite has_app in Hp. apply orb_false_iff in Hp as [_ Hp].
      apply (div_stops_at_empty p2 post Hp).
  - intros post. unfold shim_div.
    apply (first_then_rest false pat_div tpl_div 109 (py "ath.div(,") post).
    + apply div_needs_first.
    + intros post'. exact (re_sub_skip 109 _ tpl_div (py "ath.div(,") post' eq_refl).
  - intros post. unfold shim_unit.
    apply (first_then_rest false pat_unit tpl_unit 109 (py "ath.unit()") post).
    + apply unit_needs_argument.
    + intros post'. exact (re_sub_skip 109 _ tpl_unit (py "ath.unit()") post' eq_refl).
Qed.

Lemma lstrip_chars_stop chars s :
  match lstrip_chars chars s with
  | c :: _ => has c chars = false
  | [] => True
  end.
Proof.
  induction s as [|c s IH]; [exact I|]. cbn [lstrip_chars].
  destruct (has c chars) eqn:E; [exact IH | exact E].
Qed.

Lemma has_slash c : has c (py "/") = (c =? slash).
Proof.
  change (py "/") with [slash]. rewrite has_cons. apply orb_false_r.
Qed.

Lemma rstrip_chars_end s : endswith_slash (rstrip_chars (py "/") s) = false.
Proof.
  unfold endswith_slash, rstrip_chars. rewrite rev_involutive.
  pose proof (lstrip_chars_stop (py "/") (rev s)) as H.
  destruct (lstrip_chars (py "/") (rev s)) as [|c t]; [reflexivity|].
  rewrite has_slash in H. exact H.
Qed.

Lemma lstrip_chars_run chars n c s :
  has c chars = true ->
  lstrip_chars chars (repeat c n ++ s) = lstrip_chars chars s.
Proof.
  intros H. induction n as [|n IH]; [reflexivity|].
  cbn [repeat app lstrip_chars]. rewrite H. exact IH.
Qed.

Lemma rev_repeat {A} (c : A) n : rev (repeat c n) = repeat c n.
Proof.
  induction n as [|n IH]; [reflexivity|]. cbn [repeat rev]. rewrite IH.
  clear IH. induction n as [|n IH]; [reflexivity|].
  cbn [repeat app]. rewrite IH. reflexivity.
Qed.

Lemma rstrip_chars_slashes u n :
  rstrip_chars (py "/") (u ++ repeat slash n) = rstrip_chars (py "/") u.
Proof.
  unfold rstrip_chars. rewrite rev_app_distr, rev_repeat.
  rewrite lstrip_chars_run by reflexivity. reflexivity.
Qed.

Lemma lstrip_chars_keep chars s :
  match s with c :: _ => has c chars = false | [] => True end ->
  lstrip_chars chars s = s.
Proof. destruct s as [|c s]; [reflexivity|]. cbn [lstrip_chars]. intros ->. reflexivity. Qed.

Lemma rstrip_chars_keep u :
  endswith_slash u = false -> rstrip_chars (py "/") u = u.
Proof.
  unfold endswith_slash, rstrip_chars. intros H.
  rewrite lstrip_chars_keep; [apply rev_involutive|].
  destruct (rev u) as [|c t]; [exact I|].
  rewrite has_slash. exact H.
Qed.

Lemma str_or_kept a b :
  endswith_slash a = false -> kept_url b -> kept_url (str_or a b).
Proof.
  intros Ha Hb. unfold str_or. destruct a as [|c a]; [exact Hb|].
  cbn [truthy kept_url]. split; [discriminate | exact Ha].
Qed.

(** X16.  After any number of [on_config] calls on a
    new plugin, with any configurations, each of the two base URLs is
    either [None] or a non-empty text that does not end with a slash. *)
Theorem base_urls_without_slash (configs : list (gmap (list N) (list N))) :
  let self := fold_left on_config configs new_plugin in
  kept_url (__mdi_base_url self) /\ kept_url (__octicons_base_url self).
Proof.
  cbv zeta.
  assert (Hgen : forall self,
             kept_url (__mdi_base_url self) /\ kept_url (__octicons_base_url self) ->
             kept_url (__mdi_base_url (fold_left on_config configs self))
             /\ kept_url (__octicons_base_url (fold_left on_config configs self))).
  { induction configs as [|config configs IH]; intros self H; [exact H|].
    cbn [fold_left]. apply IH. destruct H as [H1 H2].
    split; cbn [on_config __mdi_base_url __octicons_base_url];
      apply str_or_kept; auto using rstrip_chars_end. }
  apply Hgen. split; exact I.
Qed.

(** X17.  Slashes at the end of a configured value
    make no difference to [on_config]: the plugin it yields is the same
    with and without them, for every key. *)
Theorem trailing_slashes_ignored (self : ExtraSassPlugin)
  (config : gmap (list N) (list N)) (key v : list N) (n : nat) :
  on_config self (<[key := v ++ repeat slash n]> config)
  = on_config self (<[key := v]> config).
Proof.
  assert (H : forall k d,
             rstrip_chars (py "/") (config_get (<[key := v ++ repeat slash n]> config) k d)
             = rstrip_chars (py "/") (config_get (<[key := v]> config) k d)).
  { intros k d. unfold config_get. destruct (decide (key = k)) as [->|Hne].
    - rewrite !lookup_insert_eq. apply rstrip_chars_slashes.
    - rewrite !lookup_insert_ne by exact Hne. reflexivity. }
  unfold on_config. rewrite !H. reflexivity.
Qed.

(** X18.  When the configured (or default) base URLs are
    [u] and [u'] followed by any number of slashes, [u] and [u'] non-empty
    and not ending with a slash, the entry that [_build_entry] compiles
    after [on_config] is the entry found by [search_entry_point] with
    [u] and [u'] as its base URLs. *)
Theorem configured_entry (host : Host) (self : ExtraSassPlugin)
  (config : gmap (list N) (list N)) (u : list N) (n : nat) (u' : list N) (n' : nat) :
  config_get config (py "mdi_base_url") default_mdi = u ++ repeat slash n ->
  u <> [] -> endswith_slash u = false ->
  config_get config (py "octicons_base_url") default_oct = u' ++ repeat slash n' ->
  u' <> [] -> endswith_slash u' = false ->
  _build_entry_setup (on_config self config) host
  = match search_entry_point host with
    | NoSassEntry => NoSassEntry
    | AvailableSassEntry a =>
        AvailableSassEntry
          {| _dirname := _dirname a; _filename := _filename a;
             _relative_path := _relative_path a;
             _mdi_base_url := u; _octicons_base_url := u' |}
    end.
Proof.
  intros E Hu Hs E' Hu' Hs'. unfold _build_entry_setup, on_config.
  cbn [__mdi_base_url __octicons_base_url].
  rewrite E, E', !rstrip_chars_slashes, !rstrip_chars_keep by assumption.
  destruct (search_entry_point host) as [|a]; [reflexivity|].
  cbn [is_available set_mdi_base_url set_octicons_base_url _dirname _filename
         _relative_path _mdi_base_url _octicons_base_url].
  destruct u as [|c u]; [contradiction|]. destruct u' as [|c' u']; [contradiction|].
  unfold str_or. cbn [truthy or_empty]. reflexivity.
Qed.

Lemma first_style_sound host names :
  (forall g, In g names -> In g _style_filenames) ->
  match first_style host _styles_dir names with
  | AvailableSassEntry e =>
      exists before f after,
        names = before ++ f :: after
        /\ e = new_entry (py "extra_sass") f
        /\ isfile host (py "extra_sass/" ++ f) = true
        /\ (forall g, In g before -> isfile host (py "extra_sass/" ++ g) = false)
  | NoSassEntry =>
      forall g, In g names -> isfile host (py "extra_sass/" ++ g) = false
  end.
Proof.
  induction names as [|f names IH]; intros Hin; cbn [first_style].
  - intros g [].
  - rewrite join_styles by (apply Hin; left; reflexivity).
    destruct (isfile host (py "extra_sass/" ++ f)) eqn:Ef.
    + exists [], f, names. repeat split; auto. intros g [].
    + assert (Hin' : forall g, In g names -> In g _style_filenames).
      { intros g Hg. apply Hin. right. exact Hg. }
      specialize (IH Hin').
      destruct (first_style host _styles_dir names) as [|e].
      * intros g [<-|Hg]; [exact Ef | apply IH; exact Hg].
      * destruct IH as (before & f' & after & -> & -> & Hf & Hb).
        exists (f :: before), f', after. repeat split; auto.
        intros g [<-|Hg]; [exact Ef | apply Hb; exact Hg].
Qed.

(** X19.  What [search_entry_point] returns tells
    about the files: an available entry is a new entry for a name of the
    list that is a regular file in the directory [extra_sass], no earlier
    name of the list being one; no entry means that [extra_sass] is no
    directory or that none of the four names is a regular file. *)
Theorem search_entry_point_sound host :
  match search_entry_point host with
  | AvailableSassEntry e =>
      isdir host (py "extra_sass") = true
      /\ exists before f after,
           _style_filenames = before ++ f :: after
           /\ e = new_entry (py "extra_sass") f
           /\ isfile host (py "extra_sass/" ++ f) = true
           /\ (forall g, In g before -> isfile host (py "extra_sass/" ++ g) = false)
  | NoSassEntry =>
      isdir host (py "extra_sass") = false
      \/ (forall g, In g _style_filenames ->
                    isfile host (py "extra_sass/" ++ g) = false)
  end.
Proof.
  unfold search_entry_point. change _styles_dir with (py "extra_sass") at 1.
  destruct (isdir host (py "extra_sass")) eqn:Ed; [|left; reflexivity].
  pose proof (first_style_sound host _style_filenames (fun g H => H)) as H.
  destruct (first_style host _styles_dir _style_filenames) as [|e].
  - right. exact H.
  - split; [reflexivity | exact H].
Qed.

Lemma setup_entry self host :
  _build_entry_setup self host
  = match search_entry_point host with
    | NoSassEntry => NoSassEntry
    | AvailableSassEntry a =>
        AvailableSassEntry
          {| _dirname := _dirname a; _filename := _filename a;
             _relative_path := _relative_path a;
             _mdi_base_url := or_empty (__mdi_base_url self);
             _octicons_base_url := or_empty (__octicons_base_url self) |}
    end.
Proof.
  unfold _build_entry_setup. destruct (search_entry_point host); reflexivity.
Qed.

Lemma search_entry_point_new host a :
  search_entry_point host = AvailableSassEntry a ->
  exists f, a = new_entry _styles_dir f.
Proof.
  unfold search_entry_point. destruct (isdir host _styles_dir); [|discriminate].
  induction _style_filenames as [|f names IH]; cbn [first_style]; [discriminate|].
  destruct (isfile host (os_path_join _styles_dir f)); [|exact IH].
  intros H. injection H as <-. exists f. reflexivity.
Qed.

(** X20.  The entry that [_build_entry] hands to
    [save_to] has an empty relative path, whatever was configured, and the
    setters do not change whether the entry is available. *)
Theorem setup_has_no_relative_path self host :
  relative_path (_build_entry_setup self host) = []
  /\ is_available (_build_entry_setup self host)
     = is_available (search_entry_point host).
Proof.
  rewrite setup_entry.
  pose proof (search_entry_point_new host) as Hn.
  destruct (search_entry_point host) as [|a]; [split; reflexivity|].
  destruct (Hn a eq_refl) as (f & ->). split; reflexivity.
Qed.

(** X21.  With a configured Material Design URL [u]
    followed by any number of slashes, the entry built after [on_config]
    has [u] as its base URL, and [replacer] fetches an [@mdi/svg/svg/] path
    from [u], one slash and the basename of the path. *)
Theorem configured_mdi_url (host : Host) (self : ExtraSassPlugin)
  (config : gmap (list N) (list N)) (u : list N) (n : nat) (a : Entry) (m : Match) :
  config_get config (py "mdi_base_url") default_mdi = u ++ repeat slash n ->
  u <> [] -> endswith_slash u = false ->
  _build_entry_setup (on_config self config) host = AvailableSassEntry a ->
  let svg_path := strip (group m 2) in
  startswith (py "http://") svg_path = false ->
  startswith (py "https://") svg_path = false ->
  startswith (py "@mdi/svg/svg/") svg_path = true ->
  _mdi_base_url a = u
  /\ exists why, forall w,
       replacer host a m w
       = (let* fetched :=
            _fetch_and_cache host (u ++ py "/" ++ os_path_basename svg_path) in
          ret (if truthy fetched then inlined (m_text m) fetched
               else comment (m_text m) why)) w.
Proof.
  intros E Hu Hs Ha svg_path H1 H2 H3.
  assert (Hbase : _mdi_base_url a = u).
  { rewrite setup_entry in Ha. destruct (search_entry_point host) as [|a0]; [discriminate|].
    injection Ha as <-. cbn [_mdi_base_url on_config __mdi_base_url].
    rewrite E, rstrip_chars_slashes, rstrip_chars_keep by exact Hs.
    destruct u as [|c u]; [contradiction|]. reflexivity. }
  split; [exact Hbase|].
  apply replacer_target. unfold fetch_target. fold svg_path.
  rewrite H1, H2, H3, Hbase. destruct u as [|c u]; [contradiction|]. reflexivity.
Qed.

(** ** Directives for any path *)

Lemma svg_scan_any pre q u0 U' post :
  is_quote q = true -> is_space u0 = false -> (41 =? u0) = false ->
  has squote (u0 :: U') = false -> has dquote (u0 :: U') = false ->
  scan false pat_svg (pre ++ svg_call q (u0 :: U') ++ post)
  = scan false pat_svg pre
    ++ Hit {| m_text := svg_call q (u0 :: U');
              m_groups := [(2%nat, u0 :: U'); (1%nat, [q])] |}
    :: scan false pat_svg post.
Proof.
  intros Hq Hs Hp H1 H2.
  pose proof (svg_head q (u0 :: U') post Hq ltac:(discriminate) H1 H2) as Hhead.
  pose proof (svg_apart q u0 U' post Hq Hs Hp) as Hap.
  assert (EX : svg_call q (u0 :: U') ++ post
               = 115 :: [118; 103; 45; 108; 111; 97; 100; 40]
                        ++ q :: u0 :: U' ++ q :: 41 :: post).
  { unfold svg_call. norm_py. repeat (rewrite <- List.app_assoc; cbn [app]).
    reflexivity. }
  rewrite <- EX in Hap.
  revert Hhead Hap. unfold pat_svg. norm_pat. intros Hhead Hap.
  rewrite scan_app by exact Hap. f_equal.
  apply scan_head; [|exact Hhead].
  unfold svg_call. norm_py. discriminate.
Qed.

(** X22.  A directive for any quote-free path
    that begins with neither white space nor [)], an icon path as well as
    a URL, is handed to [replacer] once: [_inline_svg_loads] handles what
    precedes it, then the directive, then what follows, and joins the
    three results. *)
Theorem inline_directive_composes host self pre q u0 U' post :
  is_quote q = true -> is_space u0 = false -> (41 =? u0) = false ->
  has squote (u0 :: U') = false -> has dquote (u0 :: U') = false ->
  let U := u0 :: U' in
  let m := {| m_text := svg_call q U; m_groups := [(2%nat, U); (1%nat, [q])] |} in
  forall w,
    _inline_svg_loads host self (pre ++ svg_call q U ++ post) w
    = (let* o1 := _inline_svg_loads host self pre in
       let* r := replacer host self m in
       let* o2 := _inline_svg_loads host self post in
       ret (o1 ++ r ++ o2)) w.
Proof.
  intros Hq Hs Hp H1 H2 U m w. subst m U. unfold _inline_svg_loads.
  rewrite (svg_scan_any pre q u0 U' post Hq Hs Hp H1 H2). apply sub_with_app.
Qed.

Lemma utf8_char_some c b : utf8_char c = Some b -> b <> [].
Proof.
  unfold utf8_char.
  repeat match goal with
         | |- context [if ?x then _ else _] => destruct x
         end; intros H; try discriminate; injection H as <-; discriminate.
Qed.

Lemma utf8_nonempty s bb : s <> [] -> utf8_encode s = Some bb -> bb <> [].
Proof.
  destruct s as [|c s]; [contradiction|]. intros _. cbn [utf8_encode].
  destruct (utf8_char c) as [b|] eqn:E; [|discriminate].
  destruct (utf8_encode s); [|discriminate].
  intros H. injection H as <-. apply utf8_char_some in E.
  destruct b; [contradiction | discriminate].
Qed.

Lemma b64_nonempty bs : bs <> [] -> truthy (b64encode bs) = true.
Proof. destruct bs as [|a [|b [|c rest]]]; [contradiction| | |]; reflexivity. Qed.

(** X23.  A style sheet that loads the same URL
    twice, with no directive in between, makes one request: the first
    directive downloads the body and writes the cache file, the second
    reads the file, and both are replaced by the same inlined image
    (the body holding no carriage return). *)
Theorem same_icon_downloaded_once host self q U mid bs body bb w :
  is_quote q = true ->
  has squote U = false -> has dquote U = false ->
  startswith (py "http://") U || startswith (py "https://") U = true ->
  contains (py "svg-load") mid = false ->
  let url := strip U in
  let p := (user_cache_dir host (py "mkdxs-mathshim"),
            Sha256.hexdigest bs ++ py ".svg") in
  utf8_encode url = Some bs -> files w !! p = None ->
  net host url = Some body -> body <> [] -> utf8_encode body = Some bb ->
  write_refused host p = false -> has 13 body = false ->
  os_linesep host = [10] \/ os_linesep host = [13; 10] ->
  let image := inlined (svg_call q U) (b64encode bb) in
  let run := _inline_svg_loads host self (svg_call q U ++ mid ++ svg_call q U) w in
  fst run = Ok (image ++ mid ++ image)
  /\ log (snd run)
     = EvRead p :: EvMkdir (fst p) :: EvWrite p :: EvGet url :: EvMkdir (fst p)
         :: log w.
Proof.
  intros Hq H1 H2 Hh Hmid url p Hu Hf Hn Hne Hb Hw Hcr Hls image run.
  enough (E : run
              = (Ok (image ++ mid ++ image),
                 {| files := <[p := Readable (write_newlines (os_linesep host) body)]>
                               (files w);
                    log := EvRead p :: EvMkdir (fst p) :: EvWrite p :: EvGet url
                             :: EvMkdir (fst p) :: log w |})).
  { rewrite E. split; reflexivity. }
  subst run. unfold _inline_svg_loads.
  pose proof (svg_scan [] q U (mid ++ svg_call q U) Hq H1 H2 Hh) as S1.
  pose proof (svg_scan mid q U [] Hq H1 H2 Hh) as S2.
  rewrite List.app_nil_r in S2. cbn [app] in S1. rewrite S1, S2.
  assert (Smid : scan false pat_svg mid = List.map Lit mid).
  { unfold scan. apply scan_from_no_hit. intros t1 t2 ->.
    unfold re_match, pat_svg, lit. apply m_lit_fail, strip_prefix_startswith.
    apply (contains_suffix _ t1). exact Hmid. }
  rewrite Smid. change (scan false pat_svg []) with (@nil piece).
  set (m := {| m_text := svg_call q U; m_groups := [(2%nat, U); (1%nat, [q])] |}).
  destruct (replacer_target host self m url) as (why & Hrep).
  { apply http_target. exact Hh. }
  cbn [app sub_with]. unfold bind at 1. rewrite Hrep. unfold bind at 1.
  rewrite (fetch_miss host url bs Hu w Hf). unfold download_into.
  rewrite Hn, Hb. fold p. rewrite Hw. unfold ret at 1.
  rewrite (b64_nonempty bb (utf8_nonempty body bb Hne Hb)).
  unfold bind at 1. rewrite sub_with_app. unfold bind at 1.
  rewrite sub_with_lits. unfold bind at 1. rewrite Hrep. unfold bind at 1.
  rewrite (fetch_hit host url bs Hu _ (write_newlines (os_linesep host) body) bb);
    [| cbn [files]; apply lookup_insert_eq
     | rewrite newlines_round_trip; assumption].
  unfold ret at 1. rewrite (b64_nonempty bb (utf8_nonempty body bb Hne Hb)).
  cbn [sub_with]. unfold bind, ret. cbn [files log].
  rewrite !List.app_nil_r. reflexivity.
Qed.

Lemma cache_hit_is_offline_witness :
  let url := py "https://x.org/a.svg" in
  let p := (user_cache_dir demo_host (py "mkdxs-mathshim"),
            Sha256.hexdigest url ++ py ".svg") in
  let w := {| files := {[ p := Readable (py "<svg/>") ]}; log := [] |} in
  (utf8_encode url = Some url
   /\ files w !! p = Some (Readable (py "<svg/>"))
   /\ utf8_encode (universal_newlines (py "<svg/>")) = Some (py "<svg/>"))
  /\ fst (_fetch_and_cache demo_host url w) = Ok (py "PHN2Zy8+")
  /\ log (snd (_fetch_and_cache demo_host url w)) = [EvRead p; EvMkdir (fst p)].
Proof.
  intros url p w.
  assert (Hu : utf8_encode url = Some url) by (vm_compute; reflexivity).
  assert (Hf : files w !! p = Some (Readable (py "<svg/>")))
    by apply lookup_singleton_eq.
  assert (Hc : utf8_encode (universal_newlines (py "<svg/>")) = Some (py "<svg/>"))
    by (vm_compute; reflexivity).
  split; [auto|].
  pose proof (cache_hit_is_offline demo_host url url w (py "<svg/>") (py "<svg/>")
                Hu Hf Hc) as H.
  cbv zeta in H. destruct H as (H1 & _ & H3 & _).
  split; [rewrite H1; reflexivity | exact H3].
Defined.


Lemma second_fetch_reads_cache_witness :
  let url := py "https://x.org/a.svg" in
  let p := (user_cache_dir crlf_host (py "mkdxs-mathshim"),
            Sha256.hexdigest url ++ py ".svg") in
  let r1 := _fetch_and_cache crlf_host url empty_world in
  let r2 := _fetch_and_cache crlf_host url (snd r1) in
  (utf8_encode url = Some url /\ files empty_world !! p = None
   /\ net crlf_host url = Some crlf_body
   /\ utf8_encode crlf_body = Some crlf_body
   /\ write_refused crlf_host p = false
   /\ utf8_encode (universal_newlines (write_newlines (os_linesep crlf_host) crlf_body))
      = Some (py "<svg>" ++ [10] ++ py "</svg>"))
  /\ fst r1 = Ok (py "PHN2Zz4NCjwvc3ZnPg==")
  /\ fst r2 = Ok (py "PHN2Zz4KPC9zdmc+").
Proof.
  intros url p r1 r2.
  assert (Hu : utf8_encode url = Some url) by (vm_compute; reflexivity).
  split; [repeat split; try (vm_compute; reflexivity); apply lookup_empty|].
  pose proof (second_fetch_reads_cache crlf_host url url crlf_body crlf_body
                (py "<svg>" ++ [10] ++ py "</svg>") empty_world Hu
                (lookup_empty _) eq_refl eq_refl eq_refl eq_refl) as H.
  cbv zeta in H. destruct H as (H1 & H2 & _).
  subst r1 r2. rewrite H1, H2. split; reflexivity.
Defined.

Lemma empty_body_is_cached_as_failure_witness :
  let url := py "https://x.org/a.svg" in
  let p := (user_cache_dir empty_body_host (py "mkdxs-mathshim"),
            Sha256.hexdigest url ++ py ".svg") in
  let r1 := _fetch_and_cache empty_body_host url empty_world in
  let r2 := _fetch_and_cache empty_body_host url (snd r1) in
  (utf8_encode url = Some url /\ files empty_world !! p = None
   /\ net empty_body_host url = Some []
   /\ write_refused empty_body_host p = false)
  /\ fst r2 = Ok []
  /\ log (snd r2) = EvRead p :: EvMkdir (fst p) :: log (snd r1).
Proof.
  intros url p r1 r2.
  assert (Hu : utf8_encode url = Some url) by (vm_compute; reflexivity).
  split; [repeat split; try (vm_compute; reflexivity); apply lookup_empty|].
  pose proof (empty_body_is_cached_as_failure empty_body_host url url empty_world
                Hu (lookup_empty _) eq_refl eq_refl) as H.
  cbv zeta in H. destruct H as (_ & _ & H3 & _ & H5).
  split; [exact H3 | exact H5].
Defined.

Lemma fetch_result_is_base64_witness :
  let url := py "https://x.org/a.svg" in
  fst (_fetch_and_cache demo_host url empty_world) = Ok (py "PHN2Zy8+")
  /\ forallb is_b64 (py "PHN2Zy8+") = true
  /\ has squote (py "PHN2Zy8+") = false.
Proof.
  intros url.
  assert (H : fst (_fetch_and_cache demo_host url empty_world) = Ok (py "PHN2Zy8+"))
    by (vm_compute; reflexivity).
  split; [exact H|].
  exact (fetch_result_is_base64 demo_host url empty_world (py "PHN2Zy8+") H).
Defined.

Lemma second_fetch_same_without_cr_witness :
  let url := py "https://x.org/a.svg" in
  let p := (user_cache_dir demo_host (py "mkdxs-mathshim"),
            Sha256.hexdigest url ++ py ".svg") in
  let r1 := _fetch_and_cache demo_host url empty_world in
  let r2 := _fetch_and_cache demo_host url (snd r1) in
  (utf8_encode url = Some url /\ files empty_world !! p = None
   /\ net demo_host url = Some (py "<svg/>")
   /\ utf8_encode (py "<svg/>") = Some (py "<svg/>")
   /\ write_refused demo_host p = false /\ has 13 (py "<svg/>") = false
   /\ os_linesep demo_host = [10])
  /\ fst r1 = Ok (py "PHN2Zy8+") /\ fst r2 = Ok (py "PHN2Zy8+").
Proof.
  intros url p r1 r2.
  assert (Hu : utf8_encode url = Some url) by (vm_compute; reflexivity).
  split; [repeat split; try (vm_compute; reflexivity); apply lookup_empty|].
  pose proof (second_fetch_same_without_cr demo_host url url (py "<svg/>")
                (py "<svg/>") empty_world Hu (lookup_empty _) eq_refl eq_refl
                eq_refl eq_refl (or_introl eq_refl)) as H.
  cbv zeta in H. destruct H as (H1 & H2 & _).
  subst r1 r2. rewrite H1, H2. split; reflexivity.
Defined.

Lemma mdi_fetch_by_basename_witness :
  let path := py "@mdi/svg/svg/account.svg" in
  let m := {| m_text := svg_call dquote path;
              m_groups := [(2%nat, path); (1%nat, [dquote])] |} in
  (startswith (py "http://") (strip (group m 2)) = false
   /\ startswith (py "https://") (strip (group m 2)) = false
   /\ truthy (_mdi_base_url demo_entry) = true
   /\ startswith (py "@mdi/svg/svg/") (strip (group m 2)) = true)
  /\ fst (replacer demo_host demo_entry m empty_world)
     = Ok (comment (m_text m)
             (py "MDI fetch failed: https://m.org/svg/account.svg")).
Proof.
  intros path m.
  split; [repeat split; vm_compute; reflexivity|].
  rewrite (proj1 (mdi_fetch_by_basename demo_host demo_entry m
                    eq_refl eq_refl eq_refl eq_refl) empty_world).
  vm_compute. reflexivity.
Defined.

Lemma unknown_path_untouched_witness :
  let path := py "img/logo.svg" in
  let m := {| m_text := svg_call dquote path;
              m_groups := [(2%nat, path); (1%nat, [dquote])] |} in
  (startswith (py "http://") (strip (group m 2)) = false
   /\ startswith (py "https://") (strip (group m 2)) = false
   /\ truthy (_mdi_base_url demo_entry)
      && startswith (py "@mdi/svg/svg/") (strip (group m 2)) = false
   /\ truthy (_octicons_base_url demo_entry)
      && contains (py "octicons") (strip (group m 2)) = false)
  /\ replacer demo_host demo_entry m empty_world
     = (Ok (py "/* svg-load(" ++ dquote :: py "img/logo.svg" ++ dquote
              :: py ") => no known base URL or not an http link */"),
        empty_world).
Proof.
  intros path m.
  split; [repeat split; vm_compute; reflexivity|].
  rewrite (unknown_path_untouched demo_host demo_entry m empty_world
             eq_refl eq_refl eq_refl eq_refl).
  reflexivity.
Defined.

Lemma inline_without_directive_witness :
  contains (py "svg-load") (py "a { color: red; }") = false
  /\ _inline_svg_loads demo_host demo_entry (py "a { color: red; }") empty_world
     = (Ok (py "a { color: red; }"), empty_world).
Proof.
  split; [reflexivity|].
  apply (inline_without_directive demo_host demo_entry (py "a { color: red; }")
           empty_world eq_refl).
Defined.

Lemma shims_without_calls_witness :
  let s := py "a { width: calc(1px + 2px); color: RED; }" in
  (contains (py "math.") s = false /\ contains_ci (py "color.channel") s = false)
  /\ save_to_shim s = s.
Proof.
  intros s. split; [split; vm_compute; reflexivity|].
  apply (proj2 (proj2 (shims_without_calls s))); vm_compute; reflexivity.
Defined.

Lemma svg_match_iff_witness :
  let U := py "a.svg" in
  (forallb is_space (py " ") = true /\ is_quote squote = true /\ U <> []
   /\ has squote U = false /\ has dquote U = false)
  /\ re_match false pat_svg (py "svg-load ( 'a.svg' ); x")
     = Some ([(2%nat, U); (1%nat, [squote])], py "; x").
Proof.
  intros U.
  assert (HU : U <> []) by discriminate.
  split; [repeat split; auto|].
  apply (proj2 (svg_match_iff (py "svg-load ( 'a.svg' ); x")
                  [(2%nat, U); (1%nat, [squote])] (py "; x"))).
  exists (py " "), (py " "), (py " "), squote, U.
  repeat split; auto.
Defined.

Lemma unmatched_quotes_untouched_witness :
  let U := py "a.svg" in
  let text := py "svg-load(" ++ dquote :: U ++ squote :: py ")" in
  (is_quote dquote = true /\ is_quote squote = true
   /\ has squote U = false /\ has dquote U = false /\ dquote <> squote)
  /\ _inline_svg_loads demo_host demo_entry text empty_world = (Ok text, empty_world).
Proof.
  intros U text.
  assert (Hne : dquote <> squote) by discriminate.
  split; [repeat split; auto|].
  apply (unmatched_quotes_untouched demo_host demo_entry dquote squote U empty_world
           eq_refl eq_refl eq_refl eq_refl (or_introl Hne)).
Defined.

Lemma div_match_shape_witness :
  let t := py "math.div( $a , 2 ) + 1" in
  let g := [(2%nat, py "2"); (1%nat, py "$a")] in
  re_match false pat_div t = Some (g, py " + 1")
  /\ expand tpl_div {| m_text := firstn (List.length t - List.length (py " + 1")) t;
                       m_groups := g |}
     = py "($a / 2)".
Proof.
  intros t g.
  assert (H : re_match false pat_div t = Some (g, py " + 1"))
    by (vm_compute; reflexivity).
  split; [exact H|].
  destruct (div_match_shape t g (py " + 1") H)
    as (w1 & a & w2 & w3 & b & w4 & _ & _ & _ & _ & _ & _ & _ & _ & _ & Eg & Ex).
  injection Eg as <- <-. exact Ex.
Defined.

Lemma unit_match_shape_witness :
  let t := py "math.unit( 1px ) * 2" in
  let g := [(1%nat, py "1px")] in
  re_match false pat_unit t = Some (g, py " * 2")
  /\ expand tpl_unit {| m_text := firstn (List.length t - List.length (py " * 2")) t;
                        m_groups := g |}
     = py "unit(1px)".
Proof.
  intros t g.
  assert (H : re_match false pat_unit t = Some (g, py " * 2"))
    by (vm_compute; reflexivity).
  split; [exact H|].
  destruct (unit_match_shape t g (py " * 2") H)
    as (w1 & a & w2 & _ & _ & _ & _ & _ & Eg & Ex).
  injection Eg as <-. exact Ex.
Defined.

Lemma empty_arguments_kept_witness :
  has 44 (py "x: math.div($a") = false
  /\ shim_div (py "x: math.div($a,); y: math.div(4, 2)")
     = py "x: math.div($a,); y: (4 / 2)".
Proof.
  split; [reflexivity|].
  change (py "x: math.div($a,); y: math.div(4, 2)")
    with (py "x: math.div($a" ++ py ",)" ++ py "; y: math.div(4, 2)").
  rewrite (proj1 empty_arguments_kept (py "x: math.div($a") (py "; y: math.div(4, 2)")
             eq_refl).
  vm_compute. reflexivity.
Defined.

Lemma demo_config_mdi :
  config_get demo_config (py "mdi_base_url") default_mdi
  = py "https://m.org/svg" ++ repeat slash 2.
Proof. unfold config_get, demo_config. rewrite lookup_singleton_eq. reflexivity. Qed.

Lemma demo_config_oct :
  config_get demo_config (py "octicons_base_url") default_oct
  = rstrip_chars (py "/") default_oct ++ repeat slash 1.
Proof.
  unfold config_get, demo_config. rewrite lookup_singleton_ne; [reflexivity|].
  intros H. vm_compute in H. discriminate H.
Qed.

Lemma configured_entry_witness :
  let u := py "https://m.org/svg" in
  let u' := py "https://raw.githubusercontent.com/primer/octicons/main/icons" in
  (config_get demo_config (py "mdi_base_url") default_mdi = u ++ repeat slash 2
   /\ u <> [] /\ endswith_slash u = false
   /\ config_get demo_config (py "octicons_base_url") default_oct
      = u' ++ repeat slash 1
   /\ u' <> [] /\ endswith_slash u' = false)
  /\ _build_entry_setup (on_config new_plugin demo_config) demo_host
     = AvailableSassEntry
         {| _dirname := py "extra_sass"; _filename := py "style.scss";
            _relative_path := None;
            _mdi_base_url := u; _octicons_base_url := u' |}.
Proof.
  intros u u'.
  assert (Hu : u <> []) by discriminate.
  assert (Hu' : u' <> []) by discriminate.
  split; [repeat split; auto using demo_config_mdi, demo_config_oct|].
  rewrite (configured_entry demo_host new_plugin demo_config u 2 u' 1
             demo_config_mdi Hu eq_refl demo_config_oct Hu' eq_refl).
  reflexivity.
Defined.

Lemma search_entry_point_sound_witness :
  search_entry_point demo_host
  = AvailableSassEntry (new_entry (py "extra_sass") (py "style.scss"))
  /\ isdir demo_host (py "extra_sass") = true
  /\ search_entry_point crlf_host = NoSassEntry
  /\ (isdir crlf_host (py "extra_sass") = false
      \/ (forall g, In g _style_filenames ->
                    isfile crlf_host (py "extra_sass/" ++ g) = false)).
Proof.
  assert (E : search_entry_point demo_host
              = AvailableSassEntry (new_entry (py "extra_sass") (py "style.scss")))
    by reflexivity.
  assert (E' : search_entry_point crlf_host = NoSassEntry) by reflexivity.
  pose proof (search_entry_point_sound demo_host) as H. rewrite E in H.
  pose proof (search_entry_point_sound crlf_host) as H'. rewrite E' in H'.
  destruct H as (H & _). auto.
Defined.

Lemma configured_mdi_url_witness :
  let path := py "@mdi/svg/svg/account.svg" in
  let m := {| m_text := svg_call dquote path;
              m_groups := [(2%nat, path); (1%nat, [dquote])] |} in
  let u := py "https://m.org/svg" in
  let a := {| _dirname := py "extra_sass"; _filename := py "style.scss";
              _relative_path := None;
              _mdi_base_url := u;
              _octicons_base_url := rstrip_chars (py "/") default_oct |} in
  (config_get demo_config (py "mdi_base_url") default_mdi = u ++ repeat slash 2
   /\ u <> [] /\ endswith_slash u = false
   /\ _build_entry_setup (on_config new_plugin demo_config) demo_host
      = AvailableSassEntry a
   /\ startswith (py "http://") (strip (group m 2)) = false
   /\ startswith (py "https://") (strip (group m 2)) = false
   /\ startswith (py "@mdi/svg/svg/") (strip (group m 2)) = true)
  /\ exists why,
       fst (replacer demo_host a m empty_world) = Ok (comment (m_text m) why)
       /\ log (snd (replacer demo_host a m empty_world))
          = [EvGet (py "https://m.org/svg/account.svg");
             EvMkdir (py "/home/u/.cache/mkdxs-mathshim")].
Proof.
  intros path m u a.
  assert (Hu : u <> []) by discriminate.
  assert (Ha : _build_entry_setup (on_config new_plugin demo_config) demo_host
               = AvailableSassEntry a).
  { rewrite setup_entry. cbn [on_config __mdi_base_url __octicons_base_url].
    rewrite demo_config_mdi, demo_config_oct. vm_compute. reflexivity. }
  split; [repeat split; auto using demo_config_mdi|].
  destruct (configured_mdi_url demo_host new_plugin demo_config u 2 a m
              demo_config_mdi Hu eq_refl Ha eq_refl eq_refl eq_refl)
    as (_ & why & H).
  exists why. rewrite H. vm_compute. split; reflexivity.
Defined.

Lemma inline_directive_composes_witness :
  let U' := py "mdi/svg/svg/account.svg" in
  (is_quote dquote = true /\ is_space 64 = false /\ (41 =? 64) = false
   /\ has squote (64 :: U') = false /\ has dquote (64 :: U') = false)
  /\ fst (_inline_svg_loads demo_host demo_entry
            (py "a{b:" ++ svg_call dquote (64 :: U') ++ py "}") empty_world)
     = Ok (py "a{b:"
           ++ comment (svg_call dquote (64 :: U'))
                (py "MDI fetch failed: https://m.org/svg/account.svg")
           ++ py "}").
Proof.
  intros U'.
  split; [repeat split; vm_compute; reflexivity|].
  rewrite (inline_directive_composes demo_host demo_entry (py "a{b:") dquote 64 U'
             (py "}") eq_refl eq_refl eq_refl eq_refl eq_refl empty_world).
  vm_compute. reflexivity.
Defined.

Lemma same_icon_downloaded_once_witness :
  let U := py "https://x.org/a.svg" in
  let mid := py ";c:" in
  let p := (user_cache_dir demo_host (py "mkdxs-mathshim"),
            Sha256.hexdigest U ++ py ".svg") in
  let image := inlined (svg_call squote U) (py "PHN2Zy8+") in
  let run := _inline_svg_loads demo_host demo_entry
               (svg_call squote U ++ mid ++ svg_call squote U) empty_world in
  (is_quote squote = true /\ has squote U = false /\ has dquote U = false
   /\ startswith (py "http://") U || startswith (py "https://") U = true
   /\ contains (py "svg-load") mid = false
   /\ utf8_encode (strip U) = Some U /\ files empty_world !! p = None
   /\ net demo_host (strip U) = Some (py "<svg/>") /\ py "<svg/>" <> []
   /\ utf8_encode (py "<svg/>") = Some (py "<svg/>")
   /\ write_refused demo_host p = false /\ has 13 (py "<svg/>") = false
   /\ os_linesep demo_host = [10])
  /\ fst run = Ok (image ++ mid ++ image)
  /\ log (snd run)
     = [EvRead p; EvMkdir (fst p); EvWrite p; EvGet U; EvMkdir (fst p)].
Proof.
  intros U mid p image run.
  assert (Hne : py "<svg/>" <> []) by discriminate.
  assert (Hu : utf8_encode (strip U) = Some U) by (vm_compute; reflexivity).
  split; [repeat split; auto; try (vm_compute; reflexivity); apply lookup_empty|].
  pose proof (same_icon_downloaded_once demo_host demo_entry squote U mid U
                (py "<svg/>") (py "<svg/>") empty_world
                eq_refl eq_refl eq_refl eq_refl eq_refl Hu (lookup_empty _)
                eq_refl Hne eq_refl eq_refl eq_refl (or_introl eq_refl)) as H.
  cbv zeta in H. exact H.
Defined.
